(** * Payment instruction parser: a shallow embedding and its properties

    The development follows the parse-instruction service
    ([tokenize], [isValidAccountId], [isValidDateFormat], [isFutureDate],
    [parseWithStateMachine], [validateBusinessRules], [selectPrimaryError],
    [parseInstruction]) and the message catalogue of the repository.

    Conventions of the embedding:
    - a JavaScript string is a [string] of ASCII characters; [toUpperCase]
      and the whitespace class are the ASCII parts of the runtime's;
    - a JavaScript number that holds an integer is a [Z] (balances and
      amounts are integers); the sum and the difference computed for an
      account view are rounded as doubles are ([JS.add], [JS.sub]);
    - [null] and [undefined] are [None];
    - an array built by [push] is a list extended at its end;
    - the exception handler of [parseInstruction] is explicit: a
      computation that would throw yields [None], and the handler's
      response is substituted for it;
    - the current UTC calendar date read by [new Date()] is a parameter
      [now] of every function that reaches [isFutureDate]. *)

From Stdlib Require Import ZArith List Bool String Ascii Lia Permutation.
Import ListNotations.

Local Open Scope string_scope.
Local Open Scope Z_scope.

(** ** JavaScript string primitives used by the service *)

Module JS.

(** Code-unit comparison of single characters, as [<=] on one-character
    strings. *)
Definition charLe (a b : ascii) : bool := (nat_of_ascii a <=? nat_of_ascii b)%nat.

Definition isLower (c : ascii) : bool := charLe "a" c && charLe c "z".
Definition isUpper (c : ascii) : bool := charLe "A" c && charLe c "Z".
Definition isDigit (c : ascii) : bool := charLe "0" c && charLe c "9".

(** The ASCII members of the class [\s], which is also what [trim] and
    [parseInt] strip: tab, line feed, vertical tab, form feed, carriage
    return and space. *)
Definition isWhiteSpace (c : ascii) : bool :=
  match nat_of_ascii c with
  | 9%nat | 10%nat | 11%nat | 12%nat | 13%nat | 32%nat => true
  | _ => false
  end.

Definition toUpperChar (c : ascii) : ascii :=
  if isLower c then ascii_of_nat (nat_of_ascii c - 32) else c.

(** [s.toUpperCase()] on ASCII strings: the letters a to z are mapped.
    The runtime's mapping of characters beyond ASCII is outside the model. *)
Fixpoint toUpperCase (s : string) : string :=
  match s with
  | EmptyString => EmptyString
  | String c s' => String (toUpperChar c) (toUpperCase s')
  end.

(** [s.includes(c)] for a one-character needle. *)
Fixpoint includes (s : string) (c : ascii) : bool :=
  match s with
  | EmptyString => false
  | String d s' => Ascii.eqb d c || includes s' c
  end.

Fixpoint trimStart (s : string) : string :=
  match s with
  | EmptyString => EmptyString
  | String c s' => if isWhiteSpace c then trimStart s' else s
  end.

Fixpoint reverse (acc s : string) : string :=
  match s with
  | EmptyString => acc
  | String c s' => reverse (String c acc) s'
  end.

Definition trimEnd (s : string) : string :=
  reverse EmptyString (trimStart (reverse EmptyString s)).

(** [s.trim()] *)
Definition trim (s : string) : string := trimEnd (trimStart s).

(** [s.replace(/\s+/g, ' ')]: every maximal run of whitespace becomes one
    space.  [inRun] tells that the previous character belonged to a run
    already replaced. *)
Fixpoint replaceWhiteSpaceRuns (inRun : bool) (s : string) : string :=
  match s with
  | EmptyString => EmptyString
  | String c s' =>
      if isWhiteSpace c
      then if inRun then replaceWhiteSpaceRuns true s'
           else String " " (replaceWhiteSpaceRuns true s')
      else String c (replaceWhiteSpaceRuns false s')
  end.

(** [s.split(sep)] for a one-character separator; [word] is the piece being
    read.  The empty string splits into one empty piece. *)
Fixpoint splitFrom (sep : ascii) (word s : string) : list string :=
  match s with
  | EmptyString => [word]
  | String c s' =>
      if Ascii.eqb c sep then word :: splitFrom sep EmptyString s'
      else splitFrom sep (word ++ String c EmptyString) s'
  end.

Definition split (sep : ascii) (s : string) : list string :=
  splitFrom sep EmptyString s.

Definition digitValue (c : ascii) : Z := Z.of_nat (nat_of_ascii c - 48).

(** The longest prefix of decimal digits, read as a number; [acc] is
    [None] until a digit has been read. *)
Fixpoint digitsPrefix (acc : option Z) (s : string) : option Z :=
  match s with
  | EmptyString => acc
  | String c s' =>
      if isDigit c
      then digitsPrefix
             (Some (10 * match acc with Some n => n | None => 0 end + digitValue c)) s'
      else acc
  end.

(** [parseInt(s, 10)]: leading whitespace is skipped, one sign is read,
    then the longest prefix of digits; [None] is [NaN]. *)
Definition parseInt (s : string) : option Z :=
  match trimStart s with
  | String "-" s' => option_map Z.opp (digitsPrefix None s')
  | String "+" s' => digitsPrefix None s'
  | s' => digitsPrefix None s'
  end.

(** Truthiness of a value that is [null] or a string. *)
Definition truthy (v : option string) : bool :=
  match v with
  | Some s => negb (String.eqb s EmptyString)
  | None => false
  end.

(** Strict equality [===] of two values that are [null] or a string. *)
Definition strictEq (a b : option string) : bool :=
  match a, b with
  | Some x, Some y => String.eqb x y
  | None, None => true
  | _, _ => false
  end.

(** [String(n)] for an integer. *)
Fixpoint digitsOfPos (fuel : nat) (n : Z) (acc : string) : string :=
  match fuel with
  | O => acc
  | S fuel' =>
      let acc' := String (ascii_of_nat (48 + Z.to_nat (n mod 10))) acc in
      if n / 10 =? 0 then acc' else digitsOfPos fuel' (n / 10) acc'
  end.

Definition numberToString (n : Z) : string :=
  if n <? 0 then String "-" (digitsOfPos (S (Z.to_nat (Z.log2 (- n)))) (- n) EmptyString)
  else digitsOfPos (S (Z.to_nat (Z.log2 n))) n EmptyString.

(** The double nearest to an integer, ties to the even significand: the
    value an arithmetic operation on doubles returns when its exact result
    is that integer.  Every integer up to 2^53 in magnitude is a double; a
    larger one keeps 53 significant bits.  (The overflow to [Infinity] at
    2^1024 is outside the model.) *)
Definition roundDouble (z : Z) : Z :=
  let a := Z.abs z in
  if a <=? 2 ^ 53 then z
  else
    let e := Z.log2 a - 52 in
    let q := a / 2 ^ e in
    let r := a mod 2 ^ e in
    let half := 2 ^ (e - 1) in
    let q' :=
      if r <? half then q
      else if half <? r then q + 1
      else if Z.even q then q else q + 1 in
    Z.sgn z * (q' * 2 ^ e).

(** [a + b] and [a - b] on numbers that hold integers. *)
Definition add (a b : Z) : Z := roundDouble (a + b).

Definition sub (a b : Z) : Z := roundDouble (a - b).

End JS.

(** ** Message catalogue (messages/payment.js) *)

Module PaymentMessages.
Definition INVALID_AMOUNT := "Amount must be a positive integer".
Definition CURRENCY_MISMATCH := "Account currency mismatch".
Definition UNSUPPORTED_CURRENCY :=
  "Unsupported currency. Only NGN, USD, GBP, and GHS are supported".
Definition INSUFFICIENT_FUNDS := "Insufficient funds in debit account".
Definition SAME_ACCOUNT_ERROR := "Debit and credit accounts cannot be the same".
Definition ACCOUNT_NOT_FOUND := "Account not found".
Definition INVALID_ACCOUNT_ID := "Invalid account ID format".
Definition INVALID_DATE_FORMAT := "Invalid date format. Must be YYYY-MM-DD".
Definition MISSING_KEYWORD := "Missing required keyword".
Definition INVALID_KEYWORD_ORDER := "Invalid keyword order".
Definition MALFORMED_INSTRUCTION := "Malformed instruction: unable to parse keywords".
Definition TRANSACTION_SUCCESSFUL := "Transaction executed successfully".
Definition TRANSACTION_PENDING := "Transaction scheduled for future execution".
End PaymentMessages.

(** ** Constants of the service *)

Definition SUPPORTED_CURRENCIES : list string := ["NGN"; "USD"; "GBP"; "GHS"].

Module STATUS_CODES.
Definition SUCCESSFUL := "AP00".
Definition PENDING := "AP02".
Definition MALFORMED := "SY03".
Definition MISSING_KEYWORD := "SY01".
Definition INVALID_ORDER := "SY02".
Definition INVALID_AMOUNT := "AM01".
Definition INVALID_ACCOUNT_ID := "AC04".
Definition INVALID_DATE := "DT01".
Definition ACCOUNT_NOT_FOUND := "AC03".
Definition UNSUPPORTED_CURRENCY := "CU02".
Definition CURRENCY_MISMATCH := "CU01".
Definition SAME_ACCOUNT := "AC02".
Definition INSUFFICIENT_FUNDS := "AC01".
End STATUS_CODES.

Module States.
Inductive t : Set :=
  | START | TYPE | AMOUNT | CURRENCY | FIRST_KEYWORD | FIRST_ACCOUNT_KEYWORD
  | FIRST_ACCOUNT | FOR | SECOND_TYPE | SECOND_KEYWORD | SECOND_ACCOUNT_KEYWORD
  | SECOND_ACCOUNT | ON | DATE | COMPLETE.

Definition eqb (a b : t) : bool :=
  match a, b with
  | START, START | TYPE, TYPE | AMOUNT, AMOUNT | CURRENCY, CURRENCY
  | FIRST_KEYWORD, FIRST_KEYWORD | FIRST_ACCOUNT_KEYWORD, FIRST_ACCOUNT_KEYWORD
  | FIRST_ACCOUNT, FIRST_ACCOUNT | FOR, FOR | SECOND_TYPE, SECOND_TYPE
  | SECOND_KEYWORD, SECOND_KEYWORD
  | SECOND_ACCOUNT_KEYWORD, SECOND_ACCOUNT_KEYWORD
  | SECOND_ACCOUNT, SECOND_ACCOUNT | ON, ON | DATE, DATE | COMPLETE, COMPLETE => true
  | _, _ => false
  end.
End States.

(** ** Tokenizer and lexical validators *)

(** [tokenize]: trim, collapse whitespace runs, split on the space, drop
    empty words. *)
Definition tokenize (instruction : string) : list string :=
  let normalized := JS.replaceWhiteSpaceRuns false (JS.trim instruction) in
  filter (fun word => (0 <? String.length word)%nat) (JS.split " " normalized).

(** [isValidAccountId]: the loop over the characters returns [false] at the
    first one that is no letter, digit, hyphen, period or at sign. *)
Fixpoint isValidAccountId (id : string) : bool :=
  match id with
  | EmptyString => true
  | String char id' =>
      let isLetter := JS.isLower char || JS.isUpper char in
      let isNumber := JS.isDigit char in
      let isSpecial := Ascii.eqb char "-" || Ascii.eqb char "." || Ascii.eqb char "@" in
      if negb isLetter && negb isNumber && negb isSpecial then false
      else isValidAccountId id'
  end.

Fixpoint allDigits (digits : string) : bool :=
  match digits with
  | EmptyString => true
  | String c digits' => if negb (JS.isDigit c) then false else allDigits digits'
  end.

Definition charAtIs (s : string) (i : nat) (c : ascii) : bool :=
  match String.get i s with
  | Some d => Ascii.eqb d c
  | None => false
  end.

(** [isValidDateFormat]: YYYY-MM-DD with month in 1..12 and day in 1..31. *)
Definition isValidDateFormat (date : string) : bool :=
  if negb (String.length date =? 10)%nat then false
  else if negb (charAtIs date 4 "-") || negb (charAtIs date 7 "-") then false
  else
    let year := substring 0 4 date in
    let month := substring 5 2 date in
    let day := substring 8 2 date in
    let digits := year ++ month ++ day in
    if negb (allDigits digits) then false
    else
      match JS.parseInt month, JS.parseInt day with
      | Some monthNum, Some dayNum =>
          (1 <=? monthNum) && (monthNum <=? 12) && (1 <=? dayNum) && (dayNum <=? 31)
      | _, _ => false
      end.


(** ** The runtime's calendar, as far as [isFutureDate] uses it *)

Module JSDate.

(** The UTC calendar fields of a date: [getUTCFullYear], [getUTCMonth]
    (0 for January to 11 for December) and [getUTCDate]. *)
Record UTCFields : Set := mkUTCFields { fullYear : Z; month : Z; date : Z }.

Definition DayFromYear (y : Z) : Z :=
  365 * (y - 1970) + (y - 1969) / 4 - (y - 1901) / 100 + (y - 1601) / 400.

Definition InLeapYear (y : Z) : bool :=
  ((y mod 4 =? 0) && negb (y mod 100 =? 0)) || (y mod 400 =? 0).

Definition DaysInMonth (y m : Z) : Z :=
  match m with
  | 1 => if InLeapYear y then 29 else 28
  | 3 | 5 | 8 | 10 => 30
  | _ => 31
  end.

(** Days of the year [y] before the first day of month [m] (0 to 11). *)
Definition DaysBeforeMonth (y m : Z) : Z :=
  let leap := if InLeapYear y then 1 else 0 in
  match m with
  | 0 => 0 | 1 => 31 | 2 => 59 + leap | 3 => 90 + leap | 4 => 120 + leap
  | 5 => 151 + leap | 6 => 181 + leap | 7 => 212 + leap | 8 => 243 + leap
  | 9 => 273 + leap | 10 => 304 + leap | _ => 334 + leap
  end.

(** [MakeDay(year, month, date)]: the day number, linear in [date], so a
    day past the end of the month counts into the next one. *)
Definition MakeDay (year month date : Z) : Z :=
  let ym := year + month / 12 in
  let mn := month mod 12 in
  DayFromYear ym + DaysBeforeMonth ym mn + date - 1.

(** The UTC fields of [new Date(dateStr + "T00:00:00Z")] for a [dateStr]
    of the form YYYY-MM-DD with month in 1..12 and day in 1..31, the only
    strings the service passes.  The runtime (V8) accepts every such
    string and carries a day past the end of its month into the next
    month (2024-02-31 is 2 March 2024); such a day never leaves the year,
    December having 31 days.  Any other string is taken as an invalid
    date, [None]. *)
Definition parseUTC (dateStr : string) : option UTCFields :=
  if isValidDateFormat dateStr then
    match JS.parseInt (substring 0 4 dateStr),
          JS.parseInt (substring 5 2 dateStr),
          JS.parseInt (substring 8 2 dateStr) with
    | Some y, Some m, Some d =>
        let m0 := m - 1 in
        if d <=? DaysInMonth y m0 then Some (mkUTCFields y m0 d)
        else Some (mkUTCFields y (m0 + 1) (d - DaysInMonth y m0))
    | _, _, _ => None
    end
  else None.

(** The day number of [new Date(year, month, date)]: the constructor maps
    a year from 0 to 99 to 1900 + year.  The date is local midnight of
    that day; two such dates are ordered as their day numbers are. *)
Definition localDay (f : UTCFields) : Z :=
  let yr := if (0 <=? fullYear f) && (fullYear f <=? 99)
            then 1900 + fullYear f else fullYear f in
  MakeDay yr (month f) (date f).

End JSDate.

(** [isFutureDate]: [now] holds the UTC fields of [new Date()].  Both
    dates are rebuilt from their UTC fields and compared. *)
Definition isFutureDate (now : JSDate.UTCFields) (dateStr : string) : bool :=
  match JSDate.parseUTC dateStr with
  | Some inputDate =>
      let nowDate := JSDate.localDay now in
      let compareDate := JSDate.localDay inputDate in
      nowDate <? compareDate
  | None => false
  end.

(** ** Data model *)

Record Account : Set := mkAccount {
  id : string;
  balance : Z;
  currency : string
}.

Record Violation : Set := mkViolation {
  code : string;
  message : string
}.

(** The object [result] of the state machine; its field [errors] holds the
    syntax violations. *)
Record ParseResult : Set := mkParseResult {
  type : option string;
  amount : option Z;
  parsedCurrency : option string;
  debitAccount : option string;
  creditAccount : option string;
  executeBy : option string;
  errors : list Violation
}.

Definition setType (r : ParseResult) (v : option string) : ParseResult :=
  mkParseResult v (amount r) (parsedCurrency r) (debitAccount r) (creditAccount r)
    (executeBy r) (errors r).
Definition setAmount (r : ParseResult) (v : option Z) : ParseResult :=
  mkParseResult (type r) v (parsedCurrency r) (debitAccount r) (creditAccount r)
    (executeBy r) (errors r).
Definition setCurrency (r : ParseResult) (v : option string) : ParseResult :=
  mkParseResult (type r) (amount r) v (debitAccount r) (creditAccount r)
    (executeBy r) (errors r).
Definition setDebitAccount (r : ParseResult) (v : option string) : ParseResult :=
  mkParseResult (type r) (amount r) (parsedCurrency r) v (creditAccount r)
    (executeBy r) (errors r).
Definition setCreditAccount (r : ParseResult) (v : option string) : ParseResult :=
  mkParseResult (type r) (amount r) (parsedCurrency r) (debitAccount r) v
    (executeBy r) (errors r).
Definition setExecuteBy (r : ParseResult) (v : option string) : ParseResult :=
  mkParseResult (type r) (amount r) (parsedCurrency r) (debitAccount r)
    (creditAccount r) v (errors r).
(** [result.errors.push(v)] *)
Definition pushError (r : ParseResult) (v : Violation) : ParseResult :=
  mkParseResult (type r) (amount r) (parsedCurrency r) (debitAccount r)
    (creditAccount r) (executeBy r) (errors r ++ [v]).

Module Violations.
Definition MALFORMED :=
  mkViolation STATUS_CODES.MALFORMED PaymentMessages.MALFORMED_INSTRUCTION.
Definition MISSING_KEYWORD :=
  mkViolation STATUS_CODES.MISSING_KEYWORD PaymentMessages.MISSING_KEYWORD.
Definition INVALID_ORDER :=
  mkViolation STATUS_CODES.INVALID_ORDER PaymentMessages.INVALID_KEYWORD_ORDER.
Definition INVALID_AMOUNT :=
  mkViolation STATUS_CODES.INVALID_AMOUNT PaymentMessages.INVALID_AMOUNT.
Definition INVALID_DATE :=
  mkViolation STATUS_CODES.INVALID_DATE PaymentMessages.INVALID_DATE_FORMAT.
Definition SAME_ACCOUNT :=
  mkViolation STATUS_CODES.SAME_ACCOUNT PaymentMessages.SAME_ACCOUNT_ERROR.
Definition UNSUPPORTED_CURRENCY :=
  mkViolation STATUS_CODES.UNSUPPORTED_CURRENCY PaymentMessages.UNSUPPORTED_CURRENCY.
Definition CURRENCY_MISMATCH :=
  mkViolation STATUS_CODES.CURRENCY_MISMATCH PaymentMessages.CURRENCY_MISMATCH.
Definition INVALID_ACCOUNT_ID (accountId : string) :=
  mkViolation STATUS_CODES.INVALID_ACCOUNT_ID
    (PaymentMessages.INVALID_ACCOUNT_ID ++ ": " ++ accountId).
Definition ACCOUNT_NOT_FOUND (accountId : string) :=
  mkViolation STATUS_CODES.ACCOUNT_NOT_FOUND
    (PaymentMessages.ACCOUNT_NOT_FOUND ++ ": " ++ accountId).
Definition CURRENCY_MISMATCH_INSTRUCTION (instructionCurrency accountCurrency : string) :=
  mkViolation STATUS_CODES.CURRENCY_MISMATCH
    ("Currency mismatch: instruction says " ++ instructionCurrency
       ++ " but account has " ++ JS.toUpperCase accountCurrency).
Definition INSUFFICIENT_FUNDS (debit : Account) (needed : Z) :=
  mkViolation STATUS_CODES.INSUFFICIENT_FUNDS
    (PaymentMessages.INSUFFICIENT_FUNDS ++ ": has " ++ JS.numberToString (balance debit)
       ++ " " ++ currency debit ++ ", needs " ++ JS.numberToString needed).
End Violations.

(** ** Grammar state machine *)

(** What one turn of the [while] loop does: it either reaches the
    [index++] at its end with a new state and result, or returns the
    result from inside the [switch]. *)
Inductive Turn : Set :=
  | Next (state : States.t) (result : ParseResult)
  | Return (result : ParseResult).

(** The body of the loop: the [switch] on the state for one token. *)
Definition step (state : States.t) (result : ParseResult) (token : string) : Turn :=
  let tokenUpper := JS.toUpperCase token in
  match state with
  | States.START =>
      if String.eqb tokenUpper "DEBIT" || String.eqb tokenUpper "CREDIT"
      then Next States.TYPE (setType result (Some tokenUpper))
      else Return (pushError result Violations.MISSING_KEYWORD)
  | States.TYPE =>
      let amount := JS.parseInt token in
      if JS.includes token "."
      then Next States.AMOUNT (pushError result Violations.INVALID_AMOUNT)
      else
        match amount with
        | None => Next States.AMOUNT (pushError result Violations.INVALID_AMOUNT)
        | Some n =>
            if n <=? 0
            then Next States.AMOUNT (pushError result Violations.INVALID_AMOUNT)
            else Next States.AMOUNT (setAmount result (Some n))
        end
  | States.AMOUNT =>
      Next States.CURRENCY (setCurrency result (Some tokenUpper))
  | States.CURRENCY =>
      let expectedFirst :=
        if JS.strictEq (type result) (Some "DEBIT") then "FROM" else "TO" in
      if String.eqb tokenUpper expectedFirst
      then Next States.FIRST_KEYWORD result
      else Return (pushError result Violations.INVALID_ORDER)
  | States.FIRST_KEYWORD =>
      if String.eqb tokenUpper "ACCOUNT"
      then Next States.FIRST_ACCOUNT_KEYWORD result
      else Return (pushError result Violations.MISSING_KEYWORD)
  | States.FIRST_ACCOUNT_KEYWORD =>
      if JS.strictEq (type result) (Some "DEBIT")
      then Next States.FIRST_ACCOUNT (setDebitAccount result (Some token))
      else Next States.FIRST_ACCOUNT (setCreditAccount result (Some token))
  | States.FIRST_ACCOUNT =>
      if String.eqb tokenUpper "FOR"
      then Next States.FOR result
      else Return (pushError result Violations.MISSING_KEYWORD)
  | States.FOR =>
      let expectedSecondType :=
        if JS.strictEq (type result) (Some "DEBIT") then "CREDIT" else "DEBIT" in
      if String.eqb tokenUpper expectedSecondType
      then Next States.SECOND_TYPE result
      else Return (pushError result Violations.INVALID_ORDER)
  | States.SECOND_TYPE =>
      let expectedSecond :=
        if JS.strictEq (type result) (Some "DEBIT") then "TO" else "FROM" in
      if String.eqb tokenUpper expectedSecond
      then Next States.SECOND_KEYWORD result
      else Return (pushError result Violations.INVALID_ORDER)
  | States.SECOND_KEYWORD =>
      if String.eqb tokenUpper "ACCOUNT"
      then Next States.SECOND_ACCOUNT_KEYWORD result
      else Return (pushError result Violations.MISSING_KEYWORD)
  | States.SECOND_ACCOUNT_KEYWORD =>
      if JS.strictEq (type result) (Some "DEBIT")
      then Next States.SECOND_ACCOUNT (setCreditAccount result (Some token))
      else Next States.SECOND_ACCOUNT (setDebitAccount result (Some token))
  | States.SECOND_ACCOUNT =>
      if String.eqb tokenUpper "ON"
      then Next States.ON result
      else Return (pushError result Violations.MALFORMED)
  | States.ON =>
      if isValidDateFormat token
      then Next States.DATE (setExecuteBy result (Some token))
      else Next States.DATE (pushError result Violations.INVALID_DATE)
  | States.DATE =>
      Return (pushError result Violations.MALFORMED)
  | States.COMPLETE =>
      Return (pushError result Violations.MALFORMED)
  end.

(** How the [while] loop ends: its condition fails in some state (the
    tokens are used up, or the state is COMPLETE), or its body returned. *)
Inductive LoopEnd : Set :=
  | Fallthrough (state : States.t) (result : ParseResult)
  | Returned (result : ParseResult).

(** The [while] loop, from the token at [index] on. *)
Fixpoint whileLoop (state : States.t) (result : ParseResult) (tokens : list string)
  : LoopEnd :=
  match tokens with
  | [] => Fallthrough state result
  | token :: rest =>
      if States.eqb state States.COMPLETE then Fallthrough state result
      else
        match step state result token with
        | Next state' result' => whileLoop state' result' rest
        | Return result' => Returned result'
        end
  end.

(** The code after the loop: SECOND_ACCOUNT and DATE complete the parse;
    any other state adds MALFORMED when no error was pushed before. *)
Definition afterLoop (state : States.t) (result : ParseResult) : ParseResult :=
  let state :=
    if States.eqb state States.SECOND_ACCOUNT || States.eqb state States.DATE
    then States.COMPLETE else state in
  if negb (States.eqb state States.COMPLETE)
  then
    if (List.length (errors result) =? 0)%nat
    then pushError result Violations.MALFORMED
    else result
  else result.

Definition initialResult : ParseResult :=
  mkParseResult None None None None None None [].

Definition parseWithStateMachine (tokens : list string) : ParseResult :=
  match whileLoop States.START initialResult tokens with
  | Fallthrough state result => afterLoop state result
  | Returned result => result
  end.

(** ** Business rule validator *)

(** The object returned by [validateBusinessRules]; the account fields
    hold the result of [accounts.find], [None] for [undefined]. *)
Record Validation : Set := mkValidation {
  validationErrors : list Violation;
  validationDebitAccount : option Account;
  validationCreditAccount : option Account
}.

(** [if (cond) errors.push(v)] *)
Definition pushWhen (cond : bool) (v : Violation) (errs : list Violation)
  : list Violation :=
  if cond then errs ++ [v] else errs.

(** [accounts.find((a) => a.id === accountId)] *)
Definition findAccount (accounts : list Account) (accountId : option string)
  : option Account :=
  find (fun a => JS.strictEq (Some (id a)) accountId) accounts.

Definition orEmpty (v : option string) : string :=
  match v with Some s => s | None => EmptyString end.

Definition isSome {A : Type} (v : option A) : bool :=
  match v with Some _ => true | None => false end.

(** Truthiness of a value that is [null] or a number. *)
Definition truthyNumber (v : option Z) : bool :=
  match v with Some n => negb (n =? 0) | None => false end.

(** A value that is [null] or a number, as an operand of arithmetic and
    comparison: [null] converts to 0. *)
Definition toNumber (v : option Z) : Z :=
  match v with Some n => n | None => 0 end.

Definition validateBusinessRules (parsed : ParseResult) (accounts : list Account)
  : Validation :=
  let errs := errors parsed in
  let errs :=
    pushWhen (JS.truthy (debitAccount parsed)
              && negb (isValidAccountId (orEmpty (debitAccount parsed))))
      (Violations.INVALID_ACCOUNT_ID (orEmpty (debitAccount parsed))) errs in
  let errs :=
    pushWhen (JS.truthy (creditAccount parsed)
              && negb (isValidAccountId (orEmpty (creditAccount parsed))))
      (Violations.INVALID_ACCOUNT_ID (orEmpty (creditAccount parsed))) errs in
  let errs :=
    pushWhen (JS.strictEq (debitAccount parsed) (creditAccount parsed))
      Violations.SAME_ACCOUNT errs in
  let errs :=
    pushWhen (JS.truthy (parsedCurrency parsed)
              && negb (existsb (String.eqb (orEmpty (parsedCurrency parsed)))
                         SUPPORTED_CURRENCIES))
      Violations.UNSUPPORTED_CURRENCY errs in
  let debit := findAccount accounts (debitAccount parsed) in
  let credit := findAccount accounts (creditAccount parsed) in
  let errs :=
    pushWhen (JS.truthy (debitAccount parsed) && negb (isSome debit))
      (Violations.ACCOUNT_NOT_FOUND (orEmpty (debitAccount parsed))) errs in
  let errs :=
    pushWhen (JS.truthy (creditAccount parsed) && negb (isSome credit))
      (Violations.ACCOUNT_NOT_FOUND (orEmpty (creditAccount parsed))) errs in
  let errs :=
    match debit, credit with
    | Some d, Some c =>
        let errs :=
          pushWhen (negb (String.eqb (currency d) (currency c)))
            Violations.CURRENCY_MISMATCH errs in
        let errs :=
          pushWhen (JS.truthy (parsedCurrency parsed)
                    && negb (String.eqb (JS.toUpperCase (currency d))
                               (orEmpty (parsedCurrency parsed))))
            (Violations.CURRENCY_MISMATCH_INSTRUCTION
               (orEmpty (parsedCurrency parsed)) (currency d)) errs in
        pushWhen (truthyNumber (amount parsed) && (balance d <? toNumber (amount parsed)))
          (Violations.INSUFFICIENT_FUNDS d (toNumber (amount parsed))) errs
    | _, _ => errs
    end in
  mkValidation errs debit credit.

(** ** Error prioritizer *)

(** The table [priority] of [selectPrimaryError]; [None] for a code that
    is no key of it. *)
Definition priority (errorCode : string) : option Z :=
  if String.eqb errorCode "SY03" then Some 1
  else if String.eqb errorCode "SY01" then Some 2
  else if String.eqb errorCode "SY02" then Some 3
  else if String.eqb errorCode "AM01" then Some 4
  else if String.eqb errorCode "AC04" then Some 5
  else if String.eqb errorCode "DT01" then Some 6
  else if String.eqb errorCode "AC03" then Some 7
  else if String.eqb errorCode "CU02" then Some 8
  else if String.eqb errorCode "CU01" then Some 9
  else if String.eqb errorCode "AC02" then Some 10
  else if String.eqb errorCode "AC01" then Some 11
  else None.

(** [priority[error.code] || 999] *)
Definition rank (error : Violation) : Z :=
  match priority (code error) with
  | Some p => p
  | None => 999
  end.

(** One call of the [forEach] callback on the pair of [primaryError] and
    [lowestPriority]. *)
Definition keepLower (acc : option Violation * Z) (error : Violation)
  : option Violation * Z :=
  let p := rank error in
  if p <? snd acc then (Some error, p) else acc.

Definition selectPrimaryError (errs : list Violation) : option Violation :=
  fst (fold_left keepLower errs (None, 999)).

(** ** Orchestrator *)

Module View.
Record t : Set := mk {
  id : string;
  balance : Z;
  balance_before : Z;
  currency : string
}.
End View.

Module Response.
Record t : Set := mk {
  type : option string;
  amount : option Z;
  currency : option string;
  debit_account : option string;
  credit_account : option string;
  execute_by : option string;
  status : string;
  status_reason : string;
  status_code : string;
  accounts : list View.t
}.
End Response.

(** The response of the unparseable branch; the exception handler builds
    the same one from the MALFORMED message and code. *)
Definition nullResponse (reason statusCode : string) : Response.t :=
  Response.mk None None None None None None "failed" reason statusCode [].

(** The view pushed for an account of a failed instruction. *)
Definition unchangedView (account : Account) : View.t :=
  View.mk (id account) (balance account) (balance account)
    (JS.toUpperCase (currency account)).

(** The [forEach] of the parseable-but-invalid branch. *)
Fixpoint involvedAccounts (parsed : ParseResult) (accounts : list Account)
  : list View.t :=
  match accounts with
  | [] => []
  | account :: rest =>
      if JS.strictEq (Some (id account)) (debitAccount parsed)
         || JS.strictEq (Some (id account)) (creditAccount parsed)
      then unchangedView account :: involvedAccounts parsed rest
      else involvedAccounts parsed rest
  end.

Definition debitView (isPending : bool) (parsed : ParseResult) (account : Account)
  : View.t :=
  View.mk (id account)
    (if isPending then balance account
     else JS.sub (balance account) (toNumber (amount parsed)))
    (balance account) (JS.toUpperCase (currency account)).

Definition creditView (isPending : bool) (parsed : ParseResult) (account : Account)
  : View.t :=
  View.mk (id account)
    (if isPending then balance account
     else JS.add (balance account) (toNumber (amount parsed)))
    (balance account) (JS.toUpperCase (currency account)).

(** The [forEach] of the success branch.  Reading [.id] of an account that
    [find] did not return throws: the result is then [None]. *)
Fixpoint processedAccounts (isPending : bool) (parsed : ParseResult)
    (validation : Validation) (accounts : list Account) : option (list View.t) :=
  match accounts with
  | [] => Some []
  | account :: rest =>
      match validationDebitAccount validation with
      | None => None
      | Some debit =>
          if String.eqb (id account) (id debit)
          then option_map (cons (debitView isPending parsed account))
                 (processedAccounts isPending parsed validation rest)
          else
            match validationCreditAccount validation with
            | None => None
            | Some credit =>
                if String.eqb (id account) (id credit)
                then option_map (cons (creditView isPending parsed account))
                       (processedAccounts isPending parsed validation rest)
                else processedAccounts isPending parsed validation rest
            end
      end
  end.

(** The body of the [try] block; [None] when it throws. *)
Definition tryBlock (now : JSDate.UTCFields) (accounts : list Account)
    (instruction : string) : option Response.t :=
  let tokens := tokenize instruction in
  let parsed := parseWithStateMachine tokens in
  let validation := validateBusinessRules parsed accounts in
  if (0 <? List.length (validationErrors validation))%nat
  then
    match selectPrimaryError (validationErrors validation) with
    | None => None
    | Some error =>
        if String.eqb (code error) STATUS_CODES.MALFORMED
           || String.eqb (code error) STATUS_CODES.MISSING_KEYWORD
           || String.eqb (code error) STATUS_CODES.INVALID_ORDER
        then Some (nullResponse (message error) (code error))
        else
          Some (Response.mk (type parsed) (amount parsed) (parsedCurrency parsed)
                  (debitAccount parsed) (creditAccount parsed) (executeBy parsed)
                  "failed" (message error) (code error)
                  (involvedAccounts parsed accounts))
    end
  else
    let isPending :=
      JS.truthy (executeBy parsed) && isFutureDate now (orEmpty (executeBy parsed)) in
    match processedAccounts isPending parsed validation accounts with
    | None => None
    | Some views =>
        Some (Response.mk (type parsed) (amount parsed) (parsedCurrency parsed)
                (debitAccount parsed) (creditAccount parsed) (executeBy parsed)
                (if isPending then "pending" else "successful")
                (if isPending then PaymentMessages.TRANSACTION_PENDING
                 else PaymentMessages.TRANSACTION_SUCCESSFUL)
                (if isPending then STATUS_CODES.PENDING else STATUS_CODES.SUCCESSFUL)
                views)
    end.

(** [parseInstruction], on data that passed the schema validation
    ([accounts] an array of records with the three fields, [instruction] a
    string).  The [catch] branch answers with the MALFORMED response. *)
Definition parseInstruction (now : JSDate.UTCFields) (accounts : list Account)
    (instruction : string) : Response.t :=
  match tryBlock now accounts instruction with
  | Some response => response
  | None =>
      nullResponse PaymentMessages.MALFORMED_INSTRUCTION STATUS_CODES.MALFORMED
  end.

(** ** Endpoint (endpoints/payment-instructions/process.js) *)

Module Endpoint.

(** The body of a request, each field present or not. *)
Record Body : Set := mkBody {
  accounts : option (list Account);
  instruction : option string
}.

(** What the handler returns. *)
Record Reply : Set := mkReply {
  status : Z;
  data : Response.t
}.

Section Handler.

(** [helpers.http_statuses], supplied by the server framework. *)
Variable HTTP_400_BAD_REQUEST : Z.
Variable HTTP_200_OK : Z.

(** [rc.body.accounts || []] *)
Definition payloadAccounts (body : Body) : list Account :=
  match accounts body with
  | Some l => l
  | None => []
  end.

(** [rc.body.instruction || ''] *)
Definition payloadInstruction (body : Body) : string :=
  if JS.truthy (instruction body) then orEmpty (instruction body) else EmptyString.

(** The handler: prepare the payload, call the service, map the status
    of the result to the HTTP status. *)
Definition handler (now : JSDate.UTCFields) (body : Body) : Reply :=
  let result :=
    parseInstruction now (payloadAccounts body) (payloadInstruction body) in
  let httpStatus :=
    if String.eqb (Response.status result) "failed"
    then HTTP_400_BAD_REQUEST else HTTP_200_OK in
  mkReply httpStatus result.

End Handler.

End Endpoint.

(** ** Vocabulary of the statements *)

(** The string is empty or holds whitespace only. *)
Fixpoint allWhiteSpace (s : string) : bool :=
  match s with
  | EmptyString => true
  | String c s' => JS.isWhiteSpace c && allWhiteSpace s'
  end.

(** A violation of the list carries the code. *)
Definition hasCode (errorCode : string) (errs : list Violation) : Prop :=
  exists v, In v errs /\ code v = errorCode.

(** The violations that [validateBusinessRules] pushes itself: its error
    list without the copy of the syntax errors it starts from. *)
Definition emitted (parsed : ParseResult) (accounts : list Account) : list Violation :=
  skipn (List.length (errors parsed))
    (validationErrors (validateBusinessRules parsed accounts)).

(** The account id is one of the two ids of the parse result. *)
Definition involved (parsed : ParseResult) (accountId : string) : bool :=
  JS.strictEq (Some accountId) (debitAccount parsed)
  || JS.strictEq (Some accountId) (creditAccount parsed).

(** The amount-slot tokens that the TYPE state rejects. *)
Definition rejectedAmount (token : string) : Prop :=
  JS.includes token "." = true
  \/ JS.parseInt token = None
  \/ exists n, JS.parseInt token = Some n /\ n <= 0.

(** Position of a state in the order of the grammar. *)
Definition stateIndex (s : States.t) : Z :=
  match s with
  | States.START => 0 | States.TYPE => 1 | States.AMOUNT => 2
  | States.CURRENCY => 3 | States.FIRST_KEYWORD => 4
  | States.FIRST_ACCOUNT_KEYWORD => 5 | States.FIRST_ACCOUNT => 6
  | States.FOR => 7 | States.SECOND_TYPE => 8 | States.SECOND_KEYWORD => 9
  | States.SECOND_ACCOUNT_KEYWORD => 10 | States.SECOND_ACCOUNT => 11
  | States.ON => 12 | States.DATE => 13 | States.COMPLETE => 14
  end.

(** The result carried by a turn of the loop, however it ends. *)
Definition turnResult (t : Turn) : ParseResult :=
  match t with
  | Next _ result => result
  | Return result => result
  end.

(** What holds of the result when the loop is about to read a token in
    a given state: from AMOUNT on, the amount is a positive number or
    INVALID_AMOUNT was pushed; from FIRST_ACCOUNT on, the account named by
    the instruction type is set; from SECOND_ACCOUNT on, both are. *)
Definition amountInv (s : States.t) (r : ParseResult) : Prop :=
  (stateIndex s <= 1 -> amount r = None)
  /\ (2 <= stateIndex s ->
      match amount r with
      | Some n => 0 < n
      | None => In Violations.INVALID_AMOUNT (errors r)
      end).

Definition accountsInv (s : States.t) (r : ParseResult) : Prop :=
  (6 <= stateIndex s <= 10 ->
   if JS.strictEq (type r) (Some "DEBIT")
   then JS.truthy (debitAccount r) = true
   else JS.truthy (creditAccount r) = true)
  /\ (11 <= stateIndex s ->
      JS.truthy (debitAccount r) = true /\ JS.truthy (creditAccount r) = true).

(** The syntax errors that can be present while the loop still runs
    before the DATE state: none, or the one INVALID_AMOUNT of the TYPE
    state; and the state is never COMPLETE. *)
Definition errorsInv (s : States.t) (r : ParseResult) : Prop :=
  stateIndex s <= 13
  /\ (stateIndex s <= 1 -> errors r = [])
  /\ (stateIndex s <= 12 ->
      errors r = [] \/ errors r = [Violations.INVALID_AMOUNT]).

(** The views that the success branch pushes once both accounts were
    found: the same [forEach], with the two records at hand. *)
Fixpoint settledViews (isPending : bool) (parsed : ParseResult)
    (debit credit : Account) (accounts : list Account) : list View.t :=
  match accounts with
  | [] => []
  | account :: rest =>
      if String.eqb (id account) (id debit)
      then debitView isPending parsed account
             :: settledViews isPending parsed debit credit rest
      else if String.eqb (id account) (id credit)
      then creditView isPending parsed account
             :: settledViews isPending parsed debit credit rest
      else settledViews isPending parsed debit credit rest
  end.

(** The value of [isPending] in the success branch. *)
Definition pendingFlag (now : JSDate.UTCFields) (parsed : ParseResult) : bool :=
  JS.truthy (executeBy parsed) && isFutureDate now (orEmpty (executeBy parsed)).

(** The code of the violation is a key of the priority table. *)
Definition mapped (v : Violation) : Prop := priority (code v) <> None.

(** The three codes of an unparseable instruction. *)
Definition unparseable (errorCode : string) : Prop :=
  errorCode = STATUS_CODES.MALFORMED
  \/ errorCode = STATUS_CODES.MISSING_KEYWORD
  \/ errorCode = STATUS_CODES.INVALID_ORDER.

(** A view stands for an input account: same id, the input balance as
    [balance_before], the currency in upper case. *)
Definition viewOf (v : View.t) (a : Account) : Prop :=
  View.id v = id a
  /\ View.balance_before v = balance a
  /\ View.currency v = JS.toUpperCase (currency a).

(** A value that is [null] or a string, as a list of at most one string. *)
Definition optionList (v : option string) : list string :=
  match v with Some s => [s] | None => [] end.

(** [if (cond) errors.push(v)], as the list of what is pushed. *)
Definition pushed (cond : bool) (v : Violation) : list Violation :=
  if cond then [v] else [].

(** A calendar date: month index 0 to 11, day within the month. *)
Definition validDate (f : JSDate.UTCFields) : Prop :=
  0 <= JSDate.month f <= 11
  /\ 1 <= JSDate.date f <= JSDate.DaysInMonth (JSDate.fullYear f) (JSDate.month f).

(** The first date is an earlier day of the calendar than the second. *)
Definition calendarBefore (f g : JSDate.UTCFields) : Prop :=
  JSDate.fullYear f < JSDate.fullYear g
  \/ (JSDate.fullYear f = JSDate.fullYear g
      /\ (JSDate.month f < JSDate.month g
          \/ (JSDate.month f = JSDate.month g /\ JSDate.date f < JSDate.date g))).

(** Day of the year, from 1, of a date. *)
Definition dayOfYear (f : JSDate.UTCFields) : Z :=
  JSDate.DaysBeforeMonth (JSDate.fullYear f) (JSDate.month f) + JSDate.date f.

Definition leapDay (y : Z) : Z := if JSDate.InLeapYear y then 1 else 0.

(** *** Words of a string *)

(** The words of a string as a reader takes them: the maximal runs of
    characters other than whitespace, in order.  [word] is the run being
    read. *)
Fixpoint wordsFrom (word s : string) : list string :=
  match s with
  | EmptyString => if (0 <? String.length word)%nat then [word] else []
  | String c s' =>
      if JS.isWhiteSpace c
      then if (0 <? String.length word)%nat
           then word :: wordsFrom EmptyString s'
           else wordsFrom EmptyString s'
      else wordsFrom (word ++ String c EmptyString) s'
  end.

Definition wordsOf (s : string) : list string := wordsFrom EmptyString s.

(** Some character of the string is whitespace. *)
Fixpoint hasWhiteSpace (s : string) : bool :=
  match s with
  | EmptyString => false
  | String c s' => JS.isWhiteSpace c || hasWhiteSpace s'
  end.

(** The words joined by single spaces. *)
Fixpoint unwords (words : list string) : string :=
  match words with
  | [] => EmptyString
  | [w] => w
  | w :: rest => w ++ String " " (unwords rest)
  end.

(** *** Sentences of the grammar *)

(** The code after the loop, or the result returned from inside it. *)
Definition finishLoop (e : LoopEnd) : ParseResult :=
  match e with
  | Fallthrough state result => afterLoop state result
  | Returned result => result
  end.

(** What a sentence of the grammar says: its type (DEBIT or CREDIT), the
    amount, the currency in upper case, the account ids in the order they
    are written, and the date when there is one. *)
Record Sentence : Set := mkSentence {
  sentenceType : string;
  sentenceAmount : Z;
  sentenceCurrency : string;
  firstAccount : string;
  secondAccount : string;
  sentenceDate : option string
}.

(** The keywords that a sentence of a given type must use. *)
Definition firstKeyword (ty : string) : string :=
  if String.eqb ty "DEBIT" then "FROM" else "TO".
Definition secondType (ty : string) : string :=
  if String.eqb ty "DEBIT" then "CREDIT" else "DEBIT".
Definition secondKeyword (ty : string) : string :=
  if String.eqb ty "DEBIT" then "TO" else "FROM".

(** The tokens are a sentence of the grammar
    [DEBIT amount currency FROM ACCOUNT a FOR CREDIT TO ACCOUNT b [ON date]]
    or
    [CREDIT amount currency TO ACCOUNT a FOR DEBIT FROM ACCOUNT b [ON date]],
    keywords in any letter case. *)
Definition reads (tokens : list string) (st : Sentence) : Prop :=
  exists k amt cur f acct1 for_ k2 s acct2 tail,
    tokens = k :: amt :: cur :: f :: acct1 :: firstAccount st :: for_ :: k2 :: s
               :: acct2 :: secondAccount st :: tail
    /\ (sentenceType st = "DEBIT" \/ sentenceType st = "CREDIT")
    /\ JS.toUpperCase k = sentenceType st
    /\ JS.includes amt "." = false
    /\ JS.parseInt amt = Some (sentenceAmount st)
    /\ 0 < sentenceAmount st
    /\ JS.toUpperCase cur = sentenceCurrency st
    /\ JS.toUpperCase f = firstKeyword (sentenceType st)
    /\ JS.toUpperCase acct1 = "ACCOUNT"
    /\ JS.toUpperCase for_ = "FOR"
    /\ JS.toUpperCase k2 = secondType (sentenceType st)
    /\ JS.toUpperCase s = secondKeyword (sentenceType st)
    /\ JS.toUpperCase acct2 = "ACCOUNT"
    /\ ((tail = [] /\ sentenceDate st = None)
        \/ exists on d,
             tail = [on; d] /\ JS.toUpperCase on = "ON"
             /\ isValidDateFormat d = true /\ sentenceDate st = Some d).

(** The parse result that a sentence stands for: the account after FROM
    is the debit account, the one after TO the credit account. *)
Definition parsedSentence (st : Sentence) : ParseResult :=
  mkParseResult (Some (sentenceType st)) (Some (sentenceAmount st))
    (Some (sentenceCurrency st))
    (Some (if String.eqb (sentenceType st) "DEBIT"
           then firstAccount st else secondAccount st))
    (Some (if String.eqb (sentenceType st) "DEBIT"
           then secondAccount st else firstAccount st))
    (sentenceDate st) [].

(** *** Totals of a response *)

Definition totalBalance (views : list View.t) : Z :=
  fold_right (fun v total => View.balance v + total) 0 views.

Definition totalBefore (views : list View.t) : Z :=
  fold_right (fun v total => View.balance_before v + total) 0 views.

(** *** Written dates *)

(** The character of a decimal digit. *)
Definition digitChar (n : Z) : ascii := ascii_of_nat (48 + Z.to_nat n).

(** A number below 100 in two digits, a number below 10000 in four. *)
Definition twoDigits (n : Z) : string :=
  String (digitChar (n / 10)) (String (digitChar (n mod 10)) EmptyString).

Definition fourDigits (n : Z) : string :=
  String (digitChar (n / 1000))
    (String (digitChar (n / 100 mod 10)) (twoDigits (n mod 100))).

(** The date written YYYY-MM-DD. *)
Definition formatDate (y m d : Z) : string :=
  (fourDigits y ++ String "-" (twoDigits m ++ String "-" (twoDigits d)))%string.

(** *** Parses that differ in the amount *)

(** Two results hold the same type, currency, account ids and date: they
    differ at most in the amount and in the errors. *)
Definition sameReading (a b : ParseResult) : Prop :=
  type a = type b
  /\ parsedCurrency a = parsedCurrency b
  /\ debitAccount a = debitAccount b
  /\ creditAccount a = creditAccount b
  /\ executeBy a = executeBy b.

(** Two runs of the loop end alike: both fall through, in the same state,
    or both return; the two results hold the same reading; and their
    errors are [pre1] and [pre2] followed by the same violations. *)
Definition sameEnd (pre1 pre2 : list Violation) (e1 e2 : LoopEnd) : Prop :=
  match e1, e2 with
  | Fallthrough s1 a, Fallthrough s2 b =>
      s1 = s2 /\ sameReading a b
      /\ exists extra,
          errors a = (pre1 ++ extra)%list /\ errors b = (pre2 ++ extra)%list
  | Returned a, Returned b =>
      sameReading a b
      /\ exists extra,
          errors a = (pre1 ++ extra)%list /\ errors b = (pre2 ++ extra)%list
  | _, _ => False
  end.

(** The parse result of a sentence whose amount was rejected: the fields
    of the sentence but the amount, and INVALID_AMOUNT. *)
Definition rejectedSentence (st : Sentence) : ParseResult :=
  mkParseResult (Some (sentenceType st)) None (Some (sentenceCurrency st))
    (Some (if String.eqb (sentenceType st) "DEBIT"
           then firstAccount st else secondAccount st))
    (Some (if String.eqb (sentenceType st) "DEBIT"
           then secondAccount st else firstAccount st))
    (sentenceDate st) [Violations.INVALID_AMOUNT].

(** The violations that the state machine pushes. *)
Definition syntaxViolations : list Violation :=
  [Violations.MALFORMED; Violations.MISSING_KEYWORD; Violations.INVALID_ORDER;
   Violations.INVALID_AMOUNT; Violations.INVALID_DATE].

(** *** Exact arithmetic *)

(** The difference and the sum that the success branch computes for an
    account of this balance and a positive amount lie within 2^53 of
    zero: both are doubles, and neither is rounded. *)
Definition exactFor (n : Z) (a : Account) : Prop :=
  - 2 ^ 53 <= balance a - n /\ balance a + n <= 2 ^ 53.

(** *** Inputs of the examples *)

(** The date used in the examples: 3 November 2026 (month index 10). *)
Definition exampleNow : JSDate.UTCFields := JSDate.mkUTCFields 2026 10 3.

Definition accountsAB : list Account :=
  [mkAccount "a" 230 "USD"; mkAccount "b" 300 "USD"].

Definition accountsBAC : list Account :=
  [mkAccount "b" 300 "USD"; mkAccount "a" 230 "USD"; mkAccount "c" 100 "USD"].

Definition accountsPoor : list Account :=
  [mkAccount "a" 100 "USD"; mkAccount "b" 500 "USD"].

Definition accountsMixedCase : list Account :=
  [mkAccount "a" 100 "usd"; mkAccount "b" 50 "USD"].

Definition debit30 : string :=
  "DEBIT 30 USD FROM ACCOUNT a FOR CREDIT TO ACCOUNT b".

Definition debit30Later : string :=
  "DEBIT 30 USD FROM ACCOUNT a FOR CREDIT TO ACCOUNT b ON 2026-12-31".

Definition debit30Today : string :=
  "DEBIT 30 USD FROM ACCOUNT a FOR CREDIT TO ACCOUNT b ON 2026-11-03".

Definition debit500 : string :=
  "DEBIT 500 USD FROM ACCOUNT a FOR CREDIT TO ACCOUNT b".

Definition debitNegative : string :=
  "DEBIT -100 USD FROM ACCOUNT a FOR CREDIT TO ACCOUNT b".

Definition debitDecimal : string :=
  "DEBIT 100.50 USD FROM ACCOUNT a FOR CREDIT TO ACCOUNT b".

Definition debitWord : string :=
  "DEBIT lots USD FROM ACCOUNT a FOR CREDIT TO ACCOUNT b".

Definition debitToMissing : string :=
  "DEBIT 100 USD FROM ACCOUNT a FOR CREDIT TO ACCOUNT xyz".

Definition debitSelf : string :=
  "DEBIT 100 USD FROM ACCOUNT a FOR CREDIT TO ACCOUNT a".

Definition debitEuroTrailing : string :=
  "DEBIT 50 EUR FROM ACCOUNT a FOR CREDIT TO ACCOUNT b now".

(** A parse result as the state machine leaves it for [debit30]. *)
Definition parsedDebit30 : ParseResult :=
  mkParseResult (Some "DEBIT") (Some 30) (Some "USD") (Some "a") (Some "b") None [].

Definition tokensDebit30 : list string :=
  ["DEBIT"; "30"; "USD"; "FROM"; "ACCOUNT"; "a"; "FOR"; "CREDIT"; "TO"; "ACCOUNT";
   "b"].

Definition sentenceDebit30 : Sentence := mkSentence "DEBIT" 30 "USD" "a" "b" None.

Definition debit30Spaced : string :=
  "  DEBIT   30 USD  FROM ACCOUNT a   FOR CREDIT TO  ACCOUNT b ".

Definition debitBadId : string :=
  "DEBIT 100 USD FROM ACCOUNT a!@# FOR CREDIT TO ACCOUNT b".

Definition sentenceBadId : Sentence := mkSentence "DEBIT" 100 "USD" "a!@#" "b" None.

Definition debit30BadDate : string :=
  "DEBIT 30 USD FROM ACCOUNT a FOR CREDIT TO ACCOUNT b ON 2026/12/31".

Definition exampleLater : JSDate.UTCFields := JSDate.mkUTCFields 2026 10 4.

Definition debitNegativeTo : string :=
  "DEBIT -100 USD TO ACCOUNT a FOR CREDIT TO ACCOUNT b".

Definition restDebitAB : list string :=
  ["USD"; "FROM"; "ACCOUNT"; "a"; "FOR"; "CREDIT"; "TO"; "ACCOUNT"; "b"].



Local Open Scope list_scope.

(** ** Strings and the tokenizer *)

Lemma strictEq_true (a b : option string) : JS.strictEq a b = true <-> a = b.
Proof.
  destruct a as [x|], b as [y|]; simpl; split; intro H;
    try discriminate; try reflexivity.
  - apply String.eqb_eq in H. now subst.
  - injection H as ->. apply String.eqb_refl.
Qed.

Lemma truthy_Some (v : option string) :
  JS.truthy v = true -> exists s, v = Some s /\ s <> EmptyString.
Proof.
  destruct v as [s|]; simpl; [|discriminate].
  intro H. exists s. split; [reflexivity|].
  apply String.eqb_neq. now destruct (String.eqb s EmptyString).
Qed.

Lemma truthy_of_nonempty (s : string) : s <> EmptyString -> JS.truthy (Some s) = true.
Proof.
  intro H. simpl. apply String.eqb_neq in H. now rewrite H.
Qed.

Lemma trimStart_allWhiteSpace (s : string) :
  allWhiteSpace s = true -> JS.trimStart s = EmptyString.
Proof.
  induction s as [|c s IH]; simpl; [reflexivity|].
  intro H. apply andb_true_iff in H as [Hc Hs].
  rewrite Hc. now apply IH.
Qed.

Lemma trim_allWhiteSpace (s : string) :
  allWhiteSpace s = true -> JS.trim s = EmptyString.
Proof.
  intro H. unfold JS.trim. now rewrite (trimStart_allWhiteSpace s H).
Qed.

Lemma tokenize_allWhiteSpace (s : string) :
  allWhiteSpace s = true -> tokenize s = [].
Proof.
  intro H. unfold tokenize. now rewrite (trim_allWhiteSpace s H).
Qed.

(** No token is the empty string. *)
Lemma tokenize_nonempty (instruction : string) :
  Forall (fun word => word <> EmptyString) (tokenize instruction).
Proof.
  unfold tokenize. apply Forall_forall. intros w Hw.
  apply filter_In in Hw as [_ Hlen].
  intros ->. discriminate Hlen.
Qed.

(** ** The calendar comparison of [isFutureDate] *)

Lemma DayFromYear_succ (y : Z) :
  JSDate.DayFromYear (y + 1) = JSDate.DayFromYear y + 365 + leapDay y.
Proof.
  unfold JSDate.DayFromYear, leapDay, JSDate.InLeapYear.
  destruct (y mod 4 =? 0) eqn:E4; destruct (y mod 100 =? 0) eqn:E100;
    destruct (y mod 400 =? 0) eqn:E400; cbn [andb orb negb];
    rewrite ?Z.eqb_eq, ?Z.eqb_neq in *;
    Z.to_euclidean_division_equations; lia.
Qed.

Lemma leapDay_range (y : Z) : 0 <= leapDay y <= 1.
Proof. unfold leapDay. destruct (JSDate.InLeapYear y); lia. Qed.

Lemma DayFromYear_later (y : Z) (n : nat) :
  JSDate.DayFromYear y <= JSDate.DayFromYear (y + Z.of_nat n).
Proof.
  induction n as [|n IH].
  - rewrite Z.add_0_r. lia.
  - replace (y + Z.of_nat (S n)) with (y + Z.of_nat n + 1) by lia.
    rewrite DayFromYear_succ. pose proof (leapDay_range (y + Z.of_nat n)). lia.
Qed.

(** A later year starts after the last day of an earlier one. *)
Lemma DayFromYear_mono (y1 y2 : Z) :
  y1 < y2 ->
  JSDate.DayFromYear y1 + 365 + leapDay y1 <= JSDate.DayFromYear y2.
Proof.
  intro Hlt. rewrite <- DayFromYear_succ.
  replace y2 with (y1 + 1 + Z.of_nat (Z.to_nat (y2 - y1 - 1))) by lia.
  apply DayFromYear_later.
Qed.

Ltac month_cases f :=
  match goal with
  | H : 0 <= JSDate.month f <= 11 |- _ =>
      let E := fresh "E" in
      assert (E : JSDate.month f = 0 \/ JSDate.month f = 1 \/ JSDate.month f = 2
                  \/ JSDate.month f = 3 \/ JSDate.month f = 4 \/ JSDate.month f = 5
                  \/ JSDate.month f = 6 \/ JSDate.month f = 7 \/ JSDate.month f = 8
                  \/ JSDate.month f = 9 \/ JSDate.month f = 10
                  \/ JSDate.month f = 11) by lia;
      clear H;
      destruct E as [E|[E|[E|[E|[E|[E|[E|[E|[E|[E|[E|E]]]]]]]]]]];
      rewrite E in *
  end.

Lemma dayOfYear_bounds (f : JSDate.UTCFields) :
  validDate f -> 1 <= dayOfYear f <= 365 + leapDay (JSDate.fullYear f).
Proof.
  unfold validDate, dayOfYear, leapDay, JSDate.DaysInMonth, JSDate.DaysBeforeMonth.
  intros [Hm Hd]. month_cases f;
    destruct (JSDate.InLeapYear (JSDate.fullYear f)); lia.
Qed.

(** Within one year the day of the year orders dates as month and day
    do. *)
Lemma dayOfYear_order (f g : JSDate.UTCFields) :
  validDate f -> validDate g -> JSDate.fullYear f = JSDate.fullYear g ->
  (dayOfYear f < dayOfYear g
   <-> JSDate.month f < JSDate.month g
       \/ (JSDate.month f = JSDate.month g /\ JSDate.date f < JSDate.date g)).
Proof.
  unfold validDate, dayOfYear, JSDate.DaysInMonth, JSDate.DaysBeforeMonth.
  intros [Hmf Hdf] [Hmg Hdg] Hy. rewrite <- Hy in *.
  month_cases f; month_cases g;
    destruct (JSDate.InLeapYear (JSDate.fullYear f)); lia.
Qed.

Lemma localDay_dayOfYear (f : JSDate.UTCFields) :
  validDate f -> 100 <= JSDate.fullYear f ->
  JSDate.localDay f = JSDate.DayFromYear (JSDate.fullYear f) + dayOfYear f - 1.
Proof.
  unfold validDate, JSDate.localDay, JSDate.MakeDay, dayOfYear.
  intros [Hm _] Hy.
  replace ((0 <=? JSDate.fullYear f) && (JSDate.fullYear f <=? 99)) with false
    by (symmetry; apply andb_false_iff; right; apply Z.leb_gt; lia).
  rewrite (Z.div_small (JSDate.month f) 12) by lia.
  rewrite (Z.mod_small (JSDate.month f) 12) by lia.
  rewrite Z.add_0_r. lia.
Qed.

(** From the year 100 on, the day numbers that [isFutureDate] compares
    order calendar dates as the calendar does. *)
Lemma localDay_calendar (f g : JSDate.UTCFields) :
  validDate f -> validDate g ->
  100 <= JSDate.fullYear f -> 100 <= JSDate.fullYear g ->
  (JSDate.localDay f < JSDate.localDay g <-> calendarBefore f g).
Proof.
  intros Hf Hg Hyf Hyg.
  rewrite (localDay_dayOfYear f Hf Hyf), (localDay_dayOfYear g Hg Hyg).
  pose proof (dayOfYear_bounds f Hf) as Bf.
  pose proof (dayOfYear_bounds g Hg) as Bg.
  unfold calendarBefore.
  destruct (Z.lt_trichotomy (JSDate.fullYear f) (JSDate.fullYear g))
    as [Hlt|[Heq|Hgt]].
  - pose proof (DayFromYear_mono _ _ Hlt) as Hm. split; [intros _; now left | lia].
  - pose proof (dayOfYear_order f g Hf Hg Heq) as Ho. rewrite Heq in *.
    split.
    + intro H. right. split; [reflexivity|]. apply Ho. lia.
    + intros [H|[_ H]]; [lia|]. apply Ho in H. lia.
  - pose proof (DayFromYear_mono _ _ Hgt) as Hm. split; [lia|].
    intros [H|[H _]]; lia.
Qed.

(** The UTC fields read from a date string are a calendar date. *)
Lemma parseUTC_valid (dateStr : string) (f : JSDate.UTCFields) :
  JSDate.parseUTC dateStr = Some f -> validDate f.
Proof.
  unfold JSDate.parseUTC.
  destruct (isValidDateFormat dateStr) eqn:Hv; [|discriminate].
  destruct (JS.parseInt (substring 0 4 dateStr)) as [y|]; [|discriminate].
  destruct (JS.parseInt (substring 5 2 dateStr)) as [m|] eqn:Em; [|discriminate].
  destruct (JS.parseInt (substring 8 2 dateStr)) as [d|] eqn:Ed; [|discriminate].
  unfold isValidDateFormat in Hv. cbv zeta in Hv.
  destruct (negb (String.length dateStr =? 10)%nat); [discriminate|].
  destruct (negb (charAtIs dateStr 4 "-") || negb (charAtIs dateStr 7 "-"));
    [discriminate|].
  destruct (negb (allDigits _)); [discriminate|].
  rewrite Em, Ed in Hv.
  assert (Hm : 0 <= m - 1 <= 11) by lia.
  assert (Hd : 1 <= d <= 31) by lia.
  clear Hv Em Ed.
  assert (E : m - 1 = 0 \/ m - 1 = 1 \/ m - 1 = 2 \/ m - 1 = 3 \/ m - 1 = 4
              \/ m - 1 = 5 \/ m - 1 = 6 \/ m - 1 = 7 \/ m - 1 = 8 \/ m - 1 = 9
              \/ m - 1 = 10 \/ m - 1 = 11) by lia.
  destruct (d <=? JSDate.DaysInMonth y (m - 1)) eqn:Hfit;
    intro H; injection H as <-; unfold validDate;
    cbn [JSDate.fullYear JSDate.month JSDate.date].
  - apply Z.leb_le in Hfit. lia.
  - apply Z.leb_gt in Hfit.
    destruct E as [E|[E|[E|[E|[E|[E|[E|[E|[E|[E|[E|E]]]]]]]]]]];
      rewrite E in *; unfold JSDate.DaysInMonth in *; cbn in Hfit |- *;
      destruct (JSDate.InLeapYear y); lia.
Qed.

(** From the year 100 on, [isFutureDate] tells whether the calendar date
    of the string comes after today's. *)
Lemma isFutureDate_calendar (now f : JSDate.UTCFields) (dateStr : string) :
  validDate now -> 100 <= JSDate.fullYear now ->
  JSDate.parseUTC dateStr = Some f -> 100 <= JSDate.fullYear f ->
  (isFutureDate now dateStr = true <-> calendarBefore now f).
Proof.
  intros Hnow Hy Hparse Hyf. unfold isFutureDate. rewrite Hparse.
  rewrite Z.ltb_lt.
  apply localDay_calendar; auto. now apply (parseUTC_valid dateStr).
Qed.

(** ** The state machine *)

Ltac split_ifs :=
  repeat match goal with
    | |- context [if ?b then _ else _] => destruct b eqn:?
    | |- context [match JS.parseInt ?t with _ => _ end] =>
        destruct (JS.parseInt t) eqn:?
    end.

(** A turn pushes at most one violation and drops none. *)
Lemma step_errors (s : States.t) (r : ParseResult) (token : string) :
  errors (turnResult (step s r token)) = errors r
  \/ exists v, errors (turnResult (step s r token)) = errors r ++ [v].
Proof.
  destruct s; unfold step; split_ifs; simpl; eauto.
Qed.

(** A turn that returns has pushed a violation. *)
Lemma step_Return_errors (s : States.t) (r r' : ParseResult) (token : string) :
  step s r token = Return r' -> exists v, errors r' = errors r ++ [v].
Proof.
  destruct s; unfold step; split_ifs; intro H; inversion H; subst; simpl; eauto.
Qed.

(** A turn that goes on moves to the next state of the grammar. *)
Lemma step_Next_index (s s' : States.t) (r r' : ParseResult) (token : string) :
  step s r token = Next s' r' -> stateIndex s' = stateIndex s + 1.
Proof.
  destruct s; unfold step; split_ifs; intro H; inversion H; subst; reflexivity.
Qed.

Lemma step_amountInv (s s' : States.t) (r r' : ParseResult) (token : string) :
  amountInv s r -> step s r token = Next s' r' -> amountInv s' r'.
Proof.
  unfold amountInv. intros [Hnone Hinv] Hstep.
  destruct s; unfold step in Hstep; revert Hstep; split_ifs;
    intro H; inversion H; subst; simpl in *;
    (split; intro Hidx; try (exfalso; lia));
    try (apply Hnone; lia);
    try (apply Hinv; lia);
    try (rewrite Hnone by lia; apply in_or_app; right; left; reflexivity);
    try lia;
    try (specialize (Hinv ltac:(lia));
         destruct (amount r); [assumption | apply in_or_app; now left]).
Qed.

(** Case analysis of a turn known by an equation [H]. *)
Ltac invert_step H :=
  unfold step in H;
  repeat match type of H with
    | context [if ?b then _ else _] => destruct b eqn:?
    | context [match JS.parseInt ?t with _ => _ end] =>
        destruct (JS.parseInt t) eqn:?
    end;
  inversion H; subst; clear H.

Ltac use_type_test :=
  try match goal with
    | E : JS.strictEq (type _) (Some _) = _ |- _ => rewrite E in *
    end.

Lemma step_accountsInv (s s' : States.t) (r r' : ParseResult) (token : string) :
  token <> EmptyString ->
  accountsInv s r -> step s r token = Next s' r' -> accountsInv s' r'.
Proof.
  unfold accountsInv. intros Htok [Hfirst Hboth] Hstep.
  pose proof (truthy_of_nonempty token Htok) as Htruthy.
  destruct s; invert_step Hstep; simpl stateIndex in *;
    (split; intro Hidx; try (exfalso; lia));
    cbn [type debitAccount creditAccount setType setAmount setCurrency
         setDebitAccount setCreditAccount setExecuteBy pushError] in *;
    try (apply Hfirst; lia);
    try (apply Hboth; lia);
    try specialize (Hfirst ltac:(lia));
    use_type_test; auto.
Qed.

Lemma step_errorsInv (s s' : States.t) (r r' : ParseResult) (token : string) :
  errorsInv s r -> step s r token = Next s' r' -> errorsInv s' r'.
Proof.
  unfold errorsInv. intros (Hlt & Hnone & Hone) Hstep.
  destruct s; invert_step Hstep; simpl stateIndex in *;
    (split; [lia|]); (split; intro Hidx; try (exfalso; lia));
    cbn [errors setType setAmount setCurrency
         setDebitAccount setCreditAccount setExecuteBy pushError];
    try (apply Hnone; lia);
    try (left; apply Hnone; lia);
    try (apply Hone; lia);
    try (right; rewrite Hnone by lia; reflexivity).
Qed.

(** A property kept by every turn that goes on holds where the loop falls
    through; what every returning turn establishes holds where it
    returns. *)
Section LoopInvariant.

Variable P : States.t -> ParseResult -> Prop.
Variable R : ParseResult -> Prop.
Variable Q : string -> Prop.

Hypothesis step_Next :
  forall s r token s' r',
    Q token -> P s r -> step s r token = Next s' r' -> P s' r'.
Hypothesis step_Return :
  forall s r token r',
    Q token -> P s r -> step s r token = Return r' -> R r'.

Lemma whileLoop_invariant (tokens : list string) :
  forall s r,
    Forall Q tokens -> P s r ->
    match whileLoop s r tokens with
    | Fallthrough s' r' => P s' r'
    | Returned r' => R r'
    end.
Proof.
  induction tokens as [|token rest IH]; intros s r HQ HP; simpl.
  - exact HP.
  - inversion HQ as [|? ? Htoken Hrest]; subst.
    destruct (States.eqb s States.COMPLETE); [exact HP|].
    destruct (step s r token) as [s' r'|r'] eqn:Hstep.
    + apply IH; [assumption|]. eapply step_Next; eassumption.
    + eapply step_Return; eassumption.
Qed.

End LoopInvariant.

Lemma Forall_True {A : Type} (l : list A) : Forall (fun _ => True) l.
Proof. induction l; constructor; auto. Qed.

(** The loop never returns without an error, and never drops one. *)
Lemma whileLoop_errors (tokens : list string) (s : States.t) (r : ParseResult) :
  match whileLoop s r tokens with
  | Fallthrough _ r' => exists extra, errors r' = errors r ++ extra
  | Returned r' => exists extra v, errors r' = errors r ++ extra ++ [v]
  end.
Proof.
  pose proof (whileLoop_invariant
                (fun _ r' => exists extra, errors r' = errors r ++ extra)
                (fun r' => exists extra v, errors r' = errors r ++ extra ++ [v])
                (fun _ => True)) as H.
  apply H; clear H.
  - intros s0 r0 token s' r' _ [extra He] Hstep.
    destruct (step_errors s0 r0 token) as [Hs|[v Hs]];
      rewrite Hstep in Hs; simpl in Hs; rewrite Hs, He.
    + now exists extra.
    + exists (extra ++ [v]). now rewrite app_assoc.
  - intros s0 r0 token r' _ [extra He] Hstep.
    apply step_Return_errors in Hstep as [v Hv].
    exists extra, v. now rewrite Hv, He, app_assoc.
  - apply Forall_True.
  - exists []. now rewrite app_nil_r.
Qed.

(** From START and the empty result, the three invariants hold wherever
    the loop falls through. *)
Lemma whileLoop_start (tokens : list string) (s : States.t) (r : ParseResult) :
  Forall (fun word => word <> EmptyString) tokens ->
  whileLoop States.START initialResult tokens = Fallthrough s r ->
  amountInv s r /\ accountsInv s r /\ errorsInv s r.
Proof.
  intros Htok Hloop.
  pose proof (whileLoop_invariant
                (fun s r => amountInv s r /\ accountsInv s r /\ errorsInv s r)
                (fun _ => True)
                (fun word => word <> EmptyString)) as H.
  cbv beta in H.
  assert (Hnext : forall s r token s' r',
             token <> EmptyString ->
             amountInv s r /\ accountsInv s r /\ errorsInv s r ->
             step s r token = Next s' r' ->
             amountInv s' r' /\ accountsInv s' r' /\ errorsInv s' r').
  { intros s0 r0 token s' r' Hq (Ha & Hb & Hc) Hstep.
    split; [|split].
    - exact (step_amountInv _ _ _ _ _ Ha Hstep).
    - exact (step_accountsInv _ _ _ _ _ Hq Hb Hstep).
    - exact (step_errorsInv _ _ _ _ _ Hc Hstep). }
  specialize (H Hnext (fun _ _ _ _ _ _ _ => I) tokens States.START initialResult Htok).
  rewrite Hloop in H. apply H.
  unfold amountInv, accountsInv, errorsInv; simpl.
  repeat split; intros; try lia; auto.
Qed.

(** The code after the loop leaves an error-free result error-free only
    in the two completing states (COMPLETE itself is never reached). *)
Lemma afterLoop_no_errors (s : States.t) (r : ParseResult) :
  errors (afterLoop s r) = [] -> afterLoop s r = r /\ 11 <= stateIndex s.
Proof.
  destruct s; unfold afterLoop; simpl;
    try (destruct (errors r) eqn:He; simpl;
         [ intro H; apply app_eq_nil in H as [_ H]; discriminate H
         | intro H; rewrite He in H; discriminate H ]);
    intros _; split; try reflexivity; lia.
Qed.

(** A parse without syntax errors has read both account ids and a
    positive amount. *)
Lemma parse_without_errors (tokens : list string) :
  Forall (fun word => word <> EmptyString) tokens ->
  errors (parseWithStateMachine tokens) = [] ->
  exists d c n,
    debitAccount (parseWithStateMachine tokens) = Some d /\ d <> EmptyString
    /\ creditAccount (parseWithStateMachine tokens) = Some c /\ c <> EmptyString
    /\ amount (parseWithStateMachine tokens) = Some n /\ 0 < n.
Proof.
  intros Htok. unfold parseWithStateMachine.
  pose proof (whileLoop_errors tokens States.START initialResult) as Herr.
  destruct (whileLoop States.START initialResult tokens) as [s r|r] eqn:Hloop.
  - intro Hnil. destruct (afterLoop_no_errors s r Hnil) as [Heq Hidx].
    rewrite Heq in *.
    destruct (whileLoop_start tokens s r Htok Hloop) as ((_ & Ha) & (_ & Hb) & _).
    specialize (Ha ltac:(lia)). destruct (Hb Hidx) as [Hd Hc].
    apply truthy_Some in Hd as (d & Hd & Hdne).
    apply truthy_Some in Hc as (c & Hc & Hcne).
    destruct (amount r) as [n|] eqn:Hn.
    + exists d, c, n. repeat split; assumption.
    + rewrite Hnil in Ha. destruct Ha.
  - destruct Herr as (extra & v & He). intro Hnil. rewrite Hnil in He.
    simpl in He. symmetry in He. apply app_eq_nil in He as [_ He]. discriminate He.
Qed.

(** ** The business rule validator *)

Lemma pushWhen_nil (cond : bool) (v : Violation) (errs : list Violation) :
  pushWhen cond v errs = [] -> cond = false /\ errs = [].
Proof.
  destruct cond; simpl; intro H; [|now split].
  apply app_eq_nil in H as [_ H]. discriminate H.
Qed.

Lemma pushWhen_app (cond : bool) (v : Violation) (errs : list Violation) :
  pushWhen cond v errs = errs ++ (if cond then [v] else []).
Proof. destruct cond; simpl; [reflexivity | now rewrite app_nil_r]. Qed.

Lemma findAccount_Some (accounts : list Account) (accountId : option string)
    (a : Account) :
  findAccount accounts accountId = Some a -> In a accounts /\ accountId = Some (id a).
Proof.
  unfold findAccount. intro H. apply find_some in H as [Hin Heq].
  split; [assumption|]. apply strictEq_true in Heq. now symmetry.
Qed.

Lemma findAccount_null (accounts : list Account) : findAccount accounts None = None.
Proof. induction accounts as [|a l IH]; simpl; [reflexivity | exact IH]. Qed.

(** With no violation at all, both accounts were found under their
    distinct ids, and the debit balance covers the amount. *)
Lemma validation_without_errors (parsed : ParseResult) (accounts : list Account) :
  JS.truthy (debitAccount parsed) = true ->
  JS.truthy (creditAccount parsed) = true ->
  validationErrors (validateBusinessRules parsed accounts) = [] ->
  exists debit credit,
    validationDebitAccount (validateBusinessRules parsed accounts) = Some debit
    /\ validationCreditAccount (validateBusinessRules parsed accounts) = Some credit
    /\ In debit accounts /\ In credit accounts
    /\ debitAccount parsed = Some (id debit)
    /\ creditAccount parsed = Some (id credit)
    /\ id debit <> id credit
    /\ errors parsed = [].
Proof.
  intros Hd Hc. unfold validateBusinessRules. cbn [validationErrors
    validationDebitAccount validationCreditAccount].
  rewrite Hd, Hc. cbn [andb].
  destruct (findAccount accounts (debitAccount parsed)) as [debit|] eqn:Hfd;
    destruct (findAccount accounts (creditAccount parsed)) as [credit|] eqn:Hfc;
    cbn [isSome negb]; intro H;
    repeat match type of H with
      | pushWhen _ _ _ = [] => apply pushWhen_nil in H as [? H]
      end;
    try discriminate.
  apply findAccount_Some in Hfd as [Hind Hidd].
  apply findAccount_Some in Hfc as [Hinc Hidc].
  exists debit, credit. repeat split; try assumption; try reflexivity.
  intro Heq.
  match goal with
  | E : JS.strictEq (debitAccount parsed) (creditAccount parsed) = false |- _ =>
      rewrite Hidd, Hidc, Heq in E; simpl in E; rewrite String.eqb_refl in E;
      discriminate E
  end.
Qed.

(** ** Settlement *)

Lemma processedAccounts_found (isPending : bool) (parsed : ParseResult)
    (validation : Validation) (debit credit : Account) (accounts : list Account) :
  validationDebitAccount validation = Some debit ->
  validationCreditAccount validation = Some credit ->
  processedAccounts isPending parsed validation accounts
  = Some (settledViews isPending parsed debit credit accounts).
Proof.
  intros Hd Hc. induction accounts as [|a rest IH]; simpl; [reflexivity|].
  rewrite Hd, Hc, IH. simpl.
  destruct (String.eqb (id a) (id debit)); [reflexivity|].
  destruct (String.eqb (id a) (id credit)); reflexivity.
Qed.

Lemma settledViews_debit (isPending : bool) (parsed : ParseResult)
    (debit credit a : Account) (accounts : list Account) :
  In a accounts -> id a = id debit ->
  In (debitView isPending parsed a)
     (settledViews isPending parsed debit credit accounts).
Proof.
  intros Hin Hid. induction accounts as [|b rest IH]; simpl; [destruct Hin|].
  destruct Hin as [->|Hin].
  - rewrite Hid, String.eqb_refl. now left.
  - destruct (String.eqb (id b) (id debit)); [right; auto|].
    destruct (String.eqb (id b) (id credit)); [right; auto|auto].
Qed.

Lemma settledViews_credit (isPending : bool) (parsed : ParseResult)
    (debit credit a : Account) (accounts : list Account) :
  In a accounts -> id a = id credit -> id a <> id debit ->
  In (creditView isPending parsed a)
     (settledViews isPending parsed debit credit accounts).
Proof.
  intros Hin Hid Hne. induction accounts as [|b rest IH]; simpl; [destruct Hin|].
  destruct Hin as [->|Hin].
  - apply String.eqb_neq in Hne. rewrite Hne, Hid, String.eqb_refl. now left.
  - destruct (String.eqb (id b) (id debit)); [right; auto|].
    destruct (String.eqb (id b) (id credit)); [right; auto|auto].
Qed.

(** Every view comes from an input account with the debit id or the
    credit id, and is the one pushed for that role. *)
Lemma settledViews_inv (isPending : bool) (parsed : ParseResult)
    (debit credit : Account) (accounts : list Account) (v : View.t) :
  In v (settledViews isPending parsed debit credit accounts) ->
  exists a, In a accounts
    /\ ((id a = id debit /\ v = debitView isPending parsed a)
        \/ (id a <> id debit /\ id a = id credit
            /\ v = creditView isPending parsed a)).
Proof.
  induction accounts as [|b rest IH]; simpl; [intros []|].
  destruct (String.eqb (id b) (id debit)) eqn:Ed;
    [|destruct (String.eqb (id b) (id credit)) eqn:Ec].
  - intros [<-|Hin].
    + exists b. split; [now left|]. left. split; [now apply String.eqb_eq|reflexivity].
    + destruct (IH Hin) as (a & Ha & Hcase). exists a. split; [now right|assumption].
  - intros [<-|Hin].
    + exists b. split; [now left|]. right.
      repeat split; [now apply String.eqb_neq|now apply String.eqb_eq].
    + destruct (IH Hin) as (a & Ha & Hcase). exists a. split; [now right|assumption].
  - intro Hin. destruct (IH Hin) as (a & Ha & Hcase).
    exists a. split; [now right|assumption].
Qed.

(** The ids of the views are the input ids restricted to the two
    accounts, in input order. *)
Lemma settledViews_ids (isPending : bool) (parsed : ParseResult)
    (debit credit : Account) (accounts : list Account) :
  map View.id (settledViews isPending parsed debit credit accounts)
  = filter (fun i => String.eqb i (id debit) || String.eqb i (id credit))
      (map id accounts).
Proof.
  induction accounts as [|b rest IH]; simpl; [reflexivity|].
  destruct (String.eqb (id b) (id debit)); simpl; [now rewrite IH|].
  destruct (String.eqb (id b) (id credit)); simpl; now rewrite IH.
Qed.

(** An instruction with no violation reaches the success branch, which
    does not throw. *)
Lemma clean_run (now : JSDate.UTCFields) (accounts : list Account)
    (instruction : string) :
  let parsed := parseWithStateMachine (tokenize instruction) in
  let validation := validateBusinessRules parsed accounts in
  validationErrors validation = [] ->
  exists debit credit n,
    validationDebitAccount validation = Some debit
    /\ validationCreditAccount validation = Some credit
    /\ In debit accounts /\ In credit accounts
    /\ debitAccount parsed = Some (id debit)
    /\ creditAccount parsed = Some (id credit)
    /\ id debit <> id credit
    /\ amount parsed = Some n /\ 0 < n
    /\ parseInstruction now accounts instruction
       = Response.mk (type parsed) (amount parsed) (parsedCurrency parsed)
           (debitAccount parsed) (creditAccount parsed) (executeBy parsed)
           (if pendingFlag now parsed then "pending" else "successful")
           (if pendingFlag now parsed then PaymentMessages.TRANSACTION_PENDING
            else PaymentMessages.TRANSACTION_SUCCESSFUL)
           (if pendingFlag now parsed then STATUS_CODES.PENDING
            else STATUS_CODES.SUCCESSFUL)
           (settledViews (pendingFlag now parsed) parsed debit credit accounts).
Proof.
  intros parsed validation Hnil.
  assert (Hsyntax : errors parsed = []).
  { unfold validation, validateBusinessRules in Hnil.
    cbn [validationErrors] in Hnil.
    destruct (findAccount accounts (debitAccount parsed));
      destruct (findAccount accounts (creditAccount parsed));
      repeat match type of Hnil with
        | pushWhen _ _ _ = [] => apply pushWhen_nil in Hnil as [_ Hnil]
        end; assumption. }
  destruct (parse_without_errors (tokenize instruction)
              (tokenize_nonempty instruction) Hsyntax)
    as (d & c & n & Hd & Hdne & Hc & Hcne & Hn & Hpos).
  fold parsed in Hd, Hc, Hn.
  destruct (validation_without_errors parsed accounts) as
    (debit & credit & Hvd & Hvc & Hind & Hinc & Hidd & Hidc & Hne & _).
  { rewrite Hd. now apply truthy_of_nonempty. }
  { rewrite Hc. now apply truthy_of_nonempty. }
  { exact Hnil. }
  exists debit, credit, n.
  repeat (split; [assumption|]).
  unfold parseInstruction, tryBlock. fold parsed. fold validation.
  rewrite Hnil. cbn [List.length Nat.ltb Nat.leb].
  fold (pendingFlag now parsed).
  now rewrite (processedAccounts_found _ _ _ debit credit accounts Hvd Hvc).
Qed.

Lemma isFutureDate_empty (now : JSDate.UTCFields) :
  isFutureDate now EmptyString = false.
Proof. reflexivity. Qed.

Lemma pendingFlag_future (now : JSDate.UTCFields) (parsed : ParseResult) (d : string) :
  executeBy parsed = Some d -> pendingFlag now parsed = isFutureDate now d.
Proof.
  intro He. unfold pendingFlag. rewrite He. simpl.
  destruct (String.eqb d EmptyString) eqn:E; [|reflexivity].
  apply String.eqb_eq in E. subst d. now rewrite isFutureDate_empty.
Qed.

(** A date whose UTC fields are today's is not in the future. *)
Lemma isFutureDate_today (now : JSDate.UTCFields) (d : string) :
  JSDate.parseUTC d = Some now -> isFutureDate now d = false.
Proof.
  intro H. unfold isFutureDate. rewrite H. apply Z.ltb_irrefl.
Qed.

(** Within 2^53 of zero an integer is a double, and nothing is rounded. *)
Lemma roundDouble_exact (z : Z) : - 2 ^ 53 <= z <= 2 ^ 53 -> JS.roundDouble z = z.
Proof.
  intro H. unfold JS.roundDouble. cbv zeta.
  destruct (Z.leb_spec (Z.abs z) (2 ^ 53)); [reflexivity | lia].
Qed.

Lemma sub_exact (n : Z) (a : Account) :
  0 < n -> exactFor n a -> JS.sub (balance a) n = balance a - n.
Proof. intros Hpos [Hlo Hhi]. apply roundDouble_exact. lia. Qed.

Lemma add_exact (n : Z) (a : Account) :
  0 < n -> exactFor n a -> JS.add (balance a) n = balance a + n.
Proof. intros Hpos [Hlo Hhi]. apply roundDouble_exact. lia. Qed.

Lemma involved_debit (parsed : ParseResult) (a debit : Account) :
  debitAccount parsed = Some (id debit) -> id a = id debit ->
  involved parsed (id a) = true.
Proof.
  intros Hd Hid. unfold involved. rewrite Hd, Hid. simpl.
  now rewrite String.eqb_refl.
Qed.

Lemma involved_credit (parsed : ParseResult) (a credit : Account) :
  creditAccount parsed = Some (id credit) -> id a = id credit ->
  involved parsed (id a) = true.
Proof.
  intros Hc Hid. unfold involved. rewrite Hc, Hid. simpl.
  rewrite String.eqb_refl. apply orb_true_r.
Qed.


(** C2. An instruction with no violation whose execution date is
    strictly in the future is answered "pending" with code AP02, and every
    view carries the input balance as both [balance] and [balance_before];
    a date whose calendar fields are today's is not in the future, and the
    instruction is then settled at once; from the year 100 on, the date is
    in the future exactly when its calendar date comes after today's. *)
Theorem pending_settlement (now : JSDate.UTCFields) (accounts : list Account)
    (instruction d : string) :
  let parsed := parseWithStateMachine (tokenize instruction) in
  let validation := validateBusinessRules parsed accounts in
  let response := parseInstruction now accounts instruction in
  validationErrors validation = [] ->
  executeBy parsed = Some d ->
  (isFutureDate now d = true ->
   Response.status response = "pending"
   /\ Response.status_code response = "AP02"
   /\ exists debit credit vd vc,
        validationDebitAccount validation = Some debit
        /\ validationCreditAccount validation = Some credit
        /\ In vd (Response.accounts response)
        /\ In vc (Response.accounts response)
        /\ View.id vd = id debit /\ View.id vc = id credit
        /\ View.balance vd = balance debit
        /\ View.balance_before vd = balance debit
        /\ View.balance vc = balance credit
        /\ View.balance_before vc = balance credit
        /\ forall v, In v (Response.accounts response) ->
             exists a, In a accounts /\ View.id v = id a
               /\ View.balance v = balance a
               /\ View.balance_before v = balance a)
  /\ (JSDate.parseUTC d = Some now ->
      isFutureDate now d = false /\ Response.status response = "successful")
  /\ (forall f,
         validDate now -> 100 <= JSDate.fullYear now ->
         JSDate.parseUTC d = Some f -> 100 <= JSDate.fullYear f ->
         (isFutureDate now d = true <-> calendarBefore now f)).
Proof.
  intros parsed validation response Hnil He.
  destruct (clean_run now accounts instruction Hnil)
    as (debit & credit & n & Hvd & Hvc & Hind & Hinc & Hidd & Hidc & Hne & Hn
        & Hpos & Hresp).
  fold parsed in Hidd, Hidc, Hn, Hresp. fold validation in Hvd, Hvc.
  rewrite (pendingFlag_future now parsed d He) in Hresp.
  unfold response. rewrite Hresp.
  cbn [Response.status Response.status_code Response.accounts].
  split.
  - intro Hfuture. rewrite Hfuture.
    split; [reflexivity|]. split; [reflexivity|].
    exists debit, credit, (debitView true parsed debit),
      (creditView true parsed credit).
    repeat (split; [first [assumption | reflexivity]|]).
    split; [|split].
    + now apply settledViews_debit.
    + apply settledViews_credit; auto.
    + repeat (split; [reflexivity|]).
      intros v Hv. apply settledViews_inv in Hv as (a & Ha & Hcase).
      exists a. split; [assumption|].
      destruct Hcase as [[Hid ->]|(Hnd & Hid & ->)]; simpl; auto.
  - split.
    + intro Htoday. rewrite (isFutureDate_today now d Htoday). now split.
    + intros f Hvalid Hy Hparse Hyf. now apply isFutureDate_calendar.
Qed.

(** ** The error prioritizer *)

Lemma rank_bounds (v : Violation) : 1 <= rank v <= 999.
Proof.
  unfold rank, priority.
  repeat match goal with
    | |- context [String.eqb ?a ?b] => destruct (String.eqb a b)
    end; lia.
Qed.

Lemma rank_mapped (v : Violation) : priority (code v) <> None <-> rank v < 999.
Proof.
  unfold rank, priority.
  repeat match goal with
    | |- context [String.eqb ?a ?b] => destruct (String.eqb a b)
    end; split; intro H; try lia; try discriminate; try (now exfalso).
Qed.

Lemma rank_code (v : Violation) (errorCode : string) :
  priority errorCode <> None ->
  rank v = rank (mkViolation errorCode EmptyString) -> code v = errorCode.
Proof.
  unfold rank, priority; cbn [code].
  repeat match goal with
    | |- context [String.eqb ?a ?b] => destruct (String.eqb_spec a b)
    end; intros Hm H; try congruence; try discriminate H; now exfalso.
Qed.

(** The scan of [selectPrimaryError] from any starting pair: either no
    violation ranks below the starting priority and the pair is unchanged,
    or the scan ends on the first violation of least rank. *)
Lemma fold_keepLower (errs : list Violation) :
  forall (best : option Violation) (low : Z),
    (Forall (fun x => low <= rank x) errs
     /\ fold_left keepLower errs (best, low) = (best, low))
    \/ exists pre e post,
         errs = pre ++ e :: post
         /\ fold_left keepLower errs (best, low) = (Some e, rank e)
         /\ rank e < low
         /\ Forall (fun x => rank e < rank x) pre
         /\ Forall (fun x => rank e <= rank x) post.
Proof.
  induction errs as [|x rest IH]; intros best low.
  - left. split; [constructor | reflexivity].
  - cbn [fold_left].
    change (keepLower (best, low) x)
      with (if rank x <? low then (Some x, rank x) else (best, low)).
    destruct (rank x <? low) eqn:Hlt.
    + apply Z.ltb_lt in Hlt.
      destruct (IH (Some x) (rank x)) as [[Hall Hfold]|(pre & e & post & Hsplit
        & Hfold & Hlow & Hpre & Hpost)].
      * right. exists [], x, rest. repeat split; auto.
      * right. exists (x :: pre), e, post. subst rest.
        repeat split; auto; try lia.
    + apply Z.ltb_ge in Hlt.
      destruct (IH best low) as [[Hall Hfold]|(pre & e & post & Hsplit
        & Hfold & Hlow & Hpre & Hpost)].
      * left. split; [constructor; assumption | assumption].
      * right. exists (x :: pre), e, post. subst rest.
        repeat split; auto. constructor; [lia | assumption].
Qed.

(** A list whose codes are all outside the table selects nothing. *)
Lemma selectPrimaryError_unmapped (errs : list Violation) :
  Forall (fun x => priority (code x) = None) errs -> selectPrimaryError errs = None.
Proof.
  intro Hall. unfold selectPrimaryError.
  destruct (fold_keepLower errs None 999) as [[_ ->]|(pre & e & post & Hsplit
    & _ & Hlow & _)]; [reflexivity|].
  exfalso. apply rank_mapped in Hlow. apply Hlow.
  rewrite Forall_forall in Hall. apply Hall. subst errs.
  apply in_or_app. right. now left.
Qed.

(** With a code of the table in the list, the scan ends on the first
    violation of least rank. *)
Lemma select_first_least (errs : list Violation) :
  (exists x, In x errs /\ mapped x) ->
  exists pre e post,
    errs = pre ++ e :: post
    /\ selectPrimaryError errs = Some e
    /\ (forall x, In x pre -> rank e < rank x)
    /\ (forall x, In x post -> rank e <= rank x).
Proof.
  intros (x & Hx & Hmapped). unfold selectPrimaryError.
  destruct (fold_keepLower errs None 999) as [[Hall _]|(pre & e & post & Hsplit
    & Hfold & Hlow & Hpre & Hpost)].
  - exfalso. apply rank_mapped in Hmapped.
    rewrite Forall_forall in Hall. specialize (Hall x Hx). lia.
  - exists pre, e, post. rewrite Hfold. cbn [fst].
    rewrite Forall_forall in Hpre, Hpost. repeat split; auto.
Qed.

(** C3. The ranks of the eleven codes are 1 to 11 in the fixed
    order and every other code has rank 999, the largest.  For a list
    with at least one code of the table, [selectPrimaryError] returns the
    violation of least rank, the first of them in list order: every
    violation before it ranks strictly higher, every one after it ranks
    at least as high.  When the list holds a MALFORMED violation the
    selected code is SY03, whatever else it holds. *)
Theorem selectPrimaryError_least_rank (errs : list Violation) :
  (exists x, In x errs /\ mapped x) ->
  (forall m,
      map (fun c => rank (mkViolation c m))
        [STATUS_CODES.MALFORMED; STATUS_CODES.MISSING_KEYWORD;
         STATUS_CODES.INVALID_ORDER; STATUS_CODES.INVALID_AMOUNT;
         STATUS_CODES.INVALID_ACCOUNT_ID; STATUS_CODES.INVALID_DATE;
         STATUS_CODES.ACCOUNT_NOT_FOUND; STATUS_CODES.UNSUPPORTED_CURRENCY;
         STATUS_CODES.CURRENCY_MISMATCH; STATUS_CODES.SAME_ACCOUNT;
         STATUS_CODES.INSUFFICIENT_FUNDS]
      = [1; 2; 3; 4; 5; 6; 7; 8; 9; 10; 11])
  /\ (forall x, rank x <= 999 /\ (priority (code x) = None -> rank x = 999))
  /\ exists pre e post,
       errs = pre ++ e :: post
       /\ selectPrimaryError errs = Some e
       /\ (forall x, In x pre -> rank e < rank x)
       /\ (forall x, In x post -> rank e <= rank x)
       /\ (hasCode STATUS_CODES.MALFORMED errs -> code e = STATUS_CODES.MALFORMED).
Proof.
  intros Hmapped.
  split; [intro m; reflexivity|].
  split.
  { intro y. split; [apply rank_bounds|].
    unfold rank. now intros ->. }
  destruct (select_first_least errs Hmapped) as
    (pre & e & post & Hsplit & Hsel & Hpre & Hpost).
  exists pre, e, post. repeat split; auto.
  intros (m & Hm & Hcode).
  apply rank_code; [discriminate|].
  assert (Hle : rank e <= rank m).
  { subst errs. apply in_app_or in Hm as [Hm|[<-|Hm]];
      [apply Hpre in Hm; lia | lia | now apply Hpost]. }
  assert (Hr : rank m = 1) by (unfold rank; now rewrite Hcode).
  pose proof (rank_bounds e). cbn. lia.
Qed.

(** Every violation that the service creates carries a code of the
    table, so a non-empty error list always has a primary error. *)
Lemma step_mapped (s : States.t) (r : ParseResult) (token : string) :
  Forall mapped (errors r) -> Forall mapped (errors (turnResult (step s r token))).
Proof.
  intro H. destruct s; unfold step; split_ifs; cbn [turnResult errors pushError
    setType setAmount setCurrency setDebitAccount setCreditAccount setExecuteBy];
    try assumption;
    (apply Forall_app; split; [assumption|]; constructor; [discriminate|constructor]).
Qed.

Lemma parse_mapped (tokens : list string) :
  Forall mapped (errors (parseWithStateMachine tokens)).
Proof.
  unfold parseWithStateMachine.
  pose proof (whileLoop_invariant
                (fun _ r => Forall mapped (errors r))
                (fun r => Forall mapped (errors r))
                (fun _ => True)) as H.
  cbv beta in H.
  specialize (H (fun s r token s' r' _ Hr Hstep =>
                   eq_ind _ (fun t => Forall mapped (errors (turnResult t)))
                     (step_mapped s r token Hr) _ Hstep)
                (fun s r token r' _ Hr Hstep =>
                   eq_ind _ (fun t => Forall mapped (errors (turnResult t)))
                     (step_mapped s r token Hr) _ Hstep)
                tokens States.START initialResult (Forall_True tokens)
                (Forall_nil _)).
  destruct (whileLoop States.START initialResult tokens) as [s r|r];
    [|assumption].
  unfold afterLoop. split_ifs; try assumption.
  cbn [errors pushError]. apply Forall_app. split; [assumption|].
  constructor; [discriminate|constructor].
Qed.

Lemma pushWhen_mapped (cond : bool) (v : Violation) (errs : list Violation) :
  mapped v -> Forall mapped errs -> Forall mapped (pushWhen cond v errs).
Proof.
  intros Hv He. destruct cond; simpl; [|assumption].
  apply Forall_app. split; [assumption|]. now constructor.
Qed.

Lemma validate_mapped (parsed : ParseResult) (accounts : list Account) :
  Forall mapped (errors parsed) ->
  Forall mapped (validationErrors (validateBusinessRules parsed accounts)).
Proof.
  intro H. unfold validateBusinessRules. cbn [validationErrors].
  destruct (findAccount accounts (debitAccount parsed));
    destruct (findAccount accounts (creditAccount parsed));
    repeat (apply pushWhen_mapped; [discriminate|]); assumption.
Qed.

Lemma primary_error_exists (errs : list Violation) :
  errs <> [] -> Forall mapped errs ->
  exists e, selectPrimaryError errs = Some e /\ In e errs
    /\ forall x, In x errs -> rank e <= rank x.
Proof.
  intros Hne Hall. destruct errs as [|x rest]; [contradiction|].
  destruct (select_first_least (x :: rest)) as
    (pre & e & post & Hsplit & Hsel & Hpre & Hpost).
  { exists x. split; [now left|]. now inversion Hall. }
  exists e. split; [assumption|]. rewrite Hsplit. split.
  - apply in_or_app. right. now left.
  - intros y Hy. apply in_app_or in Hy as [Hy|[<-|Hy]];
      [apply Hpre in Hy; lia | lia | now apply Hpost].
Qed.

(** ** Failure responses *)

Lemma involvedAccounts_filter (parsed : ParseResult) (accounts : list Account) :
  involvedAccounts parsed accounts
  = map unchangedView (filter (fun a => involved parsed (id a)) accounts).
Proof.
  induction accounts as [|a rest IH]; [reflexivity|].
  cbn [involvedAccounts map filter]. fold (involved parsed (id a)).
  destruct (involved parsed (id a)); cbn [map View.id unchangedView];
    now rewrite IH.
Qed.

Lemma involvedAccounts_ids (parsed : ParseResult) (accounts : list Account) :
  map View.id (involvedAccounts parsed accounts)
  = filter (involved parsed) (map id accounts).
Proof.
  induction accounts as [|a rest IH]; [reflexivity|].
  cbn [involvedAccounts map filter]. fold (involved parsed (id a)).
  destruct (involved parsed (id a)); cbn [map View.id unchangedView];
    now rewrite IH.
Qed.

Lemma length_positive {A : Type} (l : list A) :
  l <> [] -> (0 <? List.length l)%nat = true.
Proof. destruct l; [contradiction | reflexivity]. Qed.

(** The failure branch of the orchestrator, by the code of the primary
    error. *)
Lemma failure_run (now : JSDate.UTCFields) (accounts : list Account)
    (instruction : string) (error : Violation) :
  let parsed := parseWithStateMachine (tokenize instruction) in
  let validation := validateBusinessRules parsed accounts in
  validationErrors validation <> [] ->
  selectPrimaryError (validationErrors validation) = Some error ->
  parseInstruction now accounts instruction
  = if String.eqb (code error) STATUS_CODES.MALFORMED
       || String.eqb (code error) STATUS_CODES.MISSING_KEYWORD
       || String.eqb (code error) STATUS_CODES.INVALID_ORDER
    then nullResponse (message error) (code error)
    else Response.mk (type parsed) (amount parsed) (parsedCurrency parsed)
           (debitAccount parsed) (creditAccount parsed) (executeBy parsed)
           "failed" (message error) (code error)
           (involvedAccounts parsed accounts).
Proof.
  intros parsed validation Hne Hsel.
  unfold parseInstruction, tryBlock. fold parsed. fold validation.
  rewrite (length_positive _ Hne), Hsel.
  now destruct (String.eqb (code error) STATUS_CODES.MALFORMED
                || String.eqb (code error) STATUS_CODES.MISSING_KEYWORD
                || String.eqb (code error) STATUS_CODES.INVALID_ORDER).
Qed.

Lemma unparseable_test (errorCode : string) :
  String.eqb errorCode STATUS_CODES.MALFORMED
  || String.eqb errorCode STATUS_CODES.MISSING_KEYWORD
  || String.eqb errorCode STATUS_CODES.INVALID_ORDER = true
  <-> unparseable errorCode.
Proof.
  unfold unparseable. rewrite !orb_true_iff, !String.eqb_eq. tauto.
Qed.

(** C4. When the primary error is SY03, SY01 or SY02, the response has
    every parsed field null and no account view.  For any other primary
    error the response echoes the parsed type, amount, currency, account
    ids and date, and its views are those of the input accounts under the
    two parsed ids, each with [balance] and [balance_before] equal to the
    input balance. *)
Theorem failure_response_shape (now : JSDate.UTCFields) (accounts : list Account)
    (instruction : string) (error : Violation) :
  let parsed := parseWithStateMachine (tokenize instruction) in
  let validation := validateBusinessRules parsed accounts in
  let response := parseInstruction now accounts instruction in
  validationErrors validation <> [] ->
  selectPrimaryError (validationErrors validation) = Some error ->
  Response.status response = "failed"
  /\ Response.status_code response = code error
  /\ Response.status_reason response = message error
  /\ (unparseable (code error) ->
      Response.type response = None
      /\ Response.amount response = None
      /\ Response.currency response = None
      /\ Response.debit_account response = None
      /\ Response.credit_account response = None
      /\ Response.execute_by response = None
      /\ Response.accounts response = [])
  /\ (~ unparseable (code error) ->
      Response.type response = type parsed
      /\ Response.amount response = amount parsed
      /\ Response.currency response = parsedCurrency parsed
      /\ Response.debit_account response = debitAccount parsed
      /\ Response.credit_account response = creditAccount parsed
      /\ Response.execute_by response = executeBy parsed
      /\ Response.accounts response
         = map unchangedView (filter (fun a => involved parsed (id a)) accounts)
      /\ forall v, In v (Response.accounts response) ->
           exists a, In a accounts /\ involved parsed (id a) = true
             /\ View.id v = id a
             /\ View.balance v = balance a
             /\ View.balance_before v = balance a).
Proof.
  intros parsed validation response Hne Hsel.
  unfold response. rewrite (failure_run now accounts instruction error Hne Hsel).
  fold parsed.
  destruct (String.eqb (code error) STATUS_CODES.MALFORMED
            || String.eqb (code error) STATUS_CODES.MISSING_KEYWORD
            || String.eqb (code error) STATUS_CODES.INVALID_ORDER) eqn:Htest.
  - apply unparseable_test in Htest.
    repeat (split; [reflexivity|]). split.
    + intros _. repeat split.
    + intro Hnot. contradiction.
  - repeat (split; [reflexivity|]). split.
    + intro Hun. apply unparseable_test in Hun. congruence.
    + intros _. cbn [Response.type Response.amount Response.currency
        Response.debit_account Response.credit_account Response.execute_by
        Response.accounts].
      repeat (split; [reflexivity|]).
      rewrite involvedAccounts_filter. split; [reflexivity|].
      intros v Hv. apply in_map_iff in Hv as (a & <- & Ha).
      apply filter_In in Ha as [Hin Hinv].
      exists a. repeat split; assumption.
Qed.

(** ** The account views of a response *)

Lemma settledViews_viewOf (isPending : bool) (parsed : ParseResult)
    (debit credit : Account) (accounts : list Account) :
  Forall2 viewOf (settledViews isPending parsed debit credit accounts)
    (filter (fun a => String.eqb (id a) (id debit) || String.eqb (id a) (id credit))
       accounts).
Proof.
  induction accounts as [|a rest IH]; cbn [settledViews filter]; [constructor|].
  destruct (String.eqb (id a) (id debit)); cbn [orb].
  - constructor; [now repeat split | assumption].
  - destruct (String.eqb (id a) (id credit)).
    + constructor; [now repeat split | assumption].
    + assumption.
Qed.

Lemma involvedAccounts_viewOf (parsed : ParseResult) (accounts : list Account) :
  Forall2 viewOf (involvedAccounts parsed accounts)
    (filter (fun a => involved parsed (id a)) accounts).
Proof.
  induction accounts as [|a rest IH]; cbn [involvedAccounts filter]; [constructor|].
  fold (involved parsed (id a)).
  destruct (involved parsed (id a)); [|assumption].
  constructor; [now repeat split | assumption].
Qed.

Lemma filter_map_id (p : string -> bool) (accounts : list Account) :
  map id (filter (fun a => p (id a)) accounts) = filter p (map id accounts).
Proof.
  induction accounts as [|a rest IH]; simpl; [reflexivity|].
  destruct (p (id a)); simpl; now rewrite IH.
Qed.

Lemma involved_incl (parsed : ParseResult) (ids : list string) :
  incl (filter (involved parsed) ids)
    (optionList (debitAccount parsed) ++ optionList (creditAccount parsed)).
Proof.
  intros i Hi. apply filter_In in Hi as [_ Hi]. unfold involved in Hi.
  apply orb_true_iff in Hi as [Hi|Hi]; apply strictEq_true in Hi;
    rewrite <- Hi; apply in_or_app; [left|right]; now left.
Qed.

(** Among pairwise distinct ids at most two are involved. *)
Lemma involved_at_most_two (parsed : ParseResult) (ids : list string) :
  NoDup ids -> (List.length (filter (involved parsed) ids) <= 2)%nat.
Proof.
  intro Hnd.
  apply Nat.le_trans with
    (List.length (optionList (debitAccount parsed)
                  ++ optionList (creditAccount parsed))).
  - apply NoDup_incl_length; [now apply NoDup_filter | apply involved_incl].
  - rewrite length_app.
    destruct (debitAccount parsed), (creditAccount parsed); simpl; lia.
Qed.

(** Two distinct ids that both occur among pairwise distinct ids give
    exactly two involved ids. *)
Lemma involved_exactly_two (parsed : ParseResult) (ids : list string) (x y : string) :
  NoDup ids ->
  debitAccount parsed = Some x -> creditAccount parsed = Some y -> x <> y ->
  In x ids -> In y ids ->
  List.length (filter (involved parsed) ids) = 2%nat.
Proof.
  intros Hnd Hd Hc Hne Hx Hy.
  apply Nat.le_antisymm; [now apply involved_at_most_two|].
  change 2%nat with (List.length [x; y]).
  apply NoDup_incl_length.
  - constructor; [|constructor; [intros []|constructor]].
    intros [H|[]]. now apply Hne.
  - intros i [<-|[<-|[]]]; apply filter_In; (split; [assumption|]);
      unfold involved; rewrite Hd, Hc; simpl; rewrite String.eqb_refl;
      [reflexivity | apply orb_true_r].
Qed.

Lemma views_length (parsed : ParseResult) (accounts : list Account)
    (views : list View.t) :
  Forall2 viewOf views (filter (fun a => involved parsed (id a)) accounts) ->
  List.length views = List.length (filter (involved parsed) (map id accounts)).
Proof.
  intro H. apply Forall2_length in H. rewrite H.
  now rewrite <- filter_map_id, length_map.
Qed.

(** The account views of any response, against the input list. *)
Lemma response_views (now : JSDate.UTCFields) (accounts : list Account)
    (instruction : string) :
  let parsed := parseWithStateMachine (tokenize instruction) in
  let response := parseInstruction now accounts instruction in
  (Response.status response = "failed"
   /\ unparseable (Response.status_code response)
   /\ Response.accounts response = [])
  \/ (Response.status response = "failed"
      /\ ~ unparseable (Response.status_code response)
      /\ Forall2 viewOf (Response.accounts response)
           (filter (fun a => involved parsed (id a)) accounts))
  \/ (Response.status response <> "failed"
      /\ ~ unparseable (Response.status_code response)
      /\ Forall2 viewOf (Response.accounts response)
           (filter (fun a => involved parsed (id a)) accounts)
      /\ exists x y,
           debitAccount parsed = Some x /\ creditAccount parsed = Some y
           /\ x <> y /\ In x (map id accounts) /\ In y (map id accounts)).
Proof.
  intros parsed response.
  destruct (validationErrors (validateBusinessRules parsed accounts)) eqn:Herrs.
  - right. right.
    destruct (clean_run now accounts instruction Herrs)
      as (debit & credit & n & Hvd & Hvc & Hind & Hinc & Hidd & Hidc & Hne & Hn
          & Hpos & Hresp).
    fold parsed in Hidd, Hidc, Hresp. unfold response. rewrite Hresp.
    cbn [Response.status Response.status_code Response.accounts].
    split; [|split; [|split]].
    + destruct (pendingFlag now parsed); discriminate.
    + destruct (pendingFlag now parsed); intros [H|[H|H]]; discriminate H.
    + rewrite (filter_ext (fun a => involved parsed (id a))
                 (fun a => String.eqb (id a) (id debit)
                           || String.eqb (id a) (id credit))).
      * apply settledViews_viewOf.
      * intro a. unfold involved. now rewrite Hidd, Hidc.
    + exists (id debit), (id credit).
      repeat split; auto using in_map.
  - assert (Hne : validationErrors (validateBusinessRules parsed accounts) <> [])
      by (rewrite Herrs; discriminate).
    destruct (primary_error_exists _ Hne) as (e & Hsel & _).
    { apply validate_mapped, parse_mapped. }
    unfold response.
    rewrite (failure_run now accounts instruction e Hne Hsel). fold parsed.
    destruct (String.eqb (code e) STATUS_CODES.MALFORMED
              || String.eqb (code e) STATUS_CODES.MISSING_KEYWORD
              || String.eqb (code e) STATUS_CODES.INVALID_ORDER) eqn:Htest.
    + left. apply unparseable_test in Htest. now repeat split.
    + right. left. cbn [Response.status Response.status_code Response.accounts].
      split; [reflexivity|]. split.
      * intro Hun. apply unparseable_test in Hun. congruence.
      * apply involvedAccounts_viewOf.
Qed.

(** C5. The account views of a response are none when its status code
    is SY03, SY01 or SY02; with any other status code they stand, in input
    order, for exactly the input accounts whose id is the parsed debit or
    credit id.  With pairwise distinct input ids there are at most two
    views, and exactly two when the instruction did not fail. *)
Theorem response_accounts_order (now : JSDate.UTCFields) (accounts : list Account)
    (instruction : string) :
  let parsed := parseWithStateMachine (tokenize instruction) in
  let response := parseInstruction now accounts instruction in
  (unparseable (Response.status_code response) -> Response.accounts response = [])
  /\ (~ unparseable (Response.status_code response) ->
      Forall2 viewOf (Response.accounts response)
        (filter (fun a => involved parsed (id a)) accounts))
  /\ (NoDup (map id accounts) ->
      (List.length (Response.accounts response) <= 2)%nat)
  /\ (NoDup (map id accounts) -> Response.status response <> "failed" ->
      List.length (Response.accounts response) = 2%nat).
Proof.
  intros parsed response.
  destruct (response_views now accounts instruction)
    as [(Hst & Hun & Hacc)|[(Hst & Hun & Hviews)|(Hst & Hun & Hviews & x & y & Hx
        & Hy & Hne & Hinx & Hiny)]];
    fold parsed in Hviews || idtac; fold response in Hst, Hun.
  - fold response in Hacc.
    split; [intros _; exact Hacc|]. split; [intro Hnot; contradiction|].
    rewrite Hacc. split; [simpl; lia | intros _ Hok; contradiction].
  - fold response in Hviews.
    split; [intro Hyes; contradiction|]. split; [intros _; exact Hviews|]. split.
    + intro Hnd. rewrite (views_length parsed accounts _ Hviews).
      now apply involved_at_most_two.
    + intros _ Hok. contradiction.
  - fold response in Hviews. fold parsed in Hx, Hy.
    split; [intro Hyes; contradiction|]. split; [intros _; exact Hviews|].
    rewrite (views_length parsed accounts _ Hviews). split.
    + intro Hnd. now apply involved_at_most_two.
    + intros Hnd _. now apply (involved_exactly_two parsed _ x y).
Qed.

(** ** The amount slot and the end of the tokens *)

Lemma step_TYPE_rejected (result : ParseResult) (token : string) :
  rejectedAmount token ->
  step States.TYPE result token
  = Next States.AMOUNT (pushError result Violations.INVALID_AMOUNT).
Proof.
  intros [Hdot|[Hnan|(n & Hn & Hle)]]; unfold step.
  - now rewrite Hdot.
  - rewrite Hnan. now destruct (JS.includes token ".").
  - rewrite Hn. destruct (JS.includes token "."); [reflexivity|].
    now replace (n <=? 0) with true by (symmetry; now apply Z.leb_le).
Qed.

(** From the AMOUNT state on no turn writes the amount. *)
Lemma step_amount_kept (s : States.t) (r : ParseResult) (token : string) :
  2 <= stateIndex s -> amount (turnResult (step s r token)) = amount r.
Proof.
  destruct s; simpl; intro H; try (exfalso; lia);
    unfold step; split_ifs; reflexivity.
Qed.

Lemma whileLoop_amount_kept (tokens : list string) (s : States.t) (r : ParseResult) :
  2 <= stateIndex s ->
  match whileLoop s r tokens with
  | Fallthrough _ r' => amount r' = amount r
  | Returned r' => amount r' = amount r
  end.
Proof.
  intro Hidx.
  pose proof (whileLoop_invariant
                (fun s' r' => 2 <= stateIndex s' /\ amount r' = amount r)
                (fun r' => amount r' = amount r)
                (fun _ => True)) as H.
  cbv beta in H.
  assert (Hnext : forall s0 r0 token s' r',
             True -> 2 <= stateIndex s0 /\ amount r0 = amount r ->
             step s0 r0 token = Next s' r' ->
             2 <= stateIndex s' /\ amount r' = amount r).
  { intros s0 r0 token s' r' _ [Hi Ha] Hstep. split.
    - rewrite (step_Next_index _ _ _ _ _ Hstep). lia.
    - pose proof (step_amount_kept s0 r0 token Hi) as Hk.
      rewrite Hstep in Hk. simpl in Hk. congruence. }
  assert (Hret : forall s0 r0 token r',
             True -> 2 <= stateIndex s0 /\ amount r0 = amount r ->
             step s0 r0 token = Return r' -> amount r' = amount r).
  { intros s0 r0 token r' _ [Hi Ha] Hstep.
    pose proof (step_amount_kept s0 r0 token Hi) as Hk.
    rewrite Hstep in Hk. simpl in Hk. congruence. }
  specialize (H Hnext Hret tokens s r (Forall_True tokens) (conj Hidx eq_refl)).
  destruct (whileLoop s r tokens); tauto.
Qed.

Lemma afterLoop_keeps (s : States.t) (r : ParseResult) :
  amount (afterLoop s r) = amount r
  /\ exists extra, errors (afterLoop s r) = errors r ++ extra.
Proof.
  unfold afterLoop. split_ifs; cbn [amount errors pushError]; split;
    try reflexivity; eauto using app_nil_r.
  all: exists []; now rewrite app_nil_r.
Qed.

(** The primary error of a list that holds INVALID_AMOUNT and none of the
    three syntax codes is INVALID_AMOUNT. *)
Lemma primary_invalid_amount (errs : list Violation) :
  Forall mapped errs ->
  In Violations.INVALID_AMOUNT errs ->
  (forall v, In v errs -> ~ unparseable (code v)) ->
  exists e, selectPrimaryError errs = Some e /\ code e = STATUS_CODES.INVALID_AMOUNT.
Proof.
  intros Hall Hin Hsyn.
  destruct (primary_error_exists errs) as (e & Hsel & He & Hleast);
    [intros ->; destruct Hin | assumption |].
  exists e. split; [assumption|].
  specialize (Hleast _ Hin). specialize (Hsyn e He).
  change (rank Violations.INVALID_AMOUNT) with 4 in Hleast.
  pose proof (rank_bounds e) as Hb.
  assert (Hcases : rank e = 1 \/ rank e = 2 \/ rank e = 3 \/ rank e = 4) by lia.
  destruct Hcases as [H|[H|[H|H]]].
  - exfalso. apply Hsyn. left. apply rank_code; [discriminate | exact H].
  - exfalso. apply Hsyn. right. left. apply rank_code; [discriminate | exact H].
  - exfalso. apply Hsyn. right. right. apply rank_code; [discriminate | exact H].
  - apply rank_code; [discriminate | exact H].
Qed.

Lemma validationErrors_prefix (parsed : ParseResult) (accounts : list Account) :
  validationErrors (validateBusinessRules parsed accounts)
  = errors parsed ++ emitted parsed accounts.
Proof.
  unfold emitted.
  assert (H : exists extra,
             validationErrors (validateBusinessRules parsed accounts)
             = errors parsed ++ extra).
  { unfold validateBusinessRules. cbn [validationErrors].
    destruct (findAccount accounts (debitAccount parsed));
      destruct (findAccount accounts (creditAccount parsed));
      rewrite !pushWhen_app, <- !app_assoc; eauto. }
  destruct H as [extra ->].
  now rewrite skipn_app, Nat.sub_diag, skipn_all.
Qed.

(** The errors present where the loop falls through before the DATE
    state, from START and the empty result, whatever the tokens. *)
Lemma whileLoop_errorsInv (tokens : list string) (s : States.t) (r : ParseResult) :
  whileLoop States.START initialResult tokens = Fallthrough s r -> errorsInv s r.
Proof.
  intro Hloop.
  pose proof (whileLoop_invariant errorsInv (fun _ => True) (fun _ => True)
                (fun s0 r0 token s' r' _ Hinv Hstep =>
                   step_errorsInv s0 s' r0 r' token Hinv Hstep)
                (fun _ _ _ _ _ _ _ => I)
                tokens States.START initialResult (Forall_True tokens)) as H.
  rewrite Hloop in H. apply H.
  unfold errorsInv; simpl. repeat split; intros; try lia; auto.
Qed.

(** C7. When the tokens end in a state other than
    SECOND_ACCOUNT and DATE, the parse result holds exactly one syntax
    error: MALFORMED when no error was recorded before, and otherwise the
    INVALID_AMOUNT recorded by the TYPE state, to which no MALFORMED is
    added. *)
Theorem exhausted_tokens (tokens : list string) (s : States.t) (r : ParseResult) :
  whileLoop States.START initialResult tokens = Fallthrough s r ->
  s <> States.SECOND_ACCOUNT -> s <> States.DATE ->
  (errors r = []
   /\ errors (parseWithStateMachine tokens) = [Violations.MALFORMED])
  \/ (errors r = [Violations.INVALID_AMOUNT]
      /\ errors (parseWithStateMachine tokens) = [Violations.INVALID_AMOUNT]).
Proof.
  intros Hloop Hs1 Hs2.
  destruct (whileLoop_errorsInv tokens s r Hloop) as (Hlt & _ & Hone).
  unfold parseWithStateMachine. rewrite Hloop.
  assert (Hidx : stateIndex s <= 12).
  { destruct s; simpl in *; try lia; congruence. }
  destruct (Hone Hidx) as [He|He]; [left|right]; (split; [exact He|]);
    destruct s; try congruence; try (simpl in Hlt; lia);
    unfold afterLoop; cbn [States.eqb orb negb]; rewrite He;
    cbn [List.length Nat.eqb errors pushError]; rewrite ?He; reflexivity.
Qed.

(** ** What the validator emits *)

Lemma pushWhen_pushed (cond : bool) (v : Violation) (errs : list Violation) :
  pushWhen cond v errs = errs ++ pushed cond v.
Proof. apply pushWhen_app. Qed.

(** The violations pushed by the validator, rule by rule, in the order
    of the code. *)
Lemma emitted_rules (parsed : ParseResult) (accounts : list Account) :
  emitted parsed accounts
  = pushed (JS.truthy (debitAccount parsed)
            && negb (isValidAccountId (orEmpty (debitAccount parsed))))
      (Violations.INVALID_ACCOUNT_ID (orEmpty (debitAccount parsed)))
    ++ pushed (JS.truthy (creditAccount parsed)
               && negb (isValidAccountId (orEmpty (creditAccount parsed))))
         (Violations.INVALID_ACCOUNT_ID (orEmpty (creditAccount parsed)))
    ++ pushed (JS.strictEq (debitAccount parsed) (creditAccount parsed))
         Violations.SAME_ACCOUNT
    ++ pushed (JS.truthy (parsedCurrency parsed)
               && negb (existsb (String.eqb (orEmpty (parsedCurrency parsed)))
                          SUPPORTED_CURRENCIES))
         Violations.UNSUPPORTED_CURRENCY
    ++ pushed (JS.truthy (debitAccount parsed)
               && negb (isSome (findAccount accounts (debitAccount parsed))))
         (Violations.ACCOUNT_NOT_FOUND (orEmpty (debitAccount parsed)))
    ++ pushed (JS.truthy (creditAccount parsed)
               && negb (isSome (findAccount accounts (creditAccount parsed))))
         (Violations.ACCOUNT_NOT_FOUND (orEmpty (creditAccount parsed)))
    ++ match findAccount accounts (debitAccount parsed),
             findAccount accounts (creditAccount parsed) with
       | Some d, Some c =>
           pushed (negb (String.eqb (currency d) (currency c)))
             Violations.CURRENCY_MISMATCH
           ++ pushed (JS.truthy (parsedCurrency parsed)
                      && negb (String.eqb (JS.toUpperCase (currency d))
                                 (orEmpty (parsedCurrency parsed))))
                (Violations.CURRENCY_MISMATCH_INSTRUCTION
                   (orEmpty (parsedCurrency parsed)) (currency d))
           ++ pushed (truthyNumber (amount parsed)
                      && (balance d <? toNumber (amount parsed)))
                (Violations.INSUFFICIENT_FUNDS d (toNumber (amount parsed)))
       | _, _ => []
       end.
Proof.
  apply (app_inv_head (errors parsed)).
  rewrite <- validationErrors_prefix.
  unfold validateBusinessRules. cbn [validationErrors].
  destruct (findAccount accounts (debitAccount parsed));
    destruct (findAccount accounts (creditAccount parsed));
    rewrite !pushWhen_pushed, ?app_nil_r, <- !app_assoc; reflexivity.
Qed.

Ltac in_pushed H :=
  repeat match type of H with
    | In _ (_ ++ _) => apply in_app_or in H as [H|H]
    | In _ (pushed ?c _) => unfold pushed in H; destruct c eqn:?
    | In _ (match ?x with Some _ => _ | None => _ end) => destruct x eqn:?
    | In _ (_ :: _) => destruct H as [H|H]
    | In _ [] => destruct H
    end.

(** C8. The validator pushes a SAME_ACCOUNT violation exactly when the
    debit id and the credit id of the parse result are strictly equal,
    two nulls included: with both ids null the violation is pushed. *)
Theorem same_account_rule (parsed : ParseResult) (accounts : list Account) :
  (hasCode STATUS_CODES.SAME_ACCOUNT (emitted parsed accounts)
   <-> debitAccount parsed = creditAccount parsed)
  /\ (In Violations.SAME_ACCOUNT (emitted parsed accounts)
      <-> debitAccount parsed = creditAccount parsed)
  /\ (debitAccount parsed = None -> creditAccount parsed = None ->
      In Violations.SAME_ACCOUNT (emitted parsed accounts))
  /\ validationErrors (validateBusinessRules parsed accounts)
     = errors parsed ++ emitted parsed accounts.
Proof.
  assert (Hfire : debitAccount parsed = creditAccount parsed ->
                  In Violations.SAME_ACCOUNT (emitted parsed accounts)).
  { intro Heq. apply strictEq_true in Heq. rewrite emitted_rules, Heq.
    do 2 (apply in_or_app; right). apply in_or_app. left. now left. }
  assert (Honly : hasCode STATUS_CODES.SAME_ACCOUNT (emitted parsed accounts) ->
                  debitAccount parsed = creditAccount parsed).
  { intros (v & Hin & Hcode). rewrite emitted_rules in Hin.
    in_pushed Hin; subst v; try discriminate Hcode.
    now apply strictEq_true. }
  repeat split.
  - exact Honly.
  - intro Heq. exists Violations.SAME_ACCOUNT. split; [now apply Hfire|reflexivity].
  - intro Hin. apply Honly. exists Violations.SAME_ACCOUNT. now split.
  - exact Hfire.
  - intros Hd Hc. apply Hfire. now rewrite Hd, Hc.
  - apply validationErrors_prefix.
Qed.

(** ** Currency checks *)

Lemma toUpperChar_idempotent (c : ascii) :
  JS.toUpperChar (JS.toUpperChar c) = JS.toUpperChar c.
Proof.
  destruct c as [[] [] [] [] [] [] [] []]; reflexivity.
Qed.

Lemma toUpperCase_idempotent (s : string) :
  JS.toUpperCase (JS.toUpperCase s) = JS.toUpperCase s.
Proof.
  induction s as [|c s IH]; simpl; [reflexivity|].
  now rewrite toUpperChar_idempotent, IH.
Qed.

(** The currency of a parse result is in upper case. *)
Lemma parsed_currency_upper (tokens : list string) (cur : string) :
  parsedCurrency (parseWithStateMachine tokens) = Some cur ->
  JS.toUpperCase cur = cur.
Proof.
  set (P := fun r : ParseResult =>
              forall c, parsedCurrency r = Some c -> JS.toUpperCase c = c).
  assert (Hstep : forall s r token, P r -> P (turnResult (step s r token))).
  { intros s r token Hr c.
    destruct s; unfold step; split_ifs;
      cbn [turnResult parsedCurrency pushError setType setAmount setCurrency
           setDebitAccount setCreditAccount setExecuteBy];
      try apply Hr.
    intro H. injection H as <-. apply toUpperCase_idempotent. }
  pose proof (whileLoop_invariant (fun _ r => P r) P (fun _ => True)) as H.
  cbv beta in H.
  specialize (H (fun s r token s' r' _ Hr Hs =>
                   eq_ind _ (fun t => P (turnResult t)) (Hstep s r token Hr) _ Hs)
                (fun s r token r' _ Hr Hs =>
                   eq_ind _ (fun t => P (turnResult t)) (Hstep s r token Hr) _ Hs)
                tokens States.START initialResult (Forall_True tokens)).
  unfold parseWithStateMachine.
  destruct (whileLoop States.START initialResult tokens) as [s r|r].
  - intro Hc. apply H; [intros c Hnone; discriminate Hnone|].
    revert Hc. unfold afterLoop. split_ifs; auto.
  - apply H. intros c Hnone. discriminate Hnone.
Qed.

(** C10. With both accounts found, the validator pushes the
    account-to-account CURRENCY_MISMATCH exactly when the two currency
    strings differ, so also when they differ only in letter case; the
    instruction-to-account check compares the upper-cased account currency
    with the (upper-case) instruction currency, so it pushes nothing when
    the two differ only in letter case, and pushes its violation when they
    differ otherwise. *)
Theorem currency_checks (parsed : ParseResult) (accounts : list Account)
    (d c : Account) :
  findAccount accounts (debitAccount parsed) = Some d ->
  findAccount accounts (creditAccount parsed) = Some c ->
  (currency d <> currency c <->
   In Violations.CURRENCY_MISMATCH (emitted parsed accounts))
  /\ (JS.toUpperCase (currency d) = JS.toUpperCase (currency c) ->
      currency d <> currency c ->
      hasCode STATUS_CODES.CURRENCY_MISMATCH (emitted parsed accounts))
  /\ (forall cur,
         parsedCurrency parsed = Some cur -> JS.toUpperCase cur = cur ->
         JS.toUpperCase (currency d) = JS.toUpperCase cur ->
         forall v, In v (emitted parsed accounts) ->
                   code v = STATUS_CODES.CURRENCY_MISMATCH ->
                   v = Violations.CURRENCY_MISMATCH /\ currency d <> currency c)
  /\ (forall cur,
         parsedCurrency parsed = Some cur -> cur <> EmptyString ->
         JS.toUpperCase (currency d) <> cur ->
         In (Violations.CURRENCY_MISMATCH_INSTRUCTION cur (currency d))
            (emitted parsed accounts)).
Proof.
  intros Hd Hc.
  assert (Hfire : currency d <> currency c ->
                  In Violations.CURRENCY_MISMATCH (emitted parsed accounts)).
  { intro Hne. rewrite emitted_rules, Hd, Hc.
    do 6 (apply in_or_app; right). apply in_or_app. left.
    apply String.eqb_neq in Hne. rewrite Hne. now left. }
  split; [split; [exact Hfire|]|split; [|split]].
  - rewrite emitted_rules, Hd, Hc. intros Hin Heq.
    in_pushed Hin; try discriminate Hin.
    apply String.eqb_eq in Heq.
    match goal with E : negb _ = true |- _ => rewrite Heq in E; discriminate E end.
  - intros _ Hne. exists Violations.CURRENCY_MISMATCH. split; [auto|reflexivity].
  - intros cur Hcur Hupper Hsame v Hin Hcode.
    rewrite emitted_rules, Hd, Hc, Hcur in Hin. cbn [orEmpty] in Hin.
    rewrite Hsame, Hupper, String.eqb_refl in Hin.
    cbn [negb] in Hin. rewrite andb_false_r in Hin.
    in_pushed Hin; subst v; try discriminate Hcode;
      try match goal with
        | E : _ && false = true |- _ => rewrite andb_false_r in E; discriminate E
        end.
    split; [reflexivity|].
    apply String.eqb_neq.
    match goal with E : negb _ = true |- _ => now apply negb_true_iff in E end.
  - intros cur Hcur Hne Hdiff. rewrite emitted_rules, Hd, Hc, Hcur.
    cbn [orEmpty]. do 6 (apply in_or_app; right).
    apply in_or_app. right. apply in_or_app. left.
    rewrite (truthy_of_nonempty cur Hne).
    apply String.eqb_neq in Hdiff. rewrite Hdiff. now left.
Qed.

(** ** Blank instructions *)

(** C9. For an instruction that is empty or holds whitespace only the
    tokenizer yields no token, and the response is the failed one with
    code SY03, every parsed field null and no account view. *)
Theorem blank_instruction (now : JSDate.UTCFields) (accounts : list Account)
    (instruction : string) :
  let response := parseInstruction now accounts instruction in
  allWhiteSpace instruction = true ->
  tokenize instruction = []
  /\ Response.status response = "failed"
  /\ Response.status_code response = "SY03"
  /\ Response.status_reason response = PaymentMessages.MALFORMED_INSTRUCTION
  /\ Response.type response = None
  /\ Response.amount response = None
  /\ Response.currency response = None
  /\ Response.debit_account response = None
  /\ Response.credit_account response = None
  /\ Response.execute_by response = None
  /\ Response.accounts response = [].
Proof.
  intros response Hblank.
  pose proof (tokenize_allWhiteSpace instruction Hblank) as Htok.
  split; [exact Htok|].
  assert (Hresp : response
                  = nullResponse PaymentMessages.MALFORMED_INSTRUCTION "SY03").
  { unfold response, parseInstruction, tryBlock. rewrite Htok.
    change (parseWithStateMachine [])
      with (pushError initialResult Violations.MALFORMED).
    unfold validateBusinessRules.
    cbn [debitAccount creditAccount pushError initialResult].
    rewrite findAccount_null. reflexivity. }
  rewrite Hresp. repeat split.
Qed.

(** ** The exception handler *)

(** The [try] block never throws: the [catch] branch is not entered. *)
Lemma tryBlock_total (now : JSDate.UTCFields) (accounts : list Account)
    (instruction : string) :
  tryBlock now accounts instruction <> None.
Proof.
  unfold tryBlock.
  set (parsed := parseWithStateMachine (tokenize instruction)).
  destruct (validationErrors (validateBusinessRules parsed accounts)) eqn:Herrs.
  - destruct (clean_run now accounts instruction Herrs)
      as (debit & credit & n & Hvd & Hvc & _).
    fold parsed in Hvd, Hvc. cbn [List.length Nat.ltb Nat.leb].
    rewrite (processedAccounts_found _ _ _ debit credit accounts Hvd Hvc).
    discriminate.
  - assert (Hne : validationErrors (validateBusinessRules parsed accounts) <> [])
      by (rewrite Herrs; discriminate).
    destruct (primary_error_exists _ Hne) as (e & Hsel & _).
    { apply validate_mapped, parse_mapped. }
    rewrite <- Herrs, (length_positive _ Hne), Hsel.
    destruct (String.eqb (code e) STATUS_CODES.MALFORMED
              || String.eqb (code e) STATUS_CODES.MISSING_KEYWORD
              || String.eqb (code e) STATUS_CODES.INVALID_ORDER); discriminate.
Qed.

(** ** The tokenizer and the words of the instruction *)

Lemma append_nil_r (s : string) : (s ++ EmptyString)%string = s.
Proof. induction s as [|c s IH]; simpl; [reflexivity | now rewrite IH]. Qed.

Lemma append_assoc (a b c : string) :
  ((a ++ b) ++ c)%string = (a ++ (b ++ c))%string.
Proof. induction a as [|x a IH]; simpl; [reflexivity | now rewrite IH]. Qed.

Lemma length_append (a b : string) :
  String.length (a ++ b)%string = (String.length a + String.length b)%nat.
Proof. induction a as [|x a IH]; simpl; [reflexivity | now rewrite IH]. Qed.

Lemma reverse_append (acc s : string) :
  JS.reverse acc s = (JS.reverse EmptyString s ++ acc)%string.
Proof.
  revert acc. induction s as [|c s IH]; intro acc; simpl; [reflexivity|].
  rewrite (IH (String c acc)), (IH (String c EmptyString)), append_assoc.
  reflexivity.
Qed.

Lemma reverse_of_append (a b : string) :
  JS.reverse EmptyString (a ++ b)%string
  = (JS.reverse EmptyString b ++ JS.reverse EmptyString a)%string.
Proof.
  induction a as [|c a IH]; simpl; [now rewrite append_nil_r|].
  rewrite (reverse_append (String c EmptyString) (a ++ b)), IH,
    (reverse_append (String c EmptyString) a).
  now rewrite append_assoc.
Qed.

Lemma reverse_involutive (s : string) :
  JS.reverse EmptyString (JS.reverse EmptyString s) = s.
Proof.
  induction s as [|c s IH]; simpl; [reflexivity|].
  rewrite (reverse_append (String c EmptyString) s), reverse_of_append, IH.
  reflexivity.
Qed.

Lemma allWhiteSpace_append (a b : string) :
  allWhiteSpace (a ++ b)%string = allWhiteSpace a && allWhiteSpace b.
Proof.
  induction a as [|c a IH]; simpl; [reflexivity|].
  now rewrite IH, andb_assoc.
Qed.

Lemma allWhiteSpace_reverse (s : string) :
  allWhiteSpace (JS.reverse EmptyString s) = allWhiteSpace s.
Proof.
  induction s as [|c s IH]; simpl; [reflexivity|].
  rewrite (reverse_append (String c EmptyString) s), allWhiteSpace_append, IH.
  simpl. now rewrite andb_true_r, andb_comm.
Qed.

(** [trimStart] removes a whitespace prefix, [trimEnd] a whitespace
    suffix. *)
Lemma trimStart_split (s : string) :
  exists w, allWhiteSpace w = true /\ s = (w ++ JS.trimStart s)%string.
Proof.
  induction s as [|c s (w & Hw & Hs)]; simpl.
  - now exists EmptyString.
  - destruct (JS.isWhiteSpace c) eqn:Hc.
    + exists (String c w). simpl. rewrite Hc, Hw. split; [reflexivity|].
      now rewrite <- Hs.
    + now exists EmptyString.
Qed.

Lemma trimEnd_split (s : string) :
  exists w, allWhiteSpace w = true /\ s = (JS.trimEnd s ++ w)%string.
Proof.
  destruct (trimStart_split (JS.reverse EmptyString s)) as (w & Hw & Hs).
  exists (JS.reverse EmptyString w). split.
  - now rewrite allWhiteSpace_reverse.
  - unfold JS.trimEnd. rewrite <- reverse_of_append, <- Hs.
    now rewrite reverse_involutive.
Qed.

(** Whitespace after the last word, or before the first, adds no word. *)
Lemma wordsFrom_blank (word w : string) :
  allWhiteSpace w = true ->
  wordsFrom word w = if (0 <? String.length word)%nat then [word] else [].
Proof.
  revert word. induction w as [|c w IH]; intros word Hw; simpl; [reflexivity|].
  simpl in Hw. apply andb_true_iff in Hw as [Hc Hw]. rewrite Hc.
  rewrite (IH EmptyString Hw). simpl.
  now destruct (0 <? String.length word)%nat.
Qed.

Lemma wordsFrom_blank_suffix (word s w : string) :
  allWhiteSpace w = true -> wordsFrom word (s ++ w)%string = wordsFrom word s.
Proof.
  intro Hw. revert word. induction s as [|c s IH]; intro word; simpl.
  - now apply wordsFrom_blank.
  - now rewrite !IH.
Qed.

Lemma wordsOf_blank_prefix (w s : string) :
  allWhiteSpace w = true -> wordsOf (w ++ s)%string = wordsOf s.
Proof.
  unfold wordsOf. induction w as [|c w IH]; simpl; [reflexivity|].
  intro Hw. apply andb_true_iff in Hw as [Hc Hw]. rewrite Hc. simpl. now apply IH.
Qed.

Lemma wordsOf_trim (s : string) : wordsOf (JS.trim s) = wordsOf s.
Proof.
  unfold JS.trim.
  destruct (trimStart_split s) as (w1 & Hw1 & Hs1).
  destruct (trimEnd_split (JS.trimStart s)) as (w2 & Hw2 & Hs2).
  rewrite Hs1 at 2. rewrite wordsOf_blank_prefix by assumption.
  rewrite Hs2 at 2. unfold wordsOf. now rewrite wordsFrom_blank_suffix.
Qed.

(** Collapsing the whitespace runs, splitting on the space and dropping
    the empty pieces reads the words. *)
Lemma split_collapsed_words (s : string) :
  forall (inRun : bool) (word : string),
    (inRun = true -> word = EmptyString) ->
    filter (fun w => (0 <? String.length w)%nat)
      (JS.splitFrom " " word (JS.replaceWhiteSpaceRuns inRun s))
    = wordsFrom word s.
Proof.
  induction s as [|c s IH]; intros inRun word Hrun; simpl; [reflexivity|].
  destruct (JS.isWhiteSpace c) eqn:Hc.
  - destruct inRun.
    + rewrite (Hrun eq_refl). simpl. now apply IH.
    + simpl. rewrite (IH true EmptyString (fun _ => eq_refl)).
      now destruct (0 <? String.length word)%nat.
  - simpl. replace (Ascii.eqb c " ") with false.
    + apply IH. intro H. discriminate H.
    + symmetry. apply Ascii.eqb_neq. intros ->. discriminate Hc.
Qed.

(** The tokens are the words. *)
Lemma tokenize_wordsOf (instruction : string) :
  tokenize instruction = wordsOf instruction.
Proof.
  unfold tokenize, JS.split.
  rewrite split_collapsed_words by (intro H; discriminate H).
  apply wordsOf_trim.
Qed.

Lemma hasWhiteSpace_append (a b : string) :
  hasWhiteSpace (a ++ b)%string = hasWhiteSpace a || hasWhiteSpace b.
Proof.
  induction a as [|c a IH]; simpl; [reflexivity|]. now rewrite IH, orb_assoc.
Qed.

Lemma wordsFrom_clean (s : string) :
  forall word,
    hasWhiteSpace word = false ->
    Forall (fun w => w <> EmptyString /\ hasWhiteSpace w = false) (wordsFrom word s).
Proof.
  induction s as [|c s IH]; intros word Hword; simpl.
  - destruct (0 <? String.length word)%nat eqn:Hlen; constructor; [|constructor].
    split; [|assumption]. intros ->. discriminate Hlen.
  - destruct (JS.isWhiteSpace c) eqn:Hc.
    + destruct (0 <? String.length word)%nat eqn:Hlen.
      * constructor; [|now apply IH].
        split; [|assumption]. intros ->. discriminate Hlen.
      * now apply IH.
    + apply IH. rewrite hasWhiteSpace_append. simpl. now rewrite Hword, Hc.
Qed.

(** A whitespace character between two strings separates their words. *)
Lemma wordsFrom_separator (a rest : string) (c : ascii) :
  JS.isWhiteSpace c = true ->
  forall word,
    wordsFrom word (a ++ String c rest)%string = wordsFrom word a ++ wordsOf rest.
Proof.
  intros Hc. unfold wordsOf. induction a as [|d a IH]; intro word; simpl.
  - rewrite Hc. now destruct (0 <? String.length word)%nat.
  - destruct (JS.isWhiteSpace d); [|apply IH].
    destruct (0 <? String.length word)%nat; simpl; now rewrite IH.
Qed.

Lemma wordsOf_separated (a sep b : string) :
  allWhiteSpace sep = true -> sep <> EmptyString ->
  wordsOf (a ++ sep ++ b)%string = wordsOf a ++ wordsOf b.
Proof.
  intros Hsep Hne. destruct sep as [|c sep]; [contradiction|].
  simpl in Hsep. apply andb_true_iff in Hsep as [Hc Hsep]. simpl.
  unfold wordsOf at 1. rewrite (wordsFrom_separator a _ c Hc).
  now rewrite wordsOf_blank_prefix.
Qed.

(** A word without whitespace is its own only word. *)
Lemma wordsFrom_word (w : string) :
  hasWhiteSpace w = false ->
  forall word,
    wordsFrom word w
    = if (0 <? String.length (word ++ w))%nat then [(word ++ w)%string] else [].
Proof.
  induction w as [|c w IH]; intros Hw word; simpl.
  - now rewrite append_nil_r.
  - simpl in Hw. apply orb_false_iff in Hw as [Hc Hw]. rewrite Hc.
    rewrite (IH Hw), append_assoc. reflexivity.
Qed.

(** X1. The tokens of an instruction are its words: the maximal runs of
    characters other than whitespace, in order; so no token is empty and
    none holds a whitespace character. *)
Theorem tokenize_words (instruction : string) :
  tokenize instruction = wordsOf instruction
  /\ Forall (fun token => token <> EmptyString /\ hasWhiteSpace token = false)
       (tokenize instruction).
Proof.
  split; [apply tokenize_wordsOf|].
  rewrite tokenize_wordsOf. now apply wordsFrom_clean.
Qed.

(** X2. Tokenizing composes over whitespace: a non-empty run of
    whitespace between two strings separates their tokens, and whitespace
    before or after a string adds none. *)
Theorem tokenize_separated (a sep b : string) :
  allWhiteSpace sep = true ->
  (sep <> EmptyString ->
   tokenize (a ++ sep ++ b)%string = tokenize a ++ tokenize b)
  /\ tokenize (sep ++ a)%string = tokenize a
  /\ tokenize (a ++ sep)%string = tokenize a.
Proof.
  intro Hsep. rewrite !tokenize_wordsOf. repeat split.
  - intro Hne. now apply wordsOf_separated.
  - now apply wordsOf_blank_prefix.
  - unfold wordsOf. now apply wordsFrom_blank_suffix.
Qed.

(** X3. Round trip: words that are not empty and hold no whitespace,
    joined by single spaces, tokenize back to the same words. *)
Theorem tokenize_unwords (words : list string) :
  Forall (fun w => w <> EmptyString /\ hasWhiteSpace w = false) words ->
  tokenize (unwords words) = words.
Proof.
  rewrite tokenize_wordsOf.
  induction words as [|w rest IH]; intro Hall; [reflexivity|].
  inversion Hall as [|? ? [Hne Hclean] Hrest]; subst.
  assert (Hone : wordsOf w = [w]).
  { unfold wordsOf. rewrite (wordsFrom_word w Hclean). simpl.
    destruct w; [contradiction | reflexivity]. }
  destruct rest as [|w' rest']; [exact Hone|].
  change (unwords (w :: w' :: rest'))
    with (w ++ String " " EmptyString ++ unwords (w' :: rest'))%string.
  rewrite wordsOf_separated; [|reflexivity|discriminate].
  now rewrite Hone, (IH Hrest).
Qed.

(** X4. The response depends on the instruction only through its words:
    two instructions with the same words, however spaced, get the same
    response. *)
Theorem response_by_words (now : JSDate.UTCFields) (accounts : list Account)
    (instruction1 instruction2 : string) :
  wordsOf instruction1 = wordsOf instruction2 ->
  parseInstruction now accounts instruction1
  = parseInstruction now accounts instruction2.
Proof.
  intro H. unfold parseInstruction, tryBlock.
  now rewrite !tokenize_wordsOf, H.
Qed.

(** ** The grammar *)

Lemma parse_finishLoop (tokens : list string) :
  parseWithStateMachine tokens
  = finishLoop (whileLoop States.START initialResult tokens).
Proof. reflexivity. Qed.

(** An error once pushed stays to the end of the parse. *)
Lemma errors_stay (tokens : list string) (s : States.t) (r : ParseResult) :
  errors r <> [] -> errors (finishLoop (whileLoop s r tokens)) <> [].
Proof.
  intros Hne Hnil.
  pose proof (whileLoop_errors tokens s r) as He.
  destruct (whileLoop s r tokens) as [s' r'|r']; simpl in Hnil.
  - destruct He as [extra He].
    destruct (afterLoop_keeps s' r') as [_ [extra' Hk]].
    rewrite Hk, He in Hnil. apply app_eq_nil in Hnil as [Hnil _].
    apply app_eq_nil in Hnil as [Hnil _]. contradiction.
  - destruct He as (extra & v & He). rewrite He in Hnil.
    apply app_eq_nil in Hnil as [Hnil _]. contradiction.
Qed.

Ltac dead_end :=
  let Hbad := fresh "Hbad" in
  intro Hbad; exfalso; cbn in Hbad; discriminate Hbad.

Ltac doomed :=
  let Hbad := fresh "Hbad" in
  intro Hbad; exfalso; revert Hbad; apply errors_stay; cbn; discriminate.

Ltac next_token tokens t :=
  destruct tokens as [|t tokens];
  [ dead_end | cbn [whileLoop States.eqb step JS.strictEq type setType setAmount
                      setCurrency setDebitAccount setCreditAccount setExecuteBy] ].

Ltac expect E :=
  match goal with
  | |- context [if String.eqb ?a ?b then _ else _] =>
      destruct (String.eqb a b) eqn:E; [apply String.eqb_eq in E | dead_end]
  end.

(** A parse without syntax errors has read a sentence of the grammar, and
    its result is what the sentence stands for. *)
Lemma clean_parse_reads (tokens : list string) :
  errors (parseWithStateMachine tokens) = [] ->
  exists st, reads tokens st /\ parseWithStateMachine tokens = parsedSentence st.
Proof.
  rewrite parse_finishLoop.
  next_token tokens k.
  destruct (String.eqb (JS.toUpperCase k) "DEBIT"
            || String.eqb (JS.toUpperCase k) "CREDIT") eqn:Ek; [|dead_end].
  apply orb_true_iff in Ek. rewrite !String.eqb_eq in Ek.
  next_token tokens amt.
  destruct (JS.includes amt ".") eqn:Edot; [doomed|].
  destruct (JS.parseInt amt) as [n|] eqn:En; [|doomed].
  destruct (n <=? 0) eqn:Epos; [doomed|]. apply Z.leb_gt in Epos.
  next_token tokens cur.
  destruct Ek as [Ek|Ek]; rewrite Ek;
    cbn [String.eqb Ascii.eqb Bool.eqb];
    next_token tokens f; expect Ef;
    next_token tokens acct1; expect Eacct1;
    next_token tokens a1; cbn [String.eqb Ascii.eqb Bool.eqb];
    next_token tokens for_; expect Efor;
    next_token tokens k2; expect Ek2;
    next_token tokens s; expect Es;
    next_token tokens acct2; expect Eacct2;
    next_token tokens a2; cbn [String.eqb Ascii.eqb Bool.eqb];
    (destruct tokens as [|on tokens];
     [ intros _;
       match type of Ek with
       | _ = ?ty => exists (mkSentence ty n (JS.toUpperCase cur) a1 a2 None)
       end;
       split; [|reflexivity];
       exists k, amt, cur, f, acct1, for_, k2, s, acct2, [];
       cbn; rewrite Ek; repeat split; auto
     | cbn [whileLoop States.eqb step]; expect Eon;
       destruct tokens as [|d tokens]; [dead_end|];
       cbn [whileLoop States.eqb step];
       destruct (isValidDateFormat d) eqn:Ed; [|doomed];
       destruct tokens as [|extra tokens]; [|dead_end];
       intros _;
       match type of Ek with
       | _ = ?ty => exists (mkSentence ty n (JS.toUpperCase cur) a1 a2 (Some d))
       end;
       split; [|reflexivity];
       exists k, amt, cur, f, acct1, for_, k2, s, acct2, [on; d];
       cbn; rewrite Ek; repeat split; auto;
       right; exists on, d; repeat split; auto ]).
Qed.
(** The state machine reads every sentence of the grammar without
    error. *)
Lemma reads_parse (tokens : list string) (st : Sentence) :
  reads tokens st -> parseWithStateMachine tokens = parsedSentence st.
Proof.
  intros (k & amt & cur & f & acct1 & for_ & k2 & s & acct2 & tail & -> & Hty
          & Hk & Hdot & Hn & Hpos & Hcur & Hf & Ha1 & Hfor & Hk2 & Hs & Ha2
          & Htail).
  destruct st as [ty n c a1 a2 date].
  cbn [sentenceType sentenceAmount sentenceCurrency firstAccount secondAccount
       sentenceDate] in *.
  assert (Hle : (n <=? 0) = false) by (apply Z.leb_gt; exact Hpos).
  rewrite parse_finishLoop. unfold parsedSentence.
  cbn [sentenceType sentenceAmount sentenceCurrency firstAccount secondAccount
       sentenceDate].
  destruct Hty as [-> | ->]; cbn in Hf, Hk2, Hs;
    destruct Htail as [[-> ->]|(on & d & -> & Hon & Hd & ->)];
    repeat first
      [ progress cbn
      | rewrite Hk | rewrite Hdot | rewrite Hn | rewrite Hle | rewrite Hcur
      | rewrite Hf | rewrite Ha1 | rewrite Hfor | rewrite Hk2 | rewrite Hs
      | rewrite Ha2 | rewrite Hon | rewrite Hd ];
    reflexivity.
Qed.

(** X5. Every token sequence of the grammar, keywords in any letter
    case, is parsed without error into its type, amount, upper-cased
    currency and date, with the account ids verbatim: the account after
    FROM is the debit account and the one after TO the credit account,
    whichever comes first. *)
Theorem grammar_accepted (tokens : list string) (st : Sentence) :
  reads tokens st ->
  parseWithStateMachine tokens = parsedSentence st
  /\ errors (parseWithStateMachine tokens) = []
  /\ type (parseWithStateMachine tokens) = Some (sentenceType st)
  /\ amount (parseWithStateMachine tokens) = Some (sentenceAmount st)
  /\ executeBy (parseWithStateMachine tokens) = sentenceDate st
  /\ (sentenceType st = "DEBIT" ->
      debitAccount (parseWithStateMachine tokens) = Some (firstAccount st)
      /\ creditAccount (parseWithStateMachine tokens) = Some (secondAccount st))
  /\ (sentenceType st = "CREDIT" ->
      creditAccount (parseWithStateMachine tokens) = Some (firstAccount st)
      /\ debitAccount (parseWithStateMachine tokens) = Some (secondAccount st)).
Proof.
  intro H. rewrite (reads_parse tokens st H). unfold parsedSentence.
  cbn [errors type amount executeBy debitAccount creditAccount].
  do 5 (split; [reflexivity|]).
  split; intro Hty; rewrite Hty; now split.
Qed.

(** X6. Only the sentences of the grammar parse without a syntax error:
    a parse with no error has read one, of eleven tokens, or thirteen with
    a date; any other token sequence leaves at least one syntax error. *)
Theorem grammar_only (tokens : list string) :
  errors (parseWithStateMachine tokens) = [] ->
  exists st,
    reads tokens st
    /\ parseWithStateMachine tokens = parsedSentence st
    /\ ((List.length tokens = 11%nat /\ sentenceDate st = None)
        \/ (List.length tokens = 13%nat /\ sentenceDate st <> None)).
Proof.
  intro Hnil. destruct (clean_parse_reads tokens Hnil) as (st & Hreads & Hparse).
  exists st. split; [exact Hreads|]. split; [exact Hparse|].
  destruct Hreads as (k & amt & cur & f & acct1 & for_ & k2 & s & acct2 & tail
                      & -> & _ & _ & _ & _ & _ & _ & _ & _ & _ & _ & _ & _ & Htail).
  destruct Htail as [[-> Hd]|(on & d & -> & _ & _ & Hd)].
  - left. now split.
  - right. split; [reflexivity|]. rewrite Hd. discriminate.
Qed.

Lemma whileLoop_Returned_more (tokens more : list string) :
  forall s r r',
    whileLoop s r tokens = Returned r' ->
    whileLoop s r (tokens ++ more) = Returned r'.
Proof.
  induction tokens as [|token rest IH]; intros s r r' H; simpl in *.
  - discriminate H.
  - destruct (States.eqb s States.COMPLETE); [discriminate H|].
    destruct (step s r token) as [s' r1|r1]; [now apply IH | exact H].
Qed.

(** X7. A fatal syntax error ends the parse: once the loop has returned
    on some token, the result is the same whatever tokens follow, and it
    ends with the violation pushed on that token. *)
Theorem fatal_error_stops (tokens more : list string) (r : ParseResult) :
  whileLoop States.START initialResult tokens = Returned r ->
  parseWithStateMachine (tokens ++ more) = r
  /\ parseWithStateMachine tokens = r
  /\ exists earlier v,
       errors r = earlier ++ [v]
       /\ (code v = STATUS_CODES.MALFORMED
           \/ code v = STATUS_CODES.MISSING_KEYWORD
           \/ code v = STATUS_CODES.INVALID_ORDER).
Proof.
  intro H. unfold parseWithStateMachine.
  rewrite (whileLoop_Returned_more tokens more _ _ _ H), H.
  split; [reflexivity|]. split; [reflexivity|].
  pose proof (whileLoop_invariant
                (fun _ _ => True)
                (fun r' => exists earlier v,
                     errors r' = earlier ++ [v]
                     /\ (code v = STATUS_CODES.MALFORMED
                         \/ code v = STATUS_CODES.MISSING_KEYWORD
                         \/ code v = STATUS_CODES.INVALID_ORDER))
                (fun _ => True)) as Hinv.
  cbv beta in Hinv.
  assert (Hret : forall s0 r0 token r',
             True -> True -> step s0 r0 token = Return r' ->
             exists earlier v,
               errors r' = earlier ++ [v]
               /\ (code v = STATUS_CODES.MALFORMED
                   \/ code v = STATUS_CODES.MISSING_KEYWORD
                   \/ code v = STATUS_CODES.INVALID_ORDER)).
  { intros s0 r0 token r' _ _ Hstep.
    destruct s0; invert_step Hstep;
      eexists; eexists; (split; [reflexivity|]); cbn; auto. }
  specialize (Hinv (fun _ _ _ _ _ _ _ _ => I) Hret tokens States.START
                initialResult (Forall_True tokens) I).
  now rewrite H in Hinv.
Qed.

(** ** More rules of the validator *)

Lemma find_none_iff {A : Type} (f : A -> bool) (l : list A) :
  find f l = None <-> forall a, In a l -> f a = false.
Proof.
  split; [intros H a; now apply find_none|].
  induction l as [|x l IH]; intro H; simpl; [reflexivity|].
  rewrite (H x (or_introl eq_refl)). apply IH. intros a Ha. apply H. now right.
Qed.

(** A lookup by a non-null id fails exactly when no account of the list
    has the id. *)
Lemma findAccount_none (accounts : list Account) (i : string) :
  findAccount accounts (Some i) = None
  <-> forall a, In a accounts -> id a <> i.
Proof.
  unfold findAccount. rewrite find_none_iff. split; intros H a Ha.
  - specialize (H a Ha). simpl in H. now apply String.eqb_neq.
  - simpl. apply String.eqb_neq. now apply H.
Qed.

(** X8. The validator pushes INSUFFICIENT_FUNDS exactly when both
    accounts were found, an amount was parsed and the balance of the debit
    account found is strictly below it: a balance equal to the amount is
    enough. *)
Theorem insufficient_funds_rule (parsed : ParseResult) (accounts : list Account) :
  (hasCode STATUS_CODES.INSUFFICIENT_FUNDS (emitted parsed accounts)
   <-> exists d c n,
         findAccount accounts (debitAccount parsed) = Some d
         /\ findAccount accounts (creditAccount parsed) = Some c
         /\ amount parsed = Some n /\ n <> 0 /\ balance d < n)
  /\ (forall d n,
         findAccount accounts (debitAccount parsed) = Some d ->
         amount parsed = Some n -> n <= balance d ->
         ~ hasCode STATUS_CODES.INSUFFICIENT_FUNDS (emitted parsed accounts)).
Proof.
  assert (Hiff : hasCode STATUS_CODES.INSUFFICIENT_FUNDS (emitted parsed accounts)
                 <-> exists d c n,
                       findAccount accounts (debitAccount parsed) = Some d
                       /\ findAccount accounts (creditAccount parsed) = Some c
                       /\ amount parsed = Some n /\ n <> 0 /\ balance d < n).
  { split.
    - intros (v & Hin & Hcode). rewrite emitted_rules in Hin.
      in_pushed Hin; subst v; try discriminate Hcode.
      match goal with
      | E : truthyNumber _ && _ = true |- _ =>
          apply andb_true_iff in E as [Et Elt]
      end.
      destruct (amount parsed) as [n|]; [|discriminate Et].
      simpl in Et, Elt. do 3 eexists. repeat split; try reflexivity.
      + intros ->. discriminate Et.
      + now apply Z.ltb_lt.
    - intros (d & c & n & Hd & Hc & Hn & Hnz & Hlt).
      exists (Violations.INSUFFICIENT_FUNDS d n). split; [|reflexivity].
      rewrite emitted_rules, Hd, Hc, Hn. cbn [toNumber truthyNumber].
      do 8 (apply in_or_app; right).
      apply Z.eqb_neq in Hnz. apply Z.ltb_lt in Hlt. rewrite Hnz, Hlt. now left. }
  split; [exact Hiff|].
  intros d n Hd Hn Hle Hhas. apply Hiff in Hhas as (d' & c & n' & Hd' & _ & Hn' & _ & Hlt).
  rewrite Hd in Hd'. rewrite Hn in Hn'. injection Hd' as <-. injection Hn' as <-. lia.
Qed.

(** X9. The validator pushes ACCOUNT_NOT_FOUND exactly when the debit
    id or the credit id is a non-empty string that is the id of no account
    of the list, compared as it is written; the account found for an id is
    the first of the list that has it. *)
Theorem account_not_found_rule (parsed : ParseResult) (accounts : list Account) :
  (hasCode STATUS_CODES.ACCOUNT_NOT_FOUND (emitted parsed accounts)
   <-> (exists i, debitAccount parsed = Some i /\ i <> EmptyString
                  /\ forall a, In a accounts -> id a <> i)
       \/ (exists i, creditAccount parsed = Some i /\ i <> EmptyString
                     /\ forall a, In a accounts -> id a <> i))
  /\ (forall before a after i,
         accounts = before ++ a :: after -> id a = i ->
         (forall b, In b before -> id b <> i) ->
         findAccount accounts (Some i) = Some a).
Proof.
  split.
  - split.
    + intros (v & Hin & Hcode). rewrite emitted_rules in Hin.
      in_pushed Hin; subst v; try discriminate Hcode;
        match goal with
        | E : JS.truthy _ && negb (isSome _) = true |- _ =>
            apply andb_true_iff in E as [Et Ef]
        end;
        apply truthy_Some in Et as (i & Hi & Hne); [left|right];
        exists i; (split; [exact Hi|]); (split; [exact Hne|]);
        rewrite Hi in Ef; apply findAccount_none;
        (destruct (findAccount accounts (Some i));
         [discriminate Ef | reflexivity]).
    + intros [(i & Hi & Hne & Hnone)|(i & Hi & Hne & Hnone)];
        exists (Violations.ACCOUNT_NOT_FOUND i); (split; [|reflexivity]);
        apply findAccount_none in Hnone;
        rewrite emitted_rules, Hi; cbn [orEmpty];
        rewrite Hnone, (truthy_of_nonempty i Hne); cbn [isSome negb andb pushed].
      * do 4 (apply in_or_app; right). apply in_or_app. left. now left.
      * do 5 (apply in_or_app; right). apply in_or_app. left. now left.
  - intros before a after i -> Hid Hbefore. unfold findAccount.
    induction before as [|b before IH]; simpl.
    + now rewrite Hid, String.eqb_refl.
    + replace (String.eqb (id b) i) with false.
      * apply IH. intros c Hc. apply Hbefore. now right.
      * symmetry. apply String.eqb_neq. apply Hbefore. now left.
Qed.

(** ** More of the prioritizer *)

(** What the scan of [selectPrimaryError] ends on. *)
Lemma select_spec (errs : list Violation) :
  (selectPrimaryError errs = None /\ Forall (fun x => rank x = 999) errs)
  \/ exists e,
       selectPrimaryError errs = Some e /\ In e errs /\ rank e < 999
       /\ forall x, In x errs -> rank e <= rank x.
Proof.
  unfold selectPrimaryError.
  destruct (fold_keepLower errs None 999) as [[Hall ->]|(pre & e & post & ->
    & -> & Hlow & Hpre & Hpost)].
  - left. split; [reflexivity|].
    apply Forall_forall. intros x Hx. rewrite Forall_forall in Hall.
    specialize (Hall x Hx). pose proof (rank_bounds x). lia.
  - right. exists e. rewrite Forall_forall in Hpre, Hpost.
    repeat split; auto.
    + apply in_or_app. right. now left.
    + intros x Hx. apply in_app_or in Hx as [Hx|[<-|Hx]];
        [apply Hpre in Hx; lia | lia | now apply Hpost].
Qed.

(** X10. [selectPrimaryError] returns null exactly when no violation of
    the list carries a code of the priority table, the empty list
    included; a violation it returns is one of the list and carries a code
    of the table. *)
Theorem selectPrimaryError_null (errs : list Violation) :
  (selectPrimaryError errs = None
   <-> Forall (fun x => priority (code x) = None) errs)
  /\ (forall e, selectPrimaryError errs = Some e -> In e errs /\ mapped e).
Proof.
  destruct (select_spec errs) as [[Hsel Hall]|(e & Hsel & Hin & Hlow & Hleast)];
    rewrite Hsel.
  - split.
    + split; [intros _|reflexivity].
      apply Forall_forall. intros x Hx. rewrite Forall_forall in Hall.
      specialize (Hall x Hx).
      destruct (priority (code x)) eqn:Hp; [|reflexivity].
      exfalso. assert (Hm : mapped x) by (unfold mapped; now rewrite Hp).
      apply rank_mapped in Hm. lia.
    + intros e He. discriminate He.
  - split.
    + split; [intro H; discriminate H|].
      intro Hall. exfalso. rewrite Forall_forall in Hall.
      apply rank_mapped in Hlow. apply Hlow. now apply Hall.
    + intros e' He'. injection He' as <-. split; [exact Hin|].
      now apply rank_mapped.
Qed.

(** X11. Which code is reported does not depend on the order of the
    violations: two lists with the same violations, in any order, select
    violations of the same code. *)
Theorem primary_code_order_free (errs errs' : list Violation) :
  Permutation errs errs' ->
  option_map code (selectPrimaryError errs)
  = option_map code (selectPrimaryError errs').
Proof.
  intro Hperm.
  destruct (select_spec errs) as [[Hsel Hall]|(e & Hsel & Hin & Hlow & Hleast)];
    destruct (select_spec errs') as [[Hsel' Hall']|(e' & Hsel' & Hin' & Hlow'
      & Hleast')];
    rewrite Hsel, Hsel'; simpl.
  - reflexivity.
  - exfalso. rewrite Forall_forall in Hall.
    apply (Permutation_in _ (Permutation_sym Hperm)) in Hin'.
    specialize (Hall e' Hin'). lia.
  - exfalso. rewrite Forall_forall in Hall'.
    apply (Permutation_in _ Hperm) in Hin. specialize (Hall' e Hin). lia.
  - f_equal. apply rank_code.
    + now apply rank_mapped.
    + pose proof (Hleast e' (Permutation_in _ (Permutation_sym Hperm) Hin')).
      pose proof (Hleast' e (Permutation_in _ Hperm Hin)).
      unfold rank at 2. cbn [code]. fold (rank e'). lia.
Qed.

(** ** More of the orchestrator *)

(** X12. The [catch] branch is never entered: for every account list
    and instruction the [try] block builds a response, and that response
    is the result. *)
Theorem catch_never_entered (now : JSDate.UTCFields) (accounts : list Account)
    (instruction : string) :
  exists response,
    tryBlock now accounts instruction = Some response
    /\ parseInstruction now accounts instruction = response.
Proof.
  pose proof (tryBlock_total now accounts instruction) as H.
  unfold parseInstruction.
  destruct (tryBlock now accounts instruction) as [response|];
    [|contradiction].
  now exists response.
Qed.

(** X13. The status tells whether there was a violation.  With none the
    response is "successful" with AP00 or "pending" with AP02; with at
    least one it is "failed", and its code and reason are those of a
    violation of the list of least rank, a code of the priority table. *)
Theorem response_status_code (now : JSDate.UTCFields) (accounts : list Account)
    (instruction : string) :
  let parsed := parseWithStateMachine (tokenize instruction) in
  let errs := validationErrors (validateBusinessRules parsed accounts) in
  let response := parseInstruction now accounts instruction in
  (errs = [] ->
   (Response.status response = "successful"
    /\ Response.status_code response = "AP00"
    /\ pendingFlag now parsed = false)
   \/ (Response.status response = "pending"
       /\ Response.status_code response = "AP02"
       /\ pendingFlag now parsed = true))
  /\ (errs <> [] ->
      Response.status response = "failed"
      /\ exists e,
           In e errs /\ mapped e
           /\ Response.status_code response = code e
           /\ Response.status_reason response = message e
           /\ forall x, In x errs -> rank e <= rank x).
Proof.
  intros parsed errs response. split.
  - intro Hnil.
    destruct (clean_run now accounts instruction Hnil)
      as (debit & credit & n & _ & _ & _ & _ & _ & _ & _ & _ & _ & Hresp).
    fold parsed in Hresp. unfold response. rewrite Hresp.
    destruct (pendingFlag now parsed); [right|left]; now repeat split.
  - intro Hne.
    assert (Hall : Forall mapped errs) by apply validate_mapped, parse_mapped.
    destruct (primary_error_exists errs Hne Hall) as (e & Hsel & Hin & Hleast).
    unfold response. rewrite (failure_run now accounts instruction e Hne Hsel).
    rewrite Forall_forall in Hall.
    destruct (String.eqb (code e) STATUS_CODES.MALFORMED
              || String.eqb (code e) STATUS_CODES.MISSING_KEYWORD
              || String.eqb (code e) STATUS_CODES.INVALID_ORDER);
      (split; [reflexivity|]); exists e; repeat split; auto.
Qed.

(** X14. The current date matters only to an instruction without
    violation that carries a date: an instruction with a violation, or
    without a date, gets the same response at any date. *)
Theorem clock_only_for_dates (now1 now2 : JSDate.UTCFields)
    (accounts : list Account) (instruction : string) :
  let parsed := parseWithStateMachine (tokenize instruction) in
  executeBy parsed = None
  \/ validationErrors (validateBusinessRules parsed accounts) <> [] ->
  parseInstruction now1 accounts instruction
  = parseInstruction now2 accounts instruction.
Proof.
  intros parsed H. unfold parseInstruction, tryBlock. fold parsed.
  destruct (validationErrors (validateBusinessRules parsed accounts)) eqn:Herrs.
  - destruct H as [He|Hne]; [|contradiction].
    rewrite He. reflexivity.
  - reflexivity.
Qed.

Lemma involvedAccounts_totals (parsed : ParseResult) (accounts : list Account) :
  totalBalance (involvedAccounts parsed accounts)
  = totalBefore (involvedAccounts parsed accounts).
Proof.
  induction accounts as [|a rest IH]; cbn [involvedAccounts]; [reflexivity|].
  destruct (JS.strictEq (Some (id a)) (debitAccount parsed)
            || JS.strictEq (Some (id a)) (creditAccount parsed));
    [|exact IH].
  cbn [totalBalance totalBefore fold_right unchangedView View.balance
       View.balance_before].
  fold (totalBalance (involvedAccounts parsed rest)).
  fold (totalBefore (involvedAccounts parsed rest)). now rewrite IH.
Qed.

(** What the views of the success branch add to the balances they
    started from, when no sum or difference is rounded: the amount once
    for every input account under the credit id, less once for every one
    under the debit id. *)
Lemma settledViews_totals (isPending : bool) (parsed : ParseResult)
    (debit credit : Account) (accounts : list Account) :
  id debit <> id credit ->
  0 < toNumber (amount parsed) ->
  (isPending = false ->
   forall a, In a accounts -> id a = id debit \/ id a = id credit ->
             exactFor (toNumber (amount parsed)) a) ->
  totalBalance (settledViews isPending parsed debit credit accounts)
  - totalBefore (settledViews isPending parsed debit credit accounts)
  = if isPending then 0
    else toNumber (amount parsed)
         * (Z.of_nat (count_occ string_dec (map id accounts) (id credit))
            - Z.of_nat (count_occ string_dec (map id accounts) (id debit))).
Proof.
  intros Hne Hpos Hexact. induction accounts as [|a rest IH].
  - cbn. destruct isPending; lia.
  - assert (IH' := IH (fun Hp b Hb => Hexact Hp b (or_intror Hb))).
    cbn [settledViews map].
    destruct (String.eqb_spec (id a) (id debit)) as [Hd|Hd];
      [|destruct (String.eqb_spec (id a) (id credit)) as [Hc|Hc]].
    + rewrite (count_occ_cons_eq _ _ Hd), count_occ_cons_neq by congruence.
      cbn [totalBalance totalBefore fold_right debitView View.balance
           View.balance_before].
      fold (totalBalance (settledViews isPending parsed debit credit rest)).
      fold (totalBefore (settledViews isPending parsed debit credit rest)).
      destruct isPending; [lia|].
      rewrite (sub_exact _ a Hpos (Hexact eq_refl a (or_introl eq_refl) (or_introl Hd))).
      lia.
    + rewrite (count_occ_cons_eq _ _ Hc), count_occ_cons_neq by congruence.
      cbn [totalBalance totalBefore fold_right creditView View.balance
           View.balance_before].
      fold (totalBalance (settledViews isPending parsed debit credit rest)).
      fold (totalBefore (settledViews isPending parsed debit credit rest)).
      destruct isPending; [lia|].
      rewrite (add_exact _ a Hpos (Hexact eq_refl a (or_introl eq_refl) (or_intror Hc))).
      lia.
    + rewrite !count_occ_cons_neq by congruence. exact IH'.
Qed.

(** X15. No money is made or lost: when the input ids are pairwise
    distinct and, for the input accounts under the debit or the credit id,
    the balance less the amount and the balance plus the amount lie within
    2^53 of zero, the balances of the views of any response sum to the
    balances they started from; a response that is not "successful" keeps
    that sum whatever the ids and the balances. *)
Theorem balances_conserved (now : JSDate.UTCFields) (accounts : list Account)
    (instruction : string) :
  let parsed := parseWithStateMachine (tokenize instruction) in
  let response := parseInstruction now accounts instruction in
  (NoDup (map id accounts) ->
   (forall a, In a accounts -> involved parsed (id a) = true ->
              exactFor (toNumber (amount parsed)) a) ->
   totalBalance (Response.accounts response)
   = totalBefore (Response.accounts response))
  /\ (Response.status response <> "successful" ->
      totalBalance (Response.accounts response)
      = totalBefore (Response.accounts response)).
Proof.
  intros parsed response.
  destruct (validationErrors (validateBusinessRules parsed accounts)) eqn:Herrs.
  - destruct (clean_run now accounts instruction Herrs)
      as (debit & credit & n & _ & _ & Hind & Hinc & Hidd & Hidc & Hne & Hn & Hpos
          & Hresp).
    fold parsed in Hn, Hresp, Hidd, Hidc. unfold response. rewrite Hresp.
    cbn [Response.accounts Response.status].
    assert (Hpos' : 0 < toNumber (amount parsed)) by now rewrite Hn.
    split.
    + intros Hnd Hexact.
      assert (Hinvolved : pendingFlag now parsed = false ->
                forall a, In a accounts -> id a = id debit \/ id a = id credit ->
                          exactFor (toNumber (amount parsed)) a).
      { intros _ a Ha [Hid|Hid]; apply Hexact; try assumption.
        - now apply (involved_debit parsed a debit).
        - now apply (involved_credit parsed a credit). }
      assert (Htot := settledViews_totals (pendingFlag now parsed) parsed debit
                        credit accounts Hne Hpos' Hinvolved).
      pose proof (proj1 (NoDup_count_occ' string_dec (map id accounts)) Hnd)
        as Hone.
      rewrite (Hone (id debit)), (Hone (id credit)) in Htot by now apply in_map.
      destruct (pendingFlag now parsed); lia.
    + intro Hst. destruct (pendingFlag now parsed) eqn:Hflag; [|contradiction].
      assert (Htot := settledViews_totals true parsed debit credit accounts Hne
                        Hpos').
      cbv iota in Htot. apply Z.sub_move_0_r, Htot. discriminate.
  - assert (Hne : validationErrors (validateBusinessRules parsed accounts) <> [])
      by (rewrite Herrs; discriminate).
    destruct (primary_error_exists _ Hne) as (e & Hsel & _).
    { apply validate_mapped, parse_mapped. }
    unfold response.
    rewrite (failure_run now accounts instruction e Hne Hsel). fold parsed.
    destruct (String.eqb (code e) STATUS_CODES.MALFORMED
              || String.eqb (code e) STATUS_CODES.MISSING_KEYWORD
              || String.eqb (code e) STATUS_CODES.INVALID_ORDER);
      cbn [Response.accounts nullResponse]; split; intros; 
      try reflexivity; apply involvedAccounts_totals.
Qed.

Lemma toUpperCase_nonempty (s : string) :
  s <> EmptyString -> JS.toUpperCase s <> EmptyString.
Proof. destruct s; [contradiction | discriminate]. Qed.

Lemma pushed_nil (cond : bool) (v : Violation) : pushed cond v = [] -> cond = false.
Proof. destruct cond; [discriminate | reflexivity]. Qed.

(** Every violation of the validator ranks after the syntax and amount
    errors. *)
Lemma emitted_rank (parsed : ParseResult) (accounts : list Account) (v : Violation) :
  In v (emitted parsed accounts) -> 5 <= rank v.
Proof.
  intro Hin. rewrite emitted_rules in Hin.
  in_pushed Hin; subst v; cbn; lia.
Qed.

(** X16. What an instruction without violation is sure of: both accounts
    were found under distinct ids made of allowed characters, the currency
    is one of the four supported, it is the upper-cased currency of the
    debit account, both accounts carry the same currency string, and the
    amount is positive and covered by the balance of the debit account, so
    that the debit leaves it at zero or above. *)
Theorem settlement_preconditions (accounts : list Account) (instruction : string) :
  let parsed := parseWithStateMachine (tokenize instruction) in
  let validation := validateBusinessRules parsed accounts in
  validationErrors validation = [] ->
  exists debit credit n cur,
    validationDebitAccount validation = Some debit
    /\ validationCreditAccount validation = Some credit
    /\ id debit <> id credit
    /\ isValidAccountId (id debit) = true
    /\ isValidAccountId (id credit) = true
    /\ parsedCurrency parsed = Some cur
    /\ In cur SUPPORTED_CURRENCIES
    /\ JS.toUpperCase (currency debit) = cur
    /\ currency credit = currency debit
    /\ amount parsed = Some n
    /\ 0 < n <= balance debit
    /\ 0 <= balance debit - n.
Proof.
  intros parsed validation Hnil.
  destruct (clean_run exampleNow accounts instruction Hnil)
    as (debit & credit & n & Hvd & Hvc & _ & _ & Hidd & Hidc & Hne & Hn & Hpos & _).
  fold parsed in Hidd, Hidc, Hn. fold validation in Hvd, Hvc.
  assert (Hsyntax : errors parsed = [] /\ emitted parsed accounts = []).
  { unfold validation in Hnil. rewrite validationErrors_prefix in Hnil.
    now apply app_eq_nil in Hnil. }
  destruct Hsyntax as [Hsyntax Hemitted].
  destruct (clean_parse_reads (tokenize instruction) Hsyntax)
    as (st & Hreads & Hparse).
  fold parsed in Hparse.
  assert (Hcur : parsedCurrency parsed = Some (sentenceCurrency st)
                 /\ sentenceCurrency st <> EmptyString).
  { split; [now rewrite Hparse|].
    destruct Hreads as (k & amt & cur & f & acct1 & for_ & k2 & s & acct2 & tail
                        & Htok & _ & _ & _ & _ & _ & Hc & _).
    rewrite <- Hc. apply toUpperCase_nonempty.
    pose proof (tokenize_nonempty instruction) as Hall.
    rewrite Htok in Hall.
    rewrite Forall_forall in Hall. apply Hall. right. right. now left. }
  destruct Hcur as [Hcur Hcne].
  exists debit, credit, n, (sentenceCurrency st).
  assert (Hfd : findAccount accounts (debitAccount parsed) = Some debit)
    by exact Hvd.
  assert (Hfc : findAccount accounts (creditAccount parsed) = Some credit)
    by exact Hvc.
  rewrite emitted_rules, Hfd, Hfc, Hidd, Hidc, Hcur, Hn in Hemitted.
  cbn [orEmpty toNumber truthyNumber] in Hemitted.
  repeat match type of Hemitted with
    | (_ ++ _) = [] => apply app_eq_nil in Hemitted as [? Hemitted]
    end.
  repeat match goal with
    | H : pushed _ _ = [] |- _ => apply pushed_nil in H
    end.
  assert (Htd : JS.truthy (Some (id debit)) = true).
  { rewrite <- Hidd.
    destruct (parse_without_errors (tokenize instruction)
                (tokenize_nonempty instruction) Hsyntax)
      as (d0 & c0 & n0 & Hd0 & Hd0ne & _).
    fold parsed in Hd0. rewrite Hd0. now apply truthy_of_nonempty. }
  assert (Htc : JS.truthy (Some (id credit)) = true).
  { rewrite <- Hidc.
    destruct (parse_without_errors (tokenize instruction)
                (tokenize_nonempty instruction) Hsyntax)
      as (d0 & c0 & n0 & _ & _ & Hc0 & Hc0ne & _).
    fold parsed in Hc0. rewrite Hc0. now apply truthy_of_nonempty. }
  rewrite (truthy_of_nonempty _ Hcne) in *.
  rewrite Htd, Htc in *. cbn [andb isSome negb] in *.
  assert (Hnz : (n =? 0) = false) by (apply Z.eqb_neq; lia).
  rewrite Hnz in *. cbn [negb andb] in *.
  repeat match goal with
    | H : negb _ = false |- _ => apply negb_false_iff in H
    end.
  assert (Hfunds : n <= balance debit).
  { match goal with H : (balance debit <? n) = false |- _ =>
      apply Z.ltb_ge in H; exact H end. }
  repeat split; auto; try lia.
  - match goal with H : existsb _ SUPPORTED_CURRENCIES = true |- _ =>
      apply existsb_exists in H as (x & Hx & Heq);
      apply String.eqb_eq in Heq; now subst x end.
  - match goal with H : String.eqb (JS.toUpperCase _) _ = true |- _ =>
      now apply String.eqb_eq in H end.
  - match goal with H : String.eqb (currency debit) (currency credit) = true |- _ =>
      apply String.eqb_eq in H; now symmetry end.
Qed.

(** X17. An instruction that is a sentence of the grammar and names an
    account id with a character other than a letter, a digit, a hyphen, a
    period or an at sign is answered "failed" with AC04, whatever the
    account list holds, and its parsed fields are echoed. *)
Theorem invalid_account_id_reported (now : JSDate.UTCFields)
    (accounts : list Account) (instruction : string) (st : Sentence) :
  let response := parseInstruction now accounts instruction in
  reads (tokenize instruction) st ->
  isValidAccountId (firstAccount st) = false
  \/ isValidAccountId (secondAccount st) = false ->
  Response.status response = "failed"
  /\ Response.status_code response = "AC04"
  /\ Response.type response = Some (sentenceType st)
  /\ Response.amount response = Some (sentenceAmount st)
  /\ Response.currency response = Some (sentenceCurrency st)
  /\ Response.execute_by response = sentenceDate st.
Proof.
  intros response Hreads Hbad.
  pose proof (reads_parse _ _ Hreads) as Hparse.
  set (parsed := parseWithStateMachine (tokenize instruction)) in *.
  assert (Herrs : validationErrors (validateBusinessRules parsed accounts)
                  = emitted parsed accounts).
  { rewrite validationErrors_prefix, Hparse. reflexivity. }
  assert (Hin : exists x, In (Violations.INVALID_ACCOUNT_ID x)
                            (emitted parsed accounts)).
  { assert (Hne : forall x, isValidAccountId x = false -> x <> EmptyString)
      by (intros x Hx ->; discriminate Hx).
    assert (Hside : (exists x, debitAccount parsed = Some x
                               /\ isValidAccountId x = false)
                    \/ (exists x, creditAccount parsed = Some x
                                  /\ isValidAccountId x = false)).
    { rewrite Hparse. unfold parsedSentence. cbn [debitAccount creditAccount].
      destruct (String.eqb (sentenceType st) "DEBIT"); destruct Hbad; eauto. }
    destruct Hside as [(x & Hx & Hv)|(x & Hx & Hv)]; exists x;
      rewrite emitted_rules, Hx; cbn [orEmpty];
      rewrite (truthy_of_nonempty x (Hne x Hv)), Hv; cbn [negb andb pushed].
    - now left.
    - apply in_or_app. right. apply in_or_app. left. now left. }
  destruct Hin as (x & Hin).
  assert (Hnonempty : validationErrors (validateBusinessRules parsed accounts) <> []).
  { rewrite Herrs. intro Hnil. rewrite Hnil in Hin. destruct Hin. }
  destruct (primary_error_exists _ Hnonempty) as (e & Hsel & He & Hleast).
  { apply validate_mapped, parse_mapped. }
  assert (Hcode : code e = STATUS_CODES.INVALID_ACCOUNT_ID).
  { apply rank_code; [discriminate|].
    rewrite Herrs in He, Hleast.
    pose proof (emitted_rank parsed accounts e He) as Hlow.
    specialize (Hleast _ Hin).
    change (rank (Violations.INVALID_ACCOUNT_ID x)) with 5 in Hleast.
    change (rank (mkViolation STATUS_CODES.INVALID_ACCOUNT_ID EmptyString)) with 5.
    lia. }
  unfold response.
  rewrite (failure_run now accounts instruction e Hnonempty Hsel), Hcode.
  fold parsed. rewrite Hparse. cbn. repeat split.
Qed.

(** ** The lexical validators *)

Lemma digitChar_digit (n : Z) :
  0 <= n <= 9 ->
  JS.isDigit (digitChar n) = true /\ JS.digitValue (digitChar n) = n
  /\ JS.isWhiteSpace (digitChar n) = false.
Proof.
  intro H. rewrite <- (Z2Nat.id n) by lia.
  assert (Hlt : (Z.to_nat n < 10)%nat) by lia.
  destruct (Z.to_nat n) as [|[|[|[|[|[|[|[|[|[|k]]]]]]]]]];
    try (now repeat split). lia.
Qed.

Lemma digit_digitChar (c : ascii) :
  JS.isDigit c = true ->
  0 <= JS.digitValue c <= 9 /\ digitChar (JS.digitValue c) = c.
Proof.
  destruct c as [[] [] [] [] [] [] [] []]; intro H; try discriminate H;
    (split; [split; vm_compute; intro Hc; discriminate Hc | reflexivity]).
Qed.

(** [parseInt] of two digit characters. *)
Lemma parseInt_two (a b : ascii) :
  JS.isDigit a = true -> JS.isDigit b = true ->
  JS.parseInt (String a (String b EmptyString))
  = Some (10 * JS.digitValue a + JS.digitValue b).
Proof.
  intros Ha Hb.
  assert (Hone : forall n,
             JS.digitsPrefix (Some n) (String b EmptyString)
             = Some (10 * n + JS.digitValue b)).
  { intro n. cbn [JS.digitsPrefix]. now rewrite Hb. }
  remember (String b EmptyString) as rest eqn:Hrest. clear Hrest.
  destruct a as [[] [] [] [] [] [] [] []]; try discriminate Ha;
    unfold JS.parseInt; cbn; apply Hone.
Qed.

(** What [isValidDateFormat] tests on a string of ten characters. *)
Lemma isValidDateFormat_ten (y1 y2 y3 y4 s1 m1 m2 s2 d1 d2 : ascii) :
  isValidDateFormat
    (String y1 (String y2 (String y3 (String y4 (String s1 (String m1
       (String m2 (String s2 (String d1 (String d2 EmptyString))))))))))
  = true
  <-> s1 = "-"%char /\ s2 = "-"%char
      /\ JS.isDigit y1 = true /\ JS.isDigit y2 = true /\ JS.isDigit y3 = true
      /\ JS.isDigit y4 = true /\ JS.isDigit m1 = true /\ JS.isDigit m2 = true
      /\ JS.isDigit d1 = true /\ JS.isDigit d2 = true
      /\ 1 <= 10 * JS.digitValue m1 + JS.digitValue m2 <= 12
      /\ 1 <= 10 * JS.digitValue d1 + JS.digitValue d2 <= 31.
Proof.
  unfold isValidDateFormat, charAtIs.
  cbn [String.length Nat.eqb negb String.get substring append allDigits].
  destruct (Ascii.eqb_spec s1 "-"); destruct (Ascii.eqb_spec s2 "-");
    cbn [negb orb]; try (split; [discriminate | intros (? & ? & _); congruence]).
  destruct (JS.isDigit y1) eqn:E1; cbn [negb];
    [|split; [discriminate | intros (_ & _ & H & _); discriminate H]].
  destruct (JS.isDigit y2) eqn:E2; cbn [negb];
    [|split; [discriminate | intros (_ & _ & _ & H & _); discriminate H]].
  destruct (JS.isDigit y3) eqn:E3; cbn [negb];
    [|split; [discriminate | intros (_ & _ & _ & _ & H & _); discriminate H]].
  destruct (JS.isDigit y4) eqn:E4; cbn [negb];
    [|split; [discriminate | intros (_ & _ & _ & _ & _ & H & _); discriminate H]].
  destruct (JS.isDigit m1) eqn:E5; cbn [negb];
    [|split; [discriminate
             | intros (_ & _ & _ & _ & _ & _ & H & _); discriminate H]].
  destruct (JS.isDigit m2) eqn:E6; cbn [negb];
    [|split; [discriminate
             | intros (_ & _ & _ & _ & _ & _ & _ & H & _); discriminate H]].
  destruct (JS.isDigit d1) eqn:E7; cbn [negb];
    [|split; [discriminate
             | intros (_ & _ & _ & _ & _ & _ & _ & _ & H & _); discriminate H]].
  destruct (JS.isDigit d2) eqn:E8; cbn [negb];
    [|split; [discriminate
             | intros (_ & _ & _ & _ & _ & _ & _ & _ & _ & H & _); discriminate H]].
  rewrite (parseInt_two m1 m2 E5 E6), (parseInt_two d1 d2 E7 E8).
  rewrite !andb_true_iff, !Z.leb_le. subst. tauto.
Qed.

(** X18. [isValidDateFormat] accepts exactly the dates written
    YYYY-MM-DD in digits with a month from 01 to 12 and a day from 01 to
    31, whatever the month and the year: 31 February is accepted. *)
Theorem isValidDateFormat_written (date : string) :
  isValidDateFormat date = true
  <-> exists y m d,
        0 <= y <= 9999 /\ 1 <= m <= 12 /\ 1 <= d <= 31
        /\ date = formatDate y m d.
Proof.
  split.
  - intro H.
    assert (Hlen : String.length date = 10%nat).
    { unfold isValidDateFormat in H.
      destruct (String.length date =? 10)%nat eqn:E; [|discriminate H].
      now apply Nat.eqb_eq. }
    destruct date as [|y1 [|y2 [|y3 [|y4 [|s1 [|m1 [|m2 [|s2 [|d1 [|d2 [|? ?]]]]]]]]]]];
      try discriminate Hlen.
    apply isValidDateFormat_ten in H
      as (-> & -> & H1 & H2 & H3 & H4 & H5 & H6 & H7 & H8 & Hm & Hd).
    destruct (digit_digitChar _ H1) as [B1 C1].
    destruct (digit_digitChar _ H2) as [B2 C2].
    destruct (digit_digitChar _ H3) as [B3 C3].
    destruct (digit_digitChar _ H4) as [B4 C4].
    destruct (digit_digitChar _ H5) as [B5 C5].
    destruct (digit_digitChar _ H6) as [B6 C6].
    destruct (digit_digitChar _ H7) as [B7 C7].
    destruct (digit_digitChar _ H8) as [B8 C8].
    exists (1000 * JS.digitValue y1 + 100 * JS.digitValue y2
            + 10 * JS.digitValue y3 + JS.digitValue y4),
      (10 * JS.digitValue m1 + JS.digitValue m2),
      (10 * JS.digitValue d1 + JS.digitValue d2).
    split; [lia|]. split; [exact Hm|]. split; [exact Hd|].
    unfold formatDate, fourDigits, twoDigits. cbn [append].
    repeat match goal with
      | |- context [digitChar ?e] =>
          match e with
          | JS.digitValue _ => fail 1
          | _ =>
              let v := fresh "v" in
              let E := fresh "E" in
              remember e as v eqn:E;
              first
                [ assert (v = JS.digitValue y1) by
                    (subst v; Z.to_euclidean_division_equations; lia)
                | assert (v = JS.digitValue y2) by
                    (subst v; Z.to_euclidean_division_equations; lia)
                | assert (v = JS.digitValue y3) by
                    (subst v; Z.to_euclidean_division_equations; lia)
                | assert (v = JS.digitValue y4) by
                    (subst v; Z.to_euclidean_division_equations; lia)
                | assert (v = JS.digitValue m1) by
                    (subst v; Z.to_euclidean_division_equations; lia)
                | assert (v = JS.digitValue m2) by
                    (subst v; Z.to_euclidean_division_equations; lia)
                | assert (v = JS.digitValue d1) by
                    (subst v; Z.to_euclidean_division_equations; lia)
                | assert (v = JS.digitValue d2) by
                    (subst v; Z.to_euclidean_division_equations; lia) ];
              clear E; subst v
          end
      end.
    now rewrite C1, C2, C3, C4, C5, C6, C7, C8.
  - intros (y & m & d & Hy & Hm & Hd & ->).
    unfold formatDate, fourDigits, twoDigits. cbn [append].
    apply isValidDateFormat_ten.
    assert (D1 : 0 <= y / 1000 <= 9) by (Z.to_euclidean_division_equations; lia).
    assert (D2 : 0 <= y / 100 mod 10 <= 9)
      by (Z.to_euclidean_division_equations; lia).
    assert (D3 : 0 <= y mod 100 / 10 <= 9)
      by (Z.to_euclidean_division_equations; lia).
    assert (D4 : 0 <= y mod 100 mod 10 <= 9)
      by (Z.to_euclidean_division_equations; lia).
    assert (D5 : 0 <= m / 10 <= 9) by (Z.to_euclidean_division_equations; lia).
    assert (D6 : 0 <= m mod 10 <= 9) by (Z.to_euclidean_division_equations; lia).
    assert (D7 : 0 <= d / 10 <= 9) by (Z.to_euclidean_division_equations; lia).
    assert (D8 : 0 <= d mod 10 <= 9) by (Z.to_euclidean_division_equations; lia).
    destruct (digitChar_digit _ D1) as (? & _ & _).
    destruct (digitChar_digit _ D2) as (? & _ & _).
    destruct (digitChar_digit _ D3) as (? & _ & _).
    destruct (digitChar_digit _ D4) as (? & _ & _).
    destruct (digitChar_digit _ D5) as (? & V5 & _).
    destruct (digitChar_digit _ D6) as (? & V6 & _).
    destruct (digitChar_digit _ D7) as (? & V7 & _).
    destruct (digitChar_digit _ D8) as (? & V8 & _).
    rewrite V5, V6, V7, V8.
    repeat (split; [first [reflexivity | assumption]|]).
    split; Z.to_euclidean_division_equations; lia.
Qed.

Lemma isValidAccountId_append (a b : string) :
  isValidAccountId (a ++ b)%string = isValidAccountId a && isValidAccountId b.
Proof.
  induction a as [|c a IH]; cbn [append isValidAccountId]; [reflexivity|].
  destruct (negb (JS.isLower c || JS.isUpper c) && negb (JS.isDigit c)
            && negb (Ascii.eqb c "-" || Ascii.eqb c "." || Ascii.eqb c "@"));
    [reflexivity | exact IH].
Qed.

(** X19. Account ids that are valid stay valid when they are joined: the
    empty id is valid, a joined id is valid exactly when both parts are,
    and a whitespace character makes an id invalid. *)
Theorem isValidAccountId_closed (a b : string) :
  isValidAccountId EmptyString = true
  /\ isValidAccountId (a ++ b)%string = isValidAccountId a && isValidAccountId b
  /\ (hasWhiteSpace a = true -> isValidAccountId a = false).
Proof.
  split; [reflexivity|]. split; [apply isValidAccountId_append|].
  induction a as [|c a IH]; cbn [hasWhiteSpace isValidAccountId];
    [discriminate|].
  intro H. apply orb_true_iff in H as [H|H].
  - destruct c as [[] [] [] [] [] [] [] []]; try discriminate H; reflexivity.
  - rewrite (IH H). now destruct (_ && _).
Qed.

(** ** The endpoint *)

(** X20. On a payload that passed the schema validation, the handler
    answers with the bad-request status exactly when the payload has a
    violation, and with the OK status otherwise, for a pending instruction
    as for a settled one; the data it returns is the response of the
    service. *)
Theorem handler_status (bad ok : Z) (now : JSDate.UTCFields) (body : Endpoint.Body) :
  let reply := Endpoint.handler bad ok now body in
  let errs :=
    validationErrors
      (validateBusinessRules
         (parseWithStateMachine (tokenize (Endpoint.payloadInstruction body)))
         (Endpoint.payloadAccounts body)) in
  (errs <> [] ->
   Endpoint.status reply = bad
   /\ Response.status (Endpoint.data reply) = "failed")
  /\ (errs = [] ->
      Endpoint.status reply = ok
      /\ (Response.status (Endpoint.data reply) = "successful"
          \/ Response.status (Endpoint.data reply) = "pending"))
  /\ Endpoint.data reply
     = parseInstruction now (Endpoint.payloadAccounts body)
         (Endpoint.payloadInstruction body).
Proof.
  intros reply errs. unfold reply, Endpoint.handler.
  cbn [Endpoint.status Endpoint.data].
  split; [|split; [|reflexivity]].
  - intro Hne.
    assert (Hall : Forall mapped errs) by apply validate_mapped, parse_mapped.
    destruct (primary_error_exists errs Hne Hall) as (e & Hsel & _).
    rewrite (failure_run now _ _ e Hne Hsel).
    now destruct (String.eqb (code e) STATUS_CODES.MALFORMED
                  || String.eqb (code e) STATUS_CODES.MISSING_KEYWORD
                  || String.eqb (code e) STATUS_CODES.INVALID_ORDER).
  - intro Hnil.
    destruct (clean_run now _ _ Hnil)
      as (debit & credit & n & _ & _ & _ & _ & _ & _ & _ & _ & _ & Hresp).
    rewrite Hresp. cbn [Response.status].
    destruct (pendingFlag now _); split; auto.
Qed.

(** ** Dates that are not dates *)

(** The loop over a concatenation goes on, after the first part, from
    the state and result it reached. *)
Lemma whileLoop_app (a b : list string) :
  forall s r,
    whileLoop s r (a ++ b)
    = match whileLoop s r a with
      | Fallthrough s' r' => whileLoop s' r' b
      | Returned r' => Returned r'
      end.
Proof.
  induction a as [|t a IH]; intros s r; [reflexivity|].
  cbn [app whileLoop].
  destruct (States.eqb s States.COMPLETE) eqn:Es.
  - destruct s; try discriminate Es. now destruct b.
  - destruct (step s r t) as [s' r'|r']; [apply IH | reflexivity].
Qed.

(** After the eleven tokens of a sentence without date the loop is in
    the SECOND_ACCOUNT state with the result the sentence stands for. *)
Lemma reads_loop (tokens : list string) (st : Sentence) :
  reads tokens st -> sentenceDate st = None ->
  whileLoop States.START initialResult tokens
  = Fallthrough States.SECOND_ACCOUNT (parsedSentence st).
Proof.
  intros (k & amt & cur & f & acct1 & for_ & k2 & s & acct2 & tail & -> & Hty
          & Hk & Hdot & Hn & Hpos & Hcur & Hf & Ha1 & Hfor & Hk2 & Hs & Ha2
          & Htail) Hnone.
  destruct st as [ty n c a1 a2 date].
  cbn [sentenceType sentenceAmount sentenceCurrency firstAccount secondAccount
       sentenceDate] in *.
  subst date.
  destruct Htail as [[-> _]|(on & d & _ & _ & _ & Hd)]; [|discriminate Hd].
  assert (Hle : (n <=? 0) = false) by (apply Z.leb_gt; exact Hpos).
  unfold parsedSentence.
  cbn [sentenceType sentenceAmount sentenceCurrency firstAccount secondAccount
       sentenceDate].
  destruct Hty as [-> | ->]; cbn in Hf, Hk2, Hs;
    repeat first
      [ progress cbn
      | rewrite Hk | rewrite Hdot | rewrite Hn | rewrite Hle | rewrite Hcur
      | rewrite Hf | rewrite Ha1 | rewrite Hfor | rewrite Hk2 | rewrite Hs
      | rewrite Ha2 ];
    reflexivity.
Qed.

(** With both ids valid or null, the violations of the validator rank
    after INVALID_DATE. *)
Lemma emitted_rank_valid_ids (parsed : ParseResult) (accounts : list Account)
    (v : Violation) :
  isValidAccountId (orEmpty (debitAccount parsed)) = true ->
  isValidAccountId (orEmpty (creditAccount parsed)) = true ->
  In v (emitted parsed accounts) -> 7 <= rank v.
Proof.
  intros Hd Hc Hin. rewrite emitted_rules, Hd, Hc in Hin.
  cbn [negb] in Hin. rewrite !andb_false_r in Hin.
  in_pushed Hin; subst v; cbn; lia.
Qed.

(** X21. A token after ON that is no date in the form YYYY-MM-DD does
    not stop the parse: INVALID_DATE is its only syntax error, the date
    stays null and every other field is read as without the date.  When
    both account ids are valid the response is "failed" with DT01 and the
    message of INVALID_DATE, its date is null, and it echoes the type, the
    amount, the currency and the two account ids of the sentence, with the
    unchanged views of the input accounts under those ids. *)
Theorem invalid_date_recorded (now : JSDate.UTCFields) (accounts : list Account)
    (instruction : string) (tokens : list string) (st : Sentence)
    (on d : string) :
  let parsed := parseWithStateMachine (tokens ++ [on; d]) in
  let response := parseInstruction now accounts instruction in
  reads tokens st -> sentenceDate st = None ->
  JS.toUpperCase on = "ON" -> isValidDateFormat d = false ->
  parsed = pushError (parsedSentence st) Violations.INVALID_DATE
  /\ errors parsed = [Violations.INVALID_DATE]
  /\ executeBy parsed = None
  /\ (tokenize instruction = tokens ++ [on; d] ->
      isValidAccountId (firstAccount st) = true ->
      isValidAccountId (secondAccount st) = true ->
      Response.status response = "failed"
      /\ Response.status_code response = "DT01"
      /\ Response.status_reason response = PaymentMessages.INVALID_DATE_FORMAT
      /\ Response.execute_by response = None
      /\ Response.type response = Some (sentenceType st)
      /\ Response.amount response = Some (sentenceAmount st)
      /\ Response.currency response = Some (sentenceCurrency st)
      /\ Response.debit_account response
         = Some (if String.eqb (sentenceType st) "DEBIT"
                 then firstAccount st else secondAccount st)
      /\ Response.credit_account response
         = Some (if String.eqb (sentenceType st) "DEBIT"
                 then secondAccount st else firstAccount st)
      /\ Response.accounts response
         = map unchangedView
             (filter (fun a => involved (parsedSentence st) (id a)) accounts)).
Proof.
  intros parsed response Hreads Hnone Hon Hd.
  assert (Hparsed : parsed = pushError (parsedSentence st) Violations.INVALID_DATE).
  { unfold parsed, parseWithStateMachine.
    rewrite whileLoop_app, (reads_loop tokens st Hreads Hnone).
    cbn [whileLoop States.eqb step]. rewrite Hon. cbn [String.eqb Ascii.eqb Bool.eqb].
    cbn [whileLoop States.eqb step]. rewrite Hd. reflexivity. }
  split; [exact Hparsed|]. rewrite Hparsed.
  split; [reflexivity|]. split; [unfold parsedSentence; now rewrite Hnone|].
  intros Htok Hv1 Hv2.
  assert (Hp : parseWithStateMachine (tokenize instruction)
               = pushError (parsedSentence st) Violations.INVALID_DATE).
  { rewrite Htok. exact Hparsed. }
  set (p := pushError (parsedSentence st) Violations.INVALID_DATE) in *.
  assert (Herrs : validationErrors (validateBusinessRules p accounts)
                  = Violations.INVALID_DATE :: emitted p accounts).
  { now rewrite validationErrors_prefix. }
  assert (Hne : validationErrors (validateBusinessRules p accounts) <> []).
  { rewrite Herrs. discriminate. }
  destruct (primary_error_exists _ Hne) as (e & Hsel & He & Hleast).
  { rewrite <- Hp. apply validate_mapped, parse_mapped. }
  assert (Hprimary : e = Violations.INVALID_DATE).
  { rewrite Herrs in He, Hleast.
    pose proof (Hleast _ (or_introl eq_refl)) as Hle.
    change (rank Violations.INVALID_DATE) with 6 in Hle.
    destruct He as [<-|He]; [reflexivity|].
    assert (Hlow : 7 <= rank e).
    { apply (emitted_rank_valid_ids p accounts); [| |exact He];
        unfold p, parsedSentence; cbn [debitAccount creditAccount pushError orEmpty];
        destruct (String.eqb (sentenceType st) "DEBIT"); assumption. }
    lia. }
  unfold response. rewrite <- Hp in Hne, Hsel.
  rewrite (failure_run now accounts instruction e Hne Hsel), Hp, Hprimary.
  rewrite involvedAccounts_filter.
  unfold p, parsedSentence, involved. cbn. rewrite Hnone. repeat split.
Qed.

(** ** Parsing after a rejected amount *)

(** From the AMOUNT state on, a turn looks neither at the amount nor at
    the errors: on two results with the same reading it takes the same
    exit, to the same state, with the same reading, and pushes the same
    violation. *)
Lemma step_same (s : States.t) (r1 r2 : ParseResult) (token : string) :
  2 <= stateIndex s -> sameReading r1 r2 ->
  match step s r1 token, step s r2 token with
  | Next s1 a, Next s2 b =>
      s1 = s2 /\ sameReading a b
      /\ exists extra, errors a = errors r1 ++ extra /\ errors b = errors r2 ++ extra
  | Return a, Return b =>
      sameReading a b
      /\ exists extra, errors a = errors r1 ++ extra /\ errors b = errors r2 ++ extra
  | _, _ => False
  end.
Proof.
  intros Hidx (Ht & Hc & Hd & Hcr & He).
  destruct s; simpl in Hidx; try (exfalso; lia); unfold step; rewrite ?Ht;
    repeat match goal with
      | |- context [if ?b then _ else _] => destruct b
      end;
    cbv beta iota; unfold sameReading;
    cbn [type parsedCurrency debitAccount creditAccount executeBy errors setType
         setAmount setCurrency setDebitAccount setCreditAccount setExecuteBy
         pushError];
    repeat match goal with |- _ /\ _ => split end;
    try assumption; try reflexivity;
    first [ exists []; rewrite !app_nil_r; split; reflexivity
          | eexists; split; reflexivity ].
Qed.

Lemma sameEnd_app (pre1 pre2 added : list Violation) (e1 e2 : LoopEnd) :
  sameEnd (pre1 ++ added) (pre2 ++ added) e1 e2 -> sameEnd pre1 pre2 e1 e2.
Proof.
  unfold sameEnd. destruct e1 as [s1 a|a], e2 as [s2 b|b]; try exact (fun H => H).
  - intros (Hs & Hab & extra & Ha & Hb). split; [assumption|]. split; [assumption|].
    exists (added ++ extra). now rewrite !app_assoc.
  - intros (Hab & extra & Ha & Hb). split; [assumption|].
    exists (added ++ extra). now rewrite !app_assoc.
Qed.

(** The same for the loop: from the AMOUNT state on, two runs over the
    same tokens that start with the same reading end alike. *)
Lemma whileLoop_same (tokens : list string) :
  forall s r1 r2,
    2 <= stateIndex s -> sameReading r1 r2 ->
    sameEnd (errors r1) (errors r2) (whileLoop s r1 tokens) (whileLoop s r2 tokens).
Proof.
  assert (Hstop : forall s r1 r2,
             sameReading r1 r2 ->
             sameEnd (errors r1) (errors r2) (Fallthrough s r1) (Fallthrough s r2)).
  { intros s r1 r2 Hsame. unfold sameEnd. split; [reflexivity|].
    split; [assumption|]. exists []. now rewrite !app_nil_r. }
  induction tokens as [|token rest IH]; intros s r1 r2 Hidx Hsame; cbn [whileLoop].
  - now apply Hstop.
  - destruct (States.eqb s States.COMPLETE); [now apply Hstop|].
    pose proof (step_same s r1 r2 token Hidx Hsame) as Hstep.
    destruct (step s r1 token) as [s1 a|a] eqn:E1;
      destruct (step s r2 token) as [s2 b|b]; try contradiction.
    + destruct Hstep as (<- & Hab & extra & Ha & Hb).
      assert (Hidx' : 2 <= stateIndex s1)
        by (rewrite (step_Next_index _ _ _ _ _ E1); lia).
      specialize (IH s1 a b Hidx' Hab). rewrite Ha, Hb in IH.
      now apply sameEnd_app in IH.
    + exact Hstep.
Qed.

(** The violations of a parse are among the five of the state machine. *)
Lemma step_syntaxViolations (s : States.t) (r : ParseResult) (token : string) :
  Forall (fun v => In v syntaxViolations) (errors r) ->
  Forall (fun v => In v syntaxViolations) (errors (turnResult (step s r token))).
Proof.
  intro H. destruct s; unfold step; split_ifs; cbn [turnResult errors pushError
    setType setAmount setCurrency setDebitAccount setCreditAccount setExecuteBy];
    try assumption;
    (apply Forall_app; split; [assumption|]; constructor; [|constructor];
     unfold syntaxViolations; simpl; auto 10).
Qed.

Lemma parse_syntaxViolations (tokens : list string) :
  Forall (fun v => In v syntaxViolations) (errors (parseWithStateMachine tokens)).
Proof.
  unfold parseWithStateMachine.
  pose proof (whileLoop_invariant
                (fun _ r => Forall (fun v => In v syntaxViolations) (errors r))
                (fun r => Forall (fun v => In v syntaxViolations) (errors r))
                (fun _ => True)) as H.
  cbv beta in H.
  specialize (H (fun s r token s' r' _ Hr Hstep =>
                   eq_ind _ (fun t => Forall (fun v => In v syntaxViolations)
                                        (errors (turnResult t)))
                     (step_syntaxViolations s r token Hr) _ Hstep)
                (fun s r token r' _ Hr Hstep =>
                   eq_ind _ (fun t => Forall (fun v => In v syntaxViolations)
                                        (errors (turnResult t)))
                     (step_syntaxViolations s r token Hr) _ Hstep)
                tokens States.START initialResult (Forall_True tokens)
                (Forall_nil _)).
  destruct (whileLoop States.START initialResult tokens) as [s r|r];
    [|assumption].
  unfold afterLoop. split_ifs; try assumption.
  cbn [errors pushError]. apply Forall_app. split; [assumption|].
  constructor; [|constructor]. unfold syntaxViolations. simpl. auto.
Qed.

(** No violation of the validator carries one of the three syntax
    codes. *)
Lemma emitted_parseable (parsed : ParseResult) (accounts : list Account)
    (v : Violation) :
  In v (emitted parsed accounts) -> ~ unparseable (code v).
Proof.
  intros Hin Hun. apply emitted_rank in Hin.
  unfold rank in Hin. destruct Hun as [H|[H|H]]; rewrite H in Hin;
    cbn in Hin; lia.
Qed.

(** The response to an instruction whose parse holds INVALID_AMOUNT and
    none of the three syntax codes. *)
Lemma invalid_amount_response (now : JSDate.UTCFields) (accounts : list Account)
    (instruction : string) :
  let parsed := parseWithStateMachine (tokenize instruction) in
  In Violations.INVALID_AMOUNT (errors parsed) ->
  (forall v, In v (errors parsed) -> ~ unparseable (code v)) ->
  parseInstruction now accounts instruction
  = Response.mk (type parsed) (amount parsed) (parsedCurrency parsed)
      (debitAccount parsed) (creditAccount parsed) (executeBy parsed)
      "failed" PaymentMessages.INVALID_AMOUNT "AM01"
      (map unchangedView (filter (fun a => involved parsed (id a)) accounts)).
Proof.
  intros parsed Hin Hsyn.
  destruct (primary_invalid_amount
              (validationErrors (validateBusinessRules parsed accounts)))
    as (e & Hsel & Hcode).
  { apply validate_mapped, parse_mapped. }
  { rewrite validationErrors_prefix. apply in_or_app. now left. }
  { intros v Hv. rewrite validationErrors_prefix in Hv.
    apply in_app_or in Hv as [Hv|Hv];
      [now apply Hsyn | now apply (emitted_parseable parsed accounts)]. }
  assert (Hne : validationErrors (validateBusinessRules parsed accounts) <> []).
  { intro Hnil. rewrite Hnil in Hsel. discriminate Hsel. }
  assert (Hprimary : e = Violations.INVALID_AMOUNT).
  { destruct (primary_error_exists _ Hne) as (e' & Hsel' & He & _).
    { apply validate_mapped, parse_mapped. }
    rewrite Hsel in Hsel'. injection Hsel' as <-.
    rewrite validationErrors_prefix in He. apply in_app_or in He as [He|He].
    - pose proof (parse_syntaxViolations (tokenize instruction)) as Hknown.
      rewrite Forall_forall in Hknown. specialize (Hknown e He).
      unfold syntaxViolations in Hknown.
      destruct Hknown as [<-|[<-|[<-|[<-|[<-|[]]]]]];
        first [reflexivity | discriminate Hcode].
    - apply emitted_rank in He. unfold rank in He. rewrite Hcode in He.
      cbn in He. lia. }
  rewrite (failure_run now accounts instruction e Hne Hsel). fold parsed.
  rewrite Hprimary, involvedAccounts_filter. reflexivity.
Qed.

(** C6. A token of the amount slot that contains a period, is no number,
    or is a number not above zero makes the TYPE state push
    INVALID_AMOUNT (code AM01) and go on to the AMOUNT state with the
    remaining tokens; the amount of the parse result stays null and
    INVALID_AMOUNT is the first of its errors.  The remaining tokens are
    read as after an accepted amount: the loop ends the same way, in the
    same state, with the same type, currency, account ids and date, and
    with the same violations after INVALID_AMOUNT; when the tokens with an
    accepted amount are a sentence of the grammar, the parse result is the
    one of that sentence with a null amount and INVALID_AMOUNT as its only
    error.  The response is "failed" with status code AM01, a null amount
    and the other parsed fields, unless the parse also recorded one of the
    three syntax codes; it is so whenever the tokens with an accepted
    amount are a sentence of the grammar. *)
Theorem invalid_amount_recorded (now : JSDate.UTCFields) (accounts : list Account)
    (instruction keyword token : string) (rest : list string) :
  let tokens := keyword :: token :: rest in
  let parsed := parseWithStateMachine tokens in
  let response := parseInstruction now accounts instruction in
  (JS.toUpperCase keyword = "DEBIT" \/ JS.toUpperCase keyword = "CREDIT") ->
  rejectedAmount token ->
  (forall result,
      step States.TYPE result token
      = Next States.AMOUNT (pushError result Violations.INVALID_AMOUNT))
  /\ code Violations.INVALID_AMOUNT = "AM01"
  /\ whileLoop States.START initialResult tokens
     = whileLoop States.AMOUNT
         (pushError (setType initialResult (Some (JS.toUpperCase keyword)))
            Violations.INVALID_AMOUNT) rest
  /\ amount parsed = None
  /\ (exists extra, errors parsed = Violations.INVALID_AMOUNT :: extra)
  /\ (forall good n,
         JS.includes good "." = false -> JS.parseInt good = Some n -> 0 < n ->
         sameEnd [Violations.INVALID_AMOUNT] []
           (whileLoop States.START initialResult tokens)
           (whileLoop States.START initialResult (keyword :: good :: rest)))
  /\ (forall good st,
         reads (keyword :: good :: rest) st -> parsed = rejectedSentence st)
  /\ (tokenize instruction = tokens ->
      (forall v, In v (errors parsed) -> ~ unparseable (code v)) ->
      response
      = Response.mk (type parsed) None (parsedCurrency parsed)
          (debitAccount parsed) (creditAccount parsed) (executeBy parsed)
          "failed" PaymentMessages.INVALID_AMOUNT "AM01"
          (map unchangedView (filter (fun a => involved parsed (id a)) accounts)))
  /\ (forall good st,
         tokenize instruction = tokens -> reads (keyword :: good :: rest) st ->
         response
         = Response.mk (Some (sentenceType st)) None (Some (sentenceCurrency st))
             (debitAccount (parsedSentence st)) (creditAccount (parsedSentence st))
             (sentenceDate st)
             "failed" PaymentMessages.INVALID_AMOUNT "AM01"
             (map unchangedView
                (filter (fun a => involved (parsedSentence st) (id a)) accounts))).
Proof.
  intros tokens parsed response Hkey Hrej.
  set (r0 := setType initialResult (Some (JS.toUpperCase keyword))).
  assert (Hstart : step States.START initialResult keyword = Next States.TYPE r0).
  { unfold step, r0. destruct Hkey as [-> | ->]; reflexivity. }
  assert (Hloop :
            whileLoop States.START initialResult tokens
            = whileLoop States.AMOUNT (pushError r0 Violations.INVALID_AMOUNT) rest).
  { unfold tokens. cbn [whileLoop States.eqb]. rewrite Hstart. cbn [States.eqb].
    now rewrite (step_TYPE_rejected _ token Hrej). }
  assert (Hamount : amount parsed = None).
  { unfold parsed, parseWithStateMachine. rewrite Hloop.
    pose proof (whileLoop_amount_kept rest States.AMOUNT
                  (pushError r0 Violations.INVALID_AMOUNT) ltac:(simpl; lia)) as Ha.
    change (amount (pushError r0 Violations.INVALID_AMOUNT)) with (@None Z) in Ha.
    destruct (whileLoop States.AMOUNT _ rest) as [s r|r]; [|exact Ha].
    destruct (afterLoop_keeps s r) as [Hka _]. congruence. }
  assert (Herrors : exists extra, errors parsed = Violations.INVALID_AMOUNT :: extra).
  { unfold parsed, parseWithStateMachine. rewrite Hloop.
    pose proof (whileLoop_errors rest States.AMOUNT
                  (pushError r0 Violations.INVALID_AMOUNT)) as He.
    change (errors (pushError r0 Violations.INVALID_AMOUNT))
      with [Violations.INVALID_AMOUNT] in He.
    destruct (whileLoop States.AMOUNT _ rest) as [s r|r].
    - destruct (afterLoop_keeps s r) as [_ [extra' Hke]].
      destruct He as [extra He]. exists (extra ++ extra').
      rewrite Hke, He. reflexivity.
    - destruct He as (extra & v & He). exists (extra ++ [v]). exact He. }
  assert (Hsame : forall good n,
             JS.includes good "." = false -> JS.parseInt good = Some n -> 0 < n ->
             sameEnd [Violations.INVALID_AMOUNT] []
               (whileLoop States.START initialResult tokens)
               (whileLoop States.START initialResult (keyword :: good :: rest))).
  { intros good n Hdot Hn Hpos. rewrite Hloop.
    cbn [whileLoop States.eqb]. rewrite Hstart. cbn [States.eqb].
    assert (Hgood : step States.TYPE r0 good
                    = Next States.AMOUNT (setAmount r0 (Some n))).
    { unfold step. rewrite Hdot, Hn.
      now replace (n <=? 0) with false by (symmetry; now apply Z.leb_gt). }
    rewrite Hgood.
    apply (whileLoop_same rest States.AMOUNT
             (pushError r0 Violations.INVALID_AMOUNT) (setAmount r0 (Some n)));
      [simpl; lia | now repeat split]. }
  assert (Hsentence : forall good st,
             reads (keyword :: good :: rest) st -> parsed = rejectedSentence st).
  { intros good st Hreads.
    pose proof (reads_parse _ st Hreads) as Hparse.
    destruct Hreads as (k & amt & cur & f & acct1 & for_ & k2 & s & acct2 & tail
                        & Htokens & _ & _ & Hdot & Hn & Hpos & _).
    injection Htokens as _ <- _.
    specialize (Hsame good (sentenceAmount st) Hdot Hn Hpos).
    pose proof (whileLoop_errors (keyword :: good :: rest) States.START
                  initialResult) as Hgrow.
    unfold parseWithStateMachine in Hparse.
    unfold parsed, parseWithStateMachine.
    pose proof (whileLoop_amount_kept rest States.AMOUNT
                  (pushError r0 Violations.INVALID_AMOUNT) ltac:(simpl; lia)) as Ha.
    rewrite <- Hloop in Ha.
    change (amount (pushError r0 Violations.INVALID_AMOUNT)) with (@None Z) in Ha.
    destruct (whileLoop States.START initialResult (keyword :: good :: rest))
      as [s2 b|b];
      destruct (whileLoop States.START initialResult tokens) as [s1 a|a];
      unfold sameEnd in Hsame; try contradiction.
    - destruct Hsame as (-> & Hab & extra & Hea & Heb).
      assert (Hnil : errors (afterLoop s2 b) = []) by now rewrite Hparse.
      destruct (afterLoop_no_errors s2 b Hnil) as [Hkeep _].
      rewrite Hkeep in Hparse, Hnil. rewrite Hnil in Heb.
      cbn [app] in Heb. subst extra.
      assert (Hdone : afterLoop s2 a = a).
      { revert Hkeep. unfold afterLoop.
        destruct s2; cbn [States.eqb orb negb]; try reflexivity;
          rewrite Hnil, Hea; cbn [List.length Nat.eqb app];
          intro Hc; apply (f_equal errors) in Hc; cbn [errors pushError] in Hc;
          rewrite Hnil in Hc; discriminate Hc. }
      rewrite Hdone. subst b.
      destruct a as [ty am cur' da ca ex errs].
      destruct Hab as (Ht & Hc & Hd & Hcr & He).
      unfold parsedSentence in Ht, Hc, Hd, Hcr, He.
      cbn [type amount parsedCurrency debitAccount creditAccount executeBy errors]
        in Ht, Hc, Hd, Hcr, He, Ha, Hea.
      unfold rejectedSentence. cbn [app] in Hea. now subst.
    - destruct Hgrow as (extra & v & Hgrow). rewrite Hparse in Hgrow.
      cbn [errors parsedSentence initialResult app] in Hgrow.
      symmetry in Hgrow. apply app_eq_nil in Hgrow as [_ Hgrow].
      discriminate Hgrow. }
  assert (Hresponse :
            tokenize instruction = tokens ->
            (forall v, In v (errors parsed) -> ~ unparseable (code v)) ->
            response
            = Response.mk (type parsed) None (parsedCurrency parsed)
                (debitAccount parsed) (creditAccount parsed) (executeBy parsed)
                "failed" PaymentMessages.INVALID_AMOUNT "AM01"
                (map unchangedView
                   (filter (fun a => involved parsed (id a)) accounts))).
  { intros Htok Hsyn.
    assert (Hp : parseWithStateMachine (tokenize instruction) = parsed)
      by (now rewrite Htok).
    unfold response. rewrite invalid_amount_response; rewrite Hp.
    - now rewrite Hamount.
    - destruct Herrors as [extra ->]. now left.
    - exact Hsyn. }
  split; [intro result; now apply step_TYPE_rejected|].
  split; [reflexivity|]. split; [exact Hloop|]. split; [exact Hamount|].
  split; [exact Herrors|]. split; [exact Hsame|]. split; [exact Hsentence|].
  split; [exact Hresponse|].
  intros good st Htok Hreads.
  pose proof (Hsentence good st Hreads) as Hp.
  rewrite Hresponse; [|assumption|].
  - rewrite Hp. reflexivity.
  - rewrite Hp. intros v [<-|[]] [H|[H|H]]; discriminate H.
Qed.

(** ** The passing of time *)

(** X22. Time only moves instructions from pending to settled: from the
    year 100 on, a date that is in the future at some day is in the future
    at every earlier day, and an instruction answered "successful" at some
    day gets the same response at every later day. *)
Theorem settled_stays_settled (now later : JSDate.UTCFields)
    (accounts : list Account) (instruction : string) :
  validDate now -> validDate later -> 100 <= JSDate.fullYear now ->
  calendarBefore now later ->
  (forall d, isFutureDate later d = true -> isFutureDate now d = true)
  /\ (Response.status (parseInstruction now accounts instruction) = "successful" ->
      parseInstruction later accounts instruction
      = parseInstruction now accounts instruction).
Proof.
  intros Hnow Hlater Hy Hbefore.
  assert (Hyl : 100 <= JSDate.fullYear later).
  { destruct Hbefore as [H|[H _]]; lia. }
  assert (Hdays : JSDate.localDay now < JSDate.localDay later)
    by (now apply localDay_calendar).
  assert (Hmono : forall d, isFutureDate later d = true -> isFutureDate now d = true).
  { intros d. unfold isFutureDate.
    destruct (JSDate.parseUTC d); [|discriminate].
    rewrite !Z.ltb_lt. lia. }
  split; [exact Hmono|].
  set (parsed := parseWithStateMachine (tokenize instruction)).
  destruct (validationErrors (validateBusinessRules parsed accounts)) eqn:Herrs.
  - destruct (clean_run now accounts instruction Herrs)
      as (debit & credit & n & Hvd & Hvc & _ & _ & _ & _ & _ & _ & _ & Hresp).
    destruct (clean_run later accounts instruction Herrs)
      as (debit' & credit' & n' & Hvd' & Hvc' & _ & _ & _ & _ & _ & _ & _ & Hresp').
    rewrite Hvd in Hvd'. rewrite Hvc in Hvc'.
    injection Hvd' as <-. injection Hvc' as <-.
    fold parsed in Hresp, Hresp'. rewrite Hresp, Hresp'.
    cbn [Response.status].
    destruct (pendingFlag now parsed) eqn:Hp; [discriminate|]. intros _.
    assert (Hp' : pendingFlag later parsed = false).
    { unfold pendingFlag in *.
      destruct (JS.truthy (executeBy parsed)); [|reflexivity].
      cbn [andb] in *.
      destruct (isFutureDate later (orEmpty (executeBy parsed))) eqn:Hf;
        [|reflexivity].
      apply Hmono in Hf. congruence. }
    now rewrite Hp'.
  - intros _. unfold parseInstruction, tryBlock. fold parsed.
    now rewrite Herrs.
Qed.

(** ** Instances *)



Lemma pending_settlement_witness :
  validationErrors
    (validateBusinessRules (parseWithStateMachine (tokenize debit30Later)) accountsAB)
  = []
  /\ executeBy (parseWithStateMachine (tokenize debit30Later)) = Some "2026-12-31"
  /\ isFutureDate exampleNow "2026-12-31" = true
  /\ Response.status (parseInstruction exampleNow accountsAB debit30Later) = "pending".
Proof.
  assert (Hnil : validationErrors
                   (validateBusinessRules
                      (parseWithStateMachine (tokenize debit30Later)) accountsAB)
                 = []) by (vm_compute; reflexivity).
  assert (Hdate : executeBy (parseWithStateMachine (tokenize debit30Later))
                  = Some "2026-12-31") by (vm_compute; reflexivity).
  assert (Hfuture : isFutureDate exampleNow "2026-12-31" = true)
    by (vm_compute; reflexivity).
  repeat (split; [assumption|]).
  exact (proj1 (proj1 (pending_settlement exampleNow accountsAB debit30Later
                         "2026-12-31" Hnil Hdate) Hfuture)).
Defined.

Lemma selectPrimaryError_least_rank_witness :
  exists e,
    selectPrimaryError [Violations.UNSUPPORTED_CURRENCY; Violations.MALFORMED]
    = Some e
    /\ code e = "SY03".
Proof.
  destruct (selectPrimaryError_least_rank
              [Violations.UNSUPPORTED_CURRENCY; Violations.MALFORMED])
    as (_ & _ & pre & e & post & _ & Hsel & _ & _ & Hmalformed).
  - exists Violations.MALFORMED. split; [right; left; reflexivity | discriminate].
  - exists e. split; [exact Hsel|]. apply Hmalformed.
    exists Violations.MALFORMED. split; [right; left; reflexivity | reflexivity].
Defined.

Lemma failure_response_shape_witness :
  validationErrors
    (validateBusinessRules (parseWithStateMachine (tokenize debit500)) accountsPoor)
  <> []
  /\ selectPrimaryError
       (validationErrors
          (validateBusinessRules (parseWithStateMachine (tokenize debit500))
             accountsPoor))
     = Some (Violations.INSUFFICIENT_FUNDS (mkAccount "a" 100 "USD") 500)
  /\ Response.status_code (parseInstruction exampleNow accountsPoor debit500) = "AC01".
Proof.
  assert (Hne : validationErrors
                  (validateBusinessRules (parseWithStateMachine (tokenize debit500))
                     accountsPoor) <> []) by (vm_compute; discriminate).
  assert (Hsel : selectPrimaryError
                   (validationErrors
                      (validateBusinessRules
                         (parseWithStateMachine (tokenize debit500)) accountsPoor))
                 = Some (Violations.INSUFFICIENT_FUNDS (mkAccount "a" 100 "USD") 500))
    by (vm_compute; reflexivity).
  repeat (split; [assumption|]).
  exact (proj1 (proj2 (failure_response_shape exampleNow accountsPoor debit500
                         _ Hne Hsel))).
Defined.

Lemma response_accounts_order_witness :
  NoDup (map id accountsBAC)
  /\ List.length (Response.accounts (parseInstruction exampleNow accountsBAC debit30))
     = 2%nat.
Proof.
  assert (Hnd : NoDup (map id accountsBAC)).
  { repeat constructor; simpl; intuition discriminate. }
  split; [exact Hnd|].
  apply (proj2 (proj2 (proj2 (response_accounts_order exampleNow accountsBAC
                                debit30))) Hnd).
  vm_compute. discriminate.
Defined.

Lemma invalid_amount_recorded_witness :
  rejectedAmount "-100"
  /\ parseWithStateMachine (tokenize debitNegative)
     = rejectedSentence (mkSentence "DEBIT" 100 "USD" "a" "b" None)
  /\ parseInstruction exampleNow accountsAB debitNegative
     = Response.mk (Some "DEBIT") None (Some "USD") (Some "a") (Some "b") None
         "failed" PaymentMessages.INVALID_AMOUNT "AM01"
         [View.mk "a" 230 230 "USD"; View.mk "b" 300 300 "USD"].
Proof.
  assert (Hrej : rejectedAmount "-100").
  { right. right. exists (-100). split; [reflexivity | lia]. }
  assert (Hreads : reads ("DEBIT" :: "100" :: restDebitAB)
                     (mkSentence "DEBIT" 100 "USD" "a" "b" None)).
  { exists "DEBIT", "100", "USD", "FROM", "ACCOUNT", "FOR", "CREDIT", "TO",
      "ACCOUNT", [].
    repeat split; try reflexivity; auto. }
  destruct (invalid_amount_recorded exampleNow accountsAB debitNegative
              "DEBIT" "-100" restDebitAB (or_introl eq_refl) Hrej)
    as (_ & _ & _ & _ & _ & _ & Hsentence & _ & Hresponse).
  split; [exact Hrej|]. split.
  - exact (Hsentence "100" _ Hreads).
  - rewrite (Hresponse "100" _ eq_refl Hreads). reflexivity.
Defined.

(** A rejected amount followed by TO where the grammar wants FROM: the
    TYPE state records INVALID_AMOUNT and goes on, the CURRENCY state
    returns with INVALID_ORDER, and the response carries SY02. *)
Lemma invalid_amount_recorded_counterexample :
  rejectedAmount "-100"
  /\ tokenize debitNegativeTo
     = ["DEBIT"; "-100"; "USD"; "TO"; "ACCOUNT"; "a"; "FOR"; "CREDIT"; "TO";
        "ACCOUNT"; "b"]
  /\ errors (parseWithStateMachine (tokenize debitNegativeTo))
     = [Violations.INVALID_AMOUNT; Violations.INVALID_ORDER]
  /\ Response.status_code (parseInstruction exampleNow accountsAB debitNegativeTo)
     = "SY02"
  /\ Response.status_code (parseInstruction exampleNow accountsAB debitNegativeTo)
     <> "AM01".
Proof.
  split.
  - right. right. exists (-100). split; [reflexivity | lia].
  - do 3 (split; [vm_compute; reflexivity|]). vm_compute. discriminate.
Qed.

Lemma exhausted_tokens_witness :
  errors (parseWithStateMachine ["DEBIT"; "100"; "USD"]) = [Violations.MALFORMED].
Proof.
  destruct (exhausted_tokens ["DEBIT"; "100"; "USD"] States.CURRENCY
              (setCurrency (setAmount (setType initialResult (Some "DEBIT")) (Some 100))
                 (Some "USD")))
    as [[_ H]|[Hr _]].
  - vm_compute. reflexivity.
  - discriminate.
  - discriminate.
  - exact H.
  - discriminate Hr.
Defined.

Lemma same_account_rule_witness :
  In Violations.SAME_ACCOUNT (emitted initialResult accountsAB).
Proof.
  exact (proj1 (proj2 (proj2 (same_account_rule initialResult accountsAB)))
           eq_refl eq_refl).
Defined.

Lemma blank_instruction_witness :
  allWhiteSpace "   " = true
  /\ Response.status_code (parseInstruction exampleNow accountsAB "   ") = "SY03".
Proof.
  split; [reflexivity|].
  exact (proj1 (proj2 (proj2 (blank_instruction exampleNow accountsAB "   "
                                eq_refl)))).
Defined.

Lemma currency_checks_witness :
  JS.toUpperCase "usd" = JS.toUpperCase "USD"
  /\ In Violations.CURRENCY_MISMATCH (emitted parsedDebit30 accountsMixedCase)
  /\ ~ In (Violations.CURRENCY_MISMATCH_INSTRUCTION "USD" "usd")
         (emitted parsedDebit30 accountsMixedCase).
Proof.
  destruct (currency_checks parsedDebit30 accountsMixedCase
              (mkAccount "a" 100 "usd") (mkAccount "b" 50 "USD") eq_refl eq_refl)
    as (Hcase & _ & Honly & _).
  split; [reflexivity|]. split.
  - apply Hcase. discriminate.
  - intro Hin.
    destruct (Honly "USD" eq_refl eq_refl eq_refl _ Hin eq_refl) as [Heq _].
    discriminate Heq.
Defined.

(** A non-empty list whose only code is outside the table: nothing is
    selected. *)
Lemma selectPrimaryError_counterexample :
  [mkViolation "ZZ99" "unmapped"] <> []
  /\ selectPrimaryError [mkViolation "ZZ99" "unmapped"] = None.
Proof. split; [discriminate | reflexivity]. Qed.

(** One account of the instruction is missing from the input: the
    response carries a single view. *)
Lemma response_accounts_counterexample :
  Response.status_code
    (parseInstruction exampleNow [mkAccount "a" 500 "USD"] debitToMissing) = "AC03"
  /\ Response.accounts
       (parseInstruction exampleNow [mkAccount "a" 500 "USD"] debitToMissing)
     = [View.mk "a" 500 500 "USD"]
  /\ List.length
       (Response.accounts
          (parseInstruction exampleNow [mkAccount "a" 500 "USD"] debitToMissing))
     = 1%nat.
Proof. vm_compute. repeat split. Qed.

(** The tokens end in the CURRENCY state after a rejected amount: the loop
    never returned, and the result holds INVALID_AMOUNT but no MALFORMED. *)
Lemma exhausted_tokens_counterexample :
  whileLoop States.START initialResult ["DEBIT"; "-100"; "USD"]
  = Fallthrough States.CURRENCY
      (setCurrency
         (pushError (setType initialResult (Some "DEBIT")) Violations.INVALID_AMOUNT)
         (Some "USD"))
  /\ errors (parseWithStateMachine ["DEBIT"; "-100"; "USD"])
     = [Violations.INVALID_AMOUNT]
  /\ ~ hasCode STATUS_CODES.MALFORMED
         (errors (parseWithStateMachine ["DEBIT"; "-100"; "USD"])).
Proof.
  split; [vm_compute; reflexivity|]. split; [vm_compute; reflexivity|].
  intros (v & Hin & Hcode). vm_compute in Hin. destruct Hin as [<-|[]].
  discriminate Hcode.
Qed.

(** ** Examples of the test suite *)

Example basic_debit :
  parseInstruction exampleNow accountsAB debit30
  = Response.mk (Some "DEBIT") (Some 30) (Some "USD") (Some "a") (Some "b") None
      "successful" PaymentMessages.TRANSACTION_SUCCESSFUL "AP00"
      [View.mk "a" 200 230 "USD"; View.mk "b" 330 300 "USD"].
Proof. vm_compute. reflexivity. Qed.

Example input_order_kept :
  map View.id (Response.accounts (parseInstruction exampleNow accountsBAC debit30))
  = ["b"; "a"].
Proof. vm_compute. reflexivity. Qed.

Example date_of_today_settles :
  Response.status (parseInstruction exampleNow accountsAB debit30Today) = "successful".
Proof. vm_compute. reflexivity. Qed.

Example negative_decimal_word_amounts :
  map (fun instruction =>
         Response.status_code (parseInstruction exampleNow accountsAB instruction))
    [debitNegative; debitDecimal; debitWord]
  = ["AM01"; "AM01"; "AM01"].
Proof. vm_compute. reflexivity. Qed.

Example malformed_before_currency :
  Response.status_code
    (parseInstruction exampleNow
       [mkAccount "a" 100 "EUR"; mkAccount "b" 500 "EUR"] debitEuroTrailing)
  = "SY03".
Proof. vm_compute. reflexivity. Qed.

Example insufficient_funds :
  Response.status_code (parseInstruction exampleNow accountsPoor debit500) = "AC01"
  /\ Response.accounts (parseInstruction exampleNow accountsPoor debit500)
     = [View.mk "a" 100 100 "USD"; View.mk "b" 500 500 "USD"].
Proof. vm_compute. split; reflexivity. Qed.

Example same_account :
  Response.status_code
    (parseInstruction exampleNow [mkAccount "a" 500 "USD"] debitSelf) = "AC02".
Proof. vm_compute. reflexivity. Qed.

Example rejected_amount_then_end :
  Response.status_code (parseInstruction exampleNow accountsAB "DEBIT -100 USD")
  = "AM01".
Proof. vm_compute. reflexivity. Qed.


(** ** Further instances *)

Lemma reads_debit30 : reads tokensDebit30 sentenceDebit30.
Proof.
  exists "DEBIT", "30", "USD", "FROM", "ACCOUNT", "FOR", "CREDIT", "TO", "ACCOUNT",
    [].
  repeat split; try reflexivity; auto.
Qed.

Lemma reads_debitBadId : reads (tokenize debitBadId) sentenceBadId.
Proof.
  exists "DEBIT", "100", "USD", "FROM", "ACCOUNT", "FOR", "CREDIT", "TO", "ACCOUNT",
    [].
  repeat split; try reflexivity; auto.
Qed.

Lemma tokenize_separated_witness :
  allWhiteSpace "  " = true
  /\ tokenize ("DEBIT" ++ "  " ++ "30")%string = tokenize "DEBIT" ++ tokenize "30".
Proof.
  split; [reflexivity|].
  apply (proj1 (tokenize_separated "DEBIT" "  " "30" eq_refl)). discriminate.
Defined.

Lemma tokenize_unwords_witness : tokenize (unwords tokensDebit30) = tokensDebit30.
Proof.
  apply tokenize_unwords.
  repeat (constructor; [split; [discriminate | reflexivity]|]). constructor.
Defined.

Lemma response_by_words_witness :
  wordsOf debit30Spaced = wordsOf debit30
  /\ parseInstruction exampleNow accountsAB debit30Spaced
     = parseInstruction exampleNow accountsAB debit30.
Proof.
  assert (H : wordsOf debit30Spaced = wordsOf debit30) by (vm_compute; reflexivity).
  split; [exact H|].
  exact (response_by_words exampleNow accountsAB debit30Spaced debit30 H).
Defined.

Lemma grammar_accepted_witness :
  parseWithStateMachine tokensDebit30 = parsedSentence sentenceDebit30.
Proof.
  exact (proj1 (grammar_accepted tokensDebit30 sentenceDebit30 reads_debit30)).
Defined.

Lemma grammar_only_witness :
  errors (parseWithStateMachine tokensDebit30) = []
  /\ exists st, reads tokensDebit30 st.
Proof.
  assert (H : errors (parseWithStateMachine tokensDebit30) = [])
    by (vm_compute; reflexivity).
  split; [exact H|].
  destruct (grammar_only tokensDebit30 H) as (st & Hreads & _).
  exists st. exact Hreads.
Defined.

Lemma fatal_error_stops_witness :
  parseWithStateMachine (["SEND"; "100"] ++ ["USD"; "TO"; "ACCOUNT"; "b"])
  = pushError initialResult Violations.MISSING_KEYWORD.
Proof.
  exact (proj1 (fatal_error_stops ["SEND"; "100"] ["USD"; "TO"; "ACCOUNT"; "b"]
                  (pushError initialResult Violations.MISSING_KEYWORD) eq_refl)).
Defined.

Lemma primary_code_order_free_witness :
  option_map code
    (selectPrimaryError [Violations.SAME_ACCOUNT; Violations.UNSUPPORTED_CURRENCY])
  = option_map code
      (selectPrimaryError [Violations.UNSUPPORTED_CURRENCY; Violations.SAME_ACCOUNT]).
Proof.
  apply primary_code_order_free. apply perm_swap.
Defined.

Lemma clock_only_for_dates_witness :
  executeBy (parseWithStateMachine (tokenize debit30)) = None
  /\ parseInstruction exampleNow accountsAB debit30
     = parseInstruction exampleLater accountsAB debit30.
Proof.
  assert (H : executeBy (parseWithStateMachine (tokenize debit30)) = None)
    by (vm_compute; reflexivity).
  split; [exact H|].
  exact (clock_only_for_dates exampleNow exampleLater accountsAB debit30
           (or_introl H)).
Defined.

Lemma settlement_preconditions_witness :
  validationErrors
    (validateBusinessRules (parseWithStateMachine (tokenize debit30)) accountsAB) = []
  /\ exists debit n,
       validationDebitAccount
         (validateBusinessRules (parseWithStateMachine (tokenize debit30)) accountsAB)
       = Some debit
       /\ amount (parseWithStateMachine (tokenize debit30)) = Some n
       /\ n <= balance debit.
Proof.
  assert (H : validationErrors
                (validateBusinessRules (parseWithStateMachine (tokenize debit30))
                   accountsAB) = []) by (vm_compute; reflexivity).
  split; [exact H|].
  destruct (settlement_preconditions accountsAB debit30 H)
    as (debit & credit & n & cur & Hd & _ & _ & _ & _ & _ & _ & _ & _ & Hn & Hle & _).
  exists debit, n. repeat split; [exact Hd | exact Hn | apply Hle].
Defined.

Lemma invalid_account_id_reported_witness :
  isValidAccountId "a!@#" = false
  /\ Response.status_code
       (parseInstruction exampleNow
          [mkAccount "a!@#" 500 "USD"; mkAccount "b" 200 "USD"] debitBadId)
     = "AC04".
Proof.
  split; [reflexivity|].
  exact (proj1 (proj2 (invalid_account_id_reported exampleNow
                         [mkAccount "a!@#" 500 "USD"; mkAccount "b" 200 "USD"]
                         debitBadId sentenceBadId reads_debitBadId
                         (or_introl eq_refl)))).
Defined.

Lemma balances_conserved_witness :
  NoDup (map id accountsAB)
  /\ (forall a, In a accountsAB ->
        exactFor (toNumber (amount (parseWithStateMachine (tokenize debit30)))) a)
  /\ totalBalance (Response.accounts (parseInstruction exampleNow accountsAB debit30))
     = totalBefore (Response.accounts (parseInstruction exampleNow accountsAB debit30)).
Proof.
  assert (Hnd : NoDup (map id accountsAB)).
  { repeat constructor; simpl; intuition discriminate. }
  assert (Hexact : forall a, In a accountsAB ->
            exactFor (toNumber (amount (parseWithStateMachine (tokenize debit30)))) a).
  { intros a [<-|[<-|[]]]; vm_compute; split; discriminate. }
  split; [exact Hnd|]. split; [exact Hexact|].
  exact (proj1 (balances_conserved exampleNow accountsAB debit30) Hnd
           (fun a Ha _ => Hexact a Ha)).
Defined.

Lemma invalid_date_recorded_witness :
  isValidDateFormat "2026/12/31" = false
  /\ Response.status_code (parseInstruction exampleNow accountsAB debit30BadDate)
     = "DT01".
Proof.
  split; [reflexivity|].
  destruct (invalid_date_recorded exampleNow accountsAB debit30BadDate
              tokensDebit30 sentenceDebit30 "ON" "2026/12/31"
              reads_debit30 eq_refl eq_refl eq_refl)
    as (_ & _ & _ & Hresponse).
  apply Hresponse; [vm_compute; reflexivity | reflexivity | reflexivity].
Defined.

Lemma settled_stays_settled_witness :
  calendarBefore exampleNow exampleLater
  /\ parseInstruction exampleLater accountsAB debit30Today
     = parseInstruction exampleNow accountsAB debit30Today.
Proof.
  assert (Hbefore : calendarBefore exampleNow exampleLater).
  { right. split; [reflexivity|]. right. split; [reflexivity|]. cbn. lia. }
  assert (Hnow : validDate exampleNow) by (unfold validDate; cbn; lia).
  assert (Hlater : validDate exampleLater) by (unfold validDate; cbn; lia).
  assert (Hy : 100 <= JSDate.fullYear exampleNow) by (cbn; lia).
  split; [exact Hbefore|].
  apply (proj2 (settled_stays_settled exampleNow exampleLater accountsAB
                  debit30Today Hnow Hlater Hy Hbefore)).
  vm_compute. reflexivity.
Defined.
